(** * BalloonMap: the normalization pipeline of server/index.js

    A shallow embedding of the server's record-normalization pipeline
    (flatten, findByKeys, latLonFromGeo, normalizeTuple, normalizeObject,
    explodeBodyToRecords, dedup, fetchWindborne24h, enrich, the /api/data
    and /api/health handlers and the warm cycle) and of the marker selection
    of the map client (draw of src/main.jsx), with the properties its
    specification states and further properties that the code has.

    Conventions of the embedding.
    - A JavaScript number is a [number]: NaN, the two infinities, or a finite
      value held as an exact rational, and differences and products of finite
      numbers are exact.  The rounding of binary64 arithmetic, its overflow to
      an infinity and the sign of zero are not modelled; every test the code
      makes on a number (Number.isFinite, Math.abs, the comparisons) is.  The
      arithmetic of the code is on integers below 2^53 (clock readings, hours,
      milliseconds), where binary64 is exact too, except for the product
      [n * 1000] of toMs on a number that is no such integer, and for the
      sign of the difference of two timestamps, which binary64 gives as it
      is.
    - A JavaScript string is a [string] of 8-bit code units.
    - A JSON value is a [value]; [undefined] only arises from a missing
      property or index and is the [None] of an [option value].
    - An exception is the [Thrown] of an [outcome]: the TypeError of a
      property read on null, of a call of what is no function and of the
      conversion of an object that has no usable toString, and the
      RangeError of toISOString.  Recursion is not bounded: the RangeError
      that the engine raises when its call stack is exhausted (flatten, or
      the join of an array, on a value nested thousands of levels deep) is
      not modelled.
    - What the JavaScript runtime supplies and the repository does not define
      (StringToNumber, Number::toString, Date.parse, the text of toISOString,
      JSON.parse) is a [Runtime] instance; the network, the clock and the two
      enrichment services are oracles passed as arguments. *)

From Stdlib Require Import QArith Qcanon ZArith Lia Ascii String List Sorted Permutation.
From Stdlib Require Import DecimalString.
From Stdlib Require DecimalNat DecimalZ.
From stdpp Require Import base option list strings gmap sorting.

Local Open Scope string_scope.
Local Open Scope list_scope.

(** ** Numbers *)

Module JSNum.

Inductive number : Type :=
| NaN
| PosInf
| NegInf
| Fin (q : Qc).

Definition of_Z (z : Z) : number := Fin (Q2Qc (inject_Z z)).
Definition of_nat (n : nat) : number := of_Z (Z.of_nat n).

Definition Qc_leb (a b : Qc) : bool := Qle_bool a b.
Definition Qc_ltb (a b : Qc) : bool := negb (Qle_bool b a).
Definition Qc_sgn (a : Qc) : Z := Z.sgn (Qnum a).
Definition Qc_abs (a : Qc) : Qc := if Qc_ltb a (Q2Qc 0) then (- a)%Qc else a.

(** Number.isFinite *)
Definition isFinite (a : number) : bool :=
  match a with Fin _ => true | _ => false end.

(** [a < b] *)
Definition ltb (a b : number) : bool :=
  match a, b with
  | NaN, _ | _, NaN => false
  | Fin x, Fin y => Qc_ltb x y
  | NegInf, NegInf => false
  | NegInf, _ => true
  | _, PosInf => match a with PosInf => false | _ => true end
  | _, _ => false
  end.

(** [a <= b] *)
Definition leb (a b : number) : bool :=
  match a, b with
  | NaN, _ | _, NaN => false
  | Fin x, Fin y => Qc_leb x y
  | NegInf, _ => true
  | _, PosInf => true
  | _, _ => false
  end.

(** [a > b] *)
Definition gtb (a b : number) : bool := ltb b a.

(** Math.abs *)
Definition abs (a : number) : number :=
  match a with
  | NaN => NaN
  | PosInf | NegInf => PosInf
  | Fin x => Fin (Qc_abs x)
  end.

(** [a - b] *)
Definition sub (a b : number) : number :=
  match a, b with
  | NaN, _ | _, NaN => NaN
  | Fin x, Fin y => Fin (x - y)%Qc
  | PosInf, PosInf | NegInf, NegInf => NaN
  | PosInf, _ => PosInf
  | NegInf, _ => NegInf
  | Fin _, PosInf => NegInf
  | Fin _, NegInf => PosInf
  end.

Definition signed_inf (s : Z) : number :=
  match s with
  | Z0 => NaN
  | Zpos _ => PosInf
  | Zneg _ => NegInf
  end.

(** [a * b] *)
Definition mul (a b : number) : number :=
  match a, b with
  | NaN, _ | _, NaN => NaN
  | Fin x, Fin y => Fin (x * y)%Qc
  | PosInf, PosInf | NegInf, NegInf => PosInf
  | PosInf, NegInf | NegInf, PosInf => NegInf
  | PosInf, Fin y | Fin y, PosInf => signed_inf (Qc_sgn y)
  | NegInf, Fin y | Fin y, NegInf => signed_inf (- Qc_sgn y)
  end.

End JSNum.

Export JSNum.

Arguments ltb : simpl never.
Arguments leb : simpl never.
Arguments gtb : simpl never.
Arguments sub : simpl never.
Arguments mul : simpl never.
Arguments abs : simpl never.
Arguments of_Z : simpl never.

#[global] Instance number_eq_dec : EqDecision number.
Proof. solve_decision. Defined.

(** ** JSON values *)

#[local] Set Warnings "-register-all".

Inductive value : Type :=
| VNull
| VBool (b : bool)
| VNum (n : number)
| VStr (s : string)
| VArr (elems : list value)
| VObj (props : list (string * value)).

(** An object is its own properties in enumeration order.  The engine lists
    integer-like keys first; the scans of the code ([Object.keys(..).find])
    only ever select keys that contain a letter, and the relative order of
    those is the insertion order kept here. *)
Abbreviation props := (list (string * value)).

(** [o[k]] on own properties; [None] is [undefined].  No key the code reads
    names a property of Object.prototype. *)
Fixpoint get_prop (o : props) (k : string) : option value :=
  match o with
  | [] => None
  | (k', v) :: r => if String.eqb k' k then Some v else get_prop r k
  end.

(** Defining a data property (object literals, spread). *)
Fixpoint define_prop (o : props) (k : string) (v : value) : props :=
  match o with
  | [] => [(k, v)]
  | (k', v') :: r =>
      if String.eqb k' k then (k', v) :: r else (k', v') :: define_prop r k v
  end.

(** The assignment [o[k] = v] of a primitive [v] on a plain object: the key
    [__proto__] reaches the accessor of Object.prototype, which ignores a
    value that is not an object, so no property is created. *)
Definition set_prop (o : props) (k : string) (v : value) : props :=
  if String.eqb k "__proto__" then o else define_prop o k v.

Definition keys (o : props) : list string := map fst o.

(** [v == null]: undefined or null *)
Definition nullish (v : option value) : bool :=
  match v with
  | None | Some VNull => true
  | Some _ => false
  end.

(** [a ?? b] *)
Definition coalesce (a b : option value) : option value :=
  if nullish a then b else a.

(** [a ?? b] when both are values *)
Definition or_else (a b : value) : value :=
  if nullish (Some a) then b else a.

Definition is_zero (n : number) : bool :=
  match n with
  | Fin q => Qeq_bool q 0
  | _ => false
  end.

(** ToBoolean *)
Definition truthy (v : value) : bool :=
  match v with
  | VNull => false
  | VBool b => b
  | VNum NaN => false
  | VNum n => negb (is_zero n)
  | VStr s => negb (String.eqb s EmptyString)
  | VArr _ | VObj _ => true
  end.

Definition isArray (v : value) : bool :=
  match v with VArr _ => true | _ => false end.

(** [typeof v === 'object'] (null included, as in JavaScript) *)
Definition typeof_object (v : value) : bool :=
  match v with VNull | VArr _ | VObj _ => true | _ => false end.

Definition typeof_string (v : value) : bool :=
  match v with VStr _ => true | _ => false end.

(** ** Strings *)

Definition nat_to_string (n : nat) : string :=
  NilEmpty.string_of_uint (Nat.to_uint n).

Fixpoint repeat_char (c : ascii) (n : nat) : string :=
  match n with
  | O => EmptyString
  | S m => String c (repeat_char c m)
  end.

(** [s.padStart(n, '0')] *)
Definition padStart0 (n : nat) (s : string) : string :=
  repeat_char "0"%char (n - String.length s) +:+ s.

Definition code (c : ascii) : nat := nat_of_ascii c.

Definition between (lo hi n : nat) : bool := (lo <=? n)%nat && (n <=? hi)%nat.

(** toLowerCase on code units up to U+00FF *)
Definition lower_char (c : ascii) : ascii :=
  let n := code c in
  if between 65 90 n || (between 192 222 n && negb (n =? 215)%nat)
  then ascii_of_nat (n + 32) else c.

Fixpoint toLowerCase (s : string) : string :=
  match s with
  | EmptyString => EmptyString
  | String c r => String (lower_char c) (toLowerCase r)
  end.

(** White space and line terminators that [trim] removes, up to U+00FF *)
Definition is_space (c : ascii) : bool :=
  let n := code c in between 9 13 n || (n =? 32)%nat || (n =? 160)%nat.

Fixpoint trimStart (s : string) : string :=
  match s with
  | EmptyString => EmptyString
  | String c r => if is_space c then trimStart r else s
  end.

Fixpoint trimEnd (s : string) : string :=
  match s with
  | EmptyString => EmptyString
  | String c r =>
      match trimEnd r with
      | EmptyString => if is_space c then EmptyString else String c EmptyString
      | r' => String c r'
      end
  end.

Definition trim (s : string) : string := trimEnd (trimStart s).

(** [s.split(c)] for a one-character separator: never empty *)
Fixpoint split_char (sep : ascii) (s : string) : list string :=
  match s with
  | EmptyString => [EmptyString]
  | String c r =>
      if Ascii.eqb c sep then EmptyString :: split_char sep r
      else match split_char sep r with
           | [] => [String c EmptyString]
           | h :: t => String c h :: t
           end
  end.

(** [s.includes(c)] *)
Fixpoint includes_char (c : ascii) (s : string) : bool :=
  match s with
  | EmptyString => false
  | String c' r => Ascii.eqb c' c || includes_char c r
  end.

Definition LF : ascii := ascii_of_nat 10.
Definition CR : ascii := ascii_of_nat 13.

Definition drop_last_CR (s : string) : string :=
  match get (String.length s - 1) s with
  | Some c => if Ascii.eqb c CR then substring 0 (String.length s - 1) s else s
  | None => s
  end.

(** [s.split(/\r?\n/)]: cut at every line feed; a carriage return right
    before the line feed belongs to the separator. *)
Definition split_lines (s : string) : list string :=
  match rev (split_char LF s) with
  | [] => []
  | last :: init => rev (last :: map drop_last_CR init)
  end.

(** ** Exceptions *)

Inductive outcome (A : Type) : Type :=
| Returned (a : A)
| Thrown.
Arguments Returned {A} a.
Arguments Thrown {A}.

Definition bind {A B} (m : outcome A) (k : A -> outcome B) : outcome B :=
  match m with
  | Returned a => k a
  | Thrown => Thrown
  end.

Notation "'do' x <- m ; k" := (bind m (fun x => k))
  (at level 10, x name, m at level 100, k at level 200).

(** [try { m } catch { h }] *)
Definition try_catch {A} (m : outcome A) (h : A) : A :=
  match m with
  | Returned a => a
  | Thrown => h
  end.

(** A loop body run over a list, threading an accumulator; the first
    exception leaves the loop. *)
Fixpoint for_each {A St} (body : St -> A -> outcome St) (l : list A) (s : St)
  : outcome St :=
  match l with
  | [] => Returned s
  | a :: r => do s' <- body s a; for_each body r s'
  end.

(** ** The runtime *)

Class Runtime : Type := {
  (** StringToNumber, the conversion of [+s] and [Number(s)] *)
  StringToNumber : string -> number;
  (** Number::toString *)
  NumberToString : number -> string;
  (** Date.parse *)
  Date_parse : string -> number;
  (** the text of [new Date(t).toISOString()] for a time value in range *)
  Date_toISOString : number -> string;
  (** JSON.parse; [None] is its SyntaxError *)
  JSON_parse : string -> option value;
}.

(** ** Conversions *)

Section Conversions.
Context {rt : Runtime}.

(** Array.prototype.join with a comma, on the texts of the elements *)
Fixpoint join_comma (l : list string) : string :=
  match l with
  | [] => EmptyString
  | [s] => s
  | s :: r => s +:+ "," +:+ join_comma r
  end.

(** The text of a value whose conversion raises nothing: that of a
    primitive, the join of an array (where null gives the empty text), and
    what Object.prototype.toString gives for an object *)
Fixpoint text_of (v : value) : string :=
  match v with
  | VNull => "null"
  | VBool true => "true"
  | VBool false => "false"
  | VNum n => NumberToString n
  | VStr s => s
  | VArr l =>
      join_comma
        (map (fun e => match e with VNull => EmptyString | _ => text_of e end) l)
  | VObj _ => "[object Object]"
  end.

(** The number of a value whose conversion raises nothing; [None] is
    undefined *)
Definition number_of (v : option value) : number :=
  match v with
  | None => NaN
  | Some VNull => of_Z 0
  | Some (VBool true) => of_Z 1
  | Some (VBool false) => of_Z 0
  | Some (VNum n) => n
  | Some (VStr s) => StringToNumber s
  | Some (VArr l) => StringToNumber (text_of (VArr l))
  | Some (VObj o) => StringToNumber (text_of (VObj o))
  end.

(** Whether ToPrimitive raises a TypeError on [v].  The values are those of
    JSON, whose properties are never callable.  On an object
    OrdinaryToPrimitive tries valueOf and toString, in the order of the
    hint: an own property of either name is skipped as not callable,
    Object.prototype.valueOf returns the object itself, which is no
    primitive, and Object.prototype.toString returns a text; so the
    conversion fails exactly when the object has an own property
    [toString].  An array is converted by Array.prototype.toString, the
    join of its elements, which converts every element that is not null. *)
Fixpoint unconvertible (v : value) : bool :=
  match v with
  | VObj o => match get_prop o "toString" with Some _ => true | None => false end
  | VArr l => existsb unconvertible l
  | _ => false
  end.

(** ToString: [String(v)] and template literals *)
Definition ToString (v : value) : outcome string :=
  if unconvertible v then Thrown else Returned (text_of v).

(** ToNumber: unary plus and [Number(v)]; [None] is undefined *)
Definition ToNumber (v : option value) : outcome number :=
  match v with
  | Some x => if unconvertible x then Thrown else Returned (number_of v)
  | None => Returned NaN
  end.

(** The largest time value of a Date, 8.64e15 ms *)
Definition MAX_TIME : number := of_Z 8640000000000000.

(** The numbers a Date can hold *)
Definition time_value (t : number) : bool := isFinite t && leb (abs t) MAX_TIME.

(** [new Date(t).toISOString()]: a RangeError unless [t] is a time value *)
Definition toISOString (t : number) : outcome string :=
  if time_value t then Returned (Date_toISOString t) else Thrown.

(** safeJSON: [null] is [VNull] *)
Definition safeJSON (any : value) : value :=
  match any with
  | VStr s =>
      match JSON_parse s with
      | Some v => v
      | None => VNull
      end
  | _ => any
  end.

End Conversions.

(** ** Record Flattener *)

(** The path template of flatten: prefix, a dot unless the prefix is empty,
    then the segment *)
Definition path (prefix seg : string) : string :=
  prefix +:+ (if String.eqb prefix EmptyString then EmptyString else ".") +:+ seg.

(** [l.forEach((v, i) => ..)] from index [i], on the state the callback
    updates *)
Fixpoint forEach_indexed {A St} (f : St -> A -> nat -> St) (l : list A) (i : nat)
    (s : St) : St :=
  match l with
  | [] => s
  | a :: r => forEach_indexed f r (S i) (f s a i)
  end.

Fixpoint flatten (obj : value) (prefix : string) (out : props) : props :=
  match obj with
  | VNull => out
  | VArr l =>
      forEach_indexed (fun out v i => flatten v (path prefix (nat_to_string i)) out) l 0%nat out
  | VObj o =>
      fold_left (fun out '(k, v) => flatten v (path prefix k) out) o out
  | _ => set_prop out prefix obj
  end.

(** The scalar leaves of a value, null included, each with the path the
    walk has accumulated for it, in the order of the walk: the leaves that
    the specification says are recorded. *)
Fixpoint scalar_leaves (v : value) (prefix : string) : props :=
  match v with
  | VArr l =>
      forEach_indexed
        (fun acc x i => acc ++ scalar_leaves x (path prefix (nat_to_string i))) l 0%nat []
  | VObj o =>
      fold_left (fun acc '(k, x) => acc ++ scalar_leaves x (path prefix k)) o []
  | _ => [(prefix, v)]
  end.

(** Writing a sequence of leaves into a flat mapping, first to last *)
Definition record_all (leaves : props) (out : props) : props :=
  fold_left (fun o '(p, x) => set_prop o p x) leaves out.

Definition non_null (leaves : props) : props :=
  List.filter (fun '(_, x) => negb (nullish (Some x))) leaves.

(** ** Field Resolver *)

Definition KEY_id : list string :=
  ["id"; "balloon_id"; "balloonId"; "name"; "serial"; "imei"; "device"; "callsign"].
Definition KEY_time : list string :=
  ["t"; "ts"; "timestamp"; "time"; "datetime"; "date"; "observed"; "recordedAt"].
Definition KEY_lat : list string :=
  ["lat"; "latitude"; "position.lat"; "pos.lat"; "coords.lat"; "location.lat"].
Definition KEY_lon : list string :=
  ["lon"; "lng"; "longitude"; "position.lon"; "pos.lon"; "coords.lon"; "location.lon"].
Definition KEY_alt : list string :=
  ["alt"; "altitude"; "elev"; "elevation"; "height"].

(** findByKeys; the result [VNull] is the [null] it returns *)
Fixpoint findByKeys (flat : props) (ks : list string) : value :=
  match ks with
  | [] => VNull
  | k :: rest =>
      if negb (nullish (get_prop flat k)) then default VNull (get_prop flat k)
      else
        match List.find (fun kk => String.eqb (toLowerCase kk) (toLowerCase k)) (keys flat) with
        | Some hit =>
            if negb (String.eqb hit EmptyString) && negb (nullish (get_prop flat hit))
            then default VNull (get_prop flat hit)
            else findByKeys flat rest
        | None => findByKeys flat rest
        end
  end.

(** The test of [/\b(time|timestamp|ts|datetime)\b/i]: one of the four words,
    in any letter case, with no word character right before or right after. *)
Definition is_word_char (c : ascii) : bool :=
  let n := code c in
  between 48 57 n || between 65 90 n || between 97 122 n || (n =? 95)%nat.

(** What follows [w] when [s] starts with [w], letter case ignored *)
Fixpoint after_prefix_ci (w s : string) : option string :=
  match w, s with
  | EmptyString, _ => Some s
  | String a w', String b s' =>
      if Ascii.eqb (lower_char a) (lower_char b) then after_prefix_ci w' s' else None
  | String _ _, EmptyString => None
  end.

Definition word_here (s w : string) : bool :=
  match after_prefix_ci w s with
  | Some EmptyString => true
  | Some (String c _) => negb (is_word_char c)
  | None => false
  end.

Definition TIME_WORDS : list string := ["time"; "timestamp"; "ts"; "datetime"].

Fixpoint time_word_from (prev_is_word : bool) (s : string) : bool :=
  (negb prev_is_word && existsb (word_here s) TIME_WORDS)
  || match s with
     | EmptyString => false
     | String c r => time_word_from (is_word_char c) r
     end.

Definition time_key_test (k : string) : bool := time_word_from false k.

(** ** Canonical points *)

Record Point : Type := {
  id : string;
  ts : number;
  iso : string;
  lat : number;
  lon : number;
  (** [None] is the [null] of an unknown altitude *)
  alt : option number;
  (** [None]: the property is absent; [Some VNull]: it is null *)
  wind : option value;
  air : option value;
}.

Section Normalizer.
Context {rt : Runtime}.

(** toMs.  The product [n * 1000] is exact here; in binary64 it is rounded
    when it is no integer below 2^53 in magnitude, and it is an infinity
    when [n] is beyond 1.8e305 in magnitude. *)
Definition toMs (tsLike : option value) : outcome number :=
  if nullish tsLike then Returned NaN
  else
    do n <- ToNumber tsLike;
    if isFinite n then
      Returned (if ltb n (of_Z 1000000000000) then mul n (of_Z 1000) else n)
    else
      do text <- ToString (default VNull tsLike);
      let d := Date_parse text in
      Returned (if isFinite d then d else NaN).

(** The test shared by both array branches of latLonFromGeo,
    [Array.isArray(v) && v.length >= 2 && Number.isFinite(+v[0]) &&
    Number.isFinite(+v[1])], with the two numbers when it holds; the second
    element is converted only when the first is a finite number. *)
Definition numeric_pair (v : option value) : outcome (option (number * number)) :=
  match v with
  | Some (VArr g) =>
      if (2 <=? length g)%nat then
        do a <- ToNumber (g !! 0%nat);
        if isFinite a then
          do b <- ToNumber (g !! 1%nat);
          Returned (if isFinite b then Some (a, b) else None)
        else Returned None
      else Returned None
  | _ => Returned None
  end.

Definition GEO_CANDS : list string :=
  ["coord"; "coords"; "coordinate"; "coordinates"; "position"; "pos"; "location"].

(** The loop of latLonFromGeo over the generic candidates; a pair is
    (lat, lon). *)
Fixpoint geo_scan (flat : props) (cands : list string)
  : outcome (option (number * number)) :=
  match cands with
  | [] => Returned None
  | c :: rest =>
      let v := get_prop flat c in
      let from_string :=
        match v with
        | Some (VStr s) =>
            if includes_char "," s then
              let nums := map (fun p => StringToNumber (trim p)) (split_char "," s) in
              let a := nth 0 nums NaN in
              let b := nth 1 nums NaN in
              if isFinite a && isFinite b then
                if leb (abs a) (of_Z 90) then Returned (Some (a, b))
                else Returned (Some (b, a))
              else geo_scan flat rest
            else geo_scan flat rest
        | _ => geo_scan flat rest
        end in
      do pair <- numeric_pair v;
      match pair with
      | Some (a, b) =>
          if leb (abs a) (of_Z 90) && leb (abs b) (of_Z 180) then Returned (Some (a, b))
          else if leb (abs b) (of_Z 90) && leb (abs a) (of_Z 180) then Returned (Some (b, a))
          else from_string
      | None => from_string
      end
  end.

Definition latLonFromGeo (flat : props) : outcome (option (number * number)) :=
  let g := coalesce (coalesce (get_prop flat "geometry.coordinates")
                              (get_prop flat "geom.coordinates"))
                    (get_prop flat "coordinates") in
  do pair <- numeric_pair g;
  match pair with
  | Some (x, y) => Returned (Some (y, x)) (* GeoJSON is [lon, lat] *)
  | None => geo_scan flat GEO_CANDS
  end.

(** Tuple form [lat, lon, maybeAlt]; [now] is what Date.now() returns.  The
    first two elements are converted before any test is made, the third
    once the tests have passed. *)
Definition normalizeTuple (now : number) (rec : value) (hour idx : nat)
  : outcome (option Point) :=
  match rec with
  | VArr r =>
      if (length r <? 2)%nat then Returned None
      else
        do lat <- ToNumber (r !! 0%nat);
        do lon <- ToNumber (r !! 1%nat);
        if negb (isFinite lat) || negb (isFinite lon) then Returned None
        else if gtb (abs lat) (of_Z 90) || gtb (abs lon) (of_Z 180) then Returned None
        else
          do third <- ToNumber (r !! 2%nat);
          let alt := if isFinite third then Some third else None in
          let ts := sub now (mul (mul (of_nat hour) (of_Z 3600)) (of_Z 1000)) in
          do iso <- toISOString ts;
          Returned (Some {| id := padStart0 2 (nat_to_string hour) +:+ "-" +:+ nat_to_string idx;
                            ts := ts; iso := iso; lat := lat; lon := lon; alt := alt;
                            wind := None; air := None |})
  | _ => Returned None
  end.

Definition normalizeObject (rec : value) : outcome (option Point) :=
  if negb (truthy rec) || negb (typeof_object rec) then Returned None
  else
    let flat := flatten rec EmptyString [] in
    let id := coalesce (Some (findByKeys flat KEY_id)) (get_prop flat "__key") in
    if nullish id then Returned None
    else
      let timeRaw := findByKeys flat KEY_time in
      do ts <- toMs (Some timeRaw);
      do ts <-
        (if negb (isFinite ts) then
           let guess := List.find time_key_test (keys flat) in
           toMs (get_prop flat (default "undefined" guess))
         else Returned ts);
      if negb (isFinite ts) then Returned None
      else
        do lat <- ToNumber (Some (findByKeys flat KEY_lat));
        do lon <- ToNumber (Some (findByKeys flat KEY_lon));
        do geo <-
          (if negb (isFinite lat) || negb (isFinite lon) then latLonFromGeo flat
           else Returned None);
        let lat := match geo with Some (glat, _) => glat | None => lat end in
        let lon := match geo with Some (_, glon) => glon | None => lon end in
        if negb (isFinite lat) || negb (isFinite lon) then Returned None
        else if gtb (abs lat) (of_Z 90) || gtb (abs lon) (of_Z 180) then Returned None
        else
          do alt <- ToNumber (Some (findByKeys flat KEY_alt));
          let alt := if negb (isFinite alt) then None else Some alt in
          do text <- ToString (default VNull id);
          do iso <- toISOString ts;
          Returned (Some {| id := text;
                            ts := ts; iso := iso; lat := lat; lon := lon; alt := alt;
                            wind := None; air := None |}).

End Normalizer.

(** ** Property access and method calls that can raise a TypeError *)

(** The index a key denotes, if it is the decimal text of a natural *)
Definition index_of_key (k : string) : option nat :=
  match NilEmpty.uint_of_string k with
  | Some d =>
      if String.eqb (nat_to_string (Nat.of_uint d)) k then Some (Nat.of_uint d) else None
  | None => None
  end.

(** [v[k]] for a key that is a name or an index (not [length], not a method):
    a TypeError on null *)
Definition member (v : value) (k : string) : outcome (option value) :=
  match v with
  | VNull => Thrown
  | VObj o => Returned (get_prop o k)
  | VArr l => Returned (i ← index_of_key k; l !! i)
  | VStr s =>
      Returned (i ← index_of_key k; c ← String.get i s; Some (VStr (String c EmptyString)))
  | VBool _ | VNum _ => Returned None
  end.

(** [v?.[k]] *)
Definition opt_member (v : option value) (k : string) : option value :=
  match v with
  | None | Some VNull => None
  | Some x => try_catch (member x k) None
  end.

(** The elements visited by [v.forEach(..)]: a TypeError unless [v] is an
    array *)
Definition forEach_elems (v : option value) : outcome (list value) :=
  match v with
  | Some (VArr l) => Returned l
  | _ => Thrown
  end.

Fixpoint indexed_from {A} (i : nat) (l : list A) : list (nat * A) :=
  match l with
  | [] => []
  | a :: r => (i, a) :: indexed_from (S i) r
  end.

(** The elements with their positions, as [forEach((x, idx) => ..)] sees them *)
Definition indexed {A} (l : list A) : list (nat * A) := indexed_from 0 l.

Definition chars (s : string) : list value :=
  map (fun c => VStr (String c EmptyString)) (list_ascii_of_string s).

(** The own enumerable properties that a spread copies and that
    Object.entries lists *)
Definition own_entries (v : value) : props :=
  match v with
  | VObj o => o
  | VArr l => map (fun '(i, x) => (nat_to_string i, x)) (indexed l)
  | VStr s => map (fun '(i, x) => (nat_to_string i, x)) (indexed (chars s))
  | _ => []
  end.

(** Object.entries(v): a TypeError on null *)
Definition Object_entries (v : value) : outcome props :=
  match v with
  | VNull => Thrown
  | _ => Returned (own_entries v)
  end.

(** [{ __key: k, ...v }] *)
Definition keyed_spread (k : string) (v : value) : value :=
  VObj (fold_left (fun o '(k', v') => define_prop o k' v') (own_entries v)
          [("__key", VStr k)]).

(** [body.split(/\r?\n/)]: a TypeError unless [body] is a string *)
Definition split_lines_of (body : value) : outcome (list string) :=
  match body with
  | VStr s => Returned (split_lines s)
  | _ => Thrown
  end.

(** ** Body Explode *)

Section Explode.
Context {rt : Runtime}.

(** [push] of explodeBodyToRecords, on the array it closes over *)
Definition push (out : list value) (r : value) : list value :=
  if nullish (Some r) then out else out ++ [r].

Definition WRAP_KEYS : list string := ["data"; "items"; "records"; "points"; "rows"].

(** [keys.find(k => Array.isArray(parsed[k]))] *)
Fixpoint find_array_key (parsed : value) (ks : list string) : outcome (option string) :=
  match ks with
  | [] => Returned None
  | k :: rest =>
      do v <- member parsed k;
      if isArray (default VNull v) then Returned (Some k) else find_array_key parsed rest
  end.

(** The lines of the newline-delimited branch: trimmed, blank ones dropped *)
Definition nonblank_lines (ls : list string) : list string :=
  List.filter (fun s => truthy (VStr s)) (map trim ls).

Definition explodeBodyToRecords (body : value) : outcome (list value) :=
  let parsed := or_else (safeJSON body) body in
  if isArray parsed then
    do elems <- forEach_elems (Some parsed);
    Returned (fold_left push elems [])
  else if truthy parsed && typeof_object parsed then
    do arrKey <- find_array_key parsed WRAP_KEYS;
    match arrKey with
    | Some k =>
        do v <- member parsed k;
        do elems <- forEach_elems v;
        Returned (fold_left push elems [])
    | None =>
        do entries <- Object_entries parsed;
        for_each
          (fun out '(k, v) =>
             if isArray v then
               do items <- forEach_elems (Some v);
               Returned
                 (fold_left
                    (fun out item =>
                       push out (keyed_spread k (or_else (safeJSON item) item)))
                    items out)
             else if truthy v && typeof_object v then Returned (push out (keyed_spread k v))
             else Returned out)
          entries []
    end
  else if typeof_string body then
    do ls <- split_lines_of body;
    let lines := nonblank_lines ls in
    if (1 <? length lines)%nat then
      Returned
        (fold_left
           (fun out line =>
              let p := safeJSON (VStr line) in
              if truthy p then push out p else out)
           lines [])
    else Returned []
  else Returned [].

End Explode.

(** ** Deduplicator/Sorter *)

(** Array.prototype.sort(comparefn), which ECMAScript 2019 makes stable: each
    element, from the last to the first, is put before the first element
    that it does not have to follow ([comparefn(x, y) > 0]).  Every stable
    sort returns this sequence when the comparator is consistent. *)
Fixpoint sort_insert {A} (comparefn : A -> A -> number) (x : A) (l : list A) : list A :=
  match l with
  | [] => [x]
  | y :: r =>
      if gtb (comparefn x y) (of_Z 0) then y :: sort_insert comparefn x r
      else x :: l
  end.

Fixpoint array_sort {A} (comparefn : A -> A -> number) (l : list A) : list A :=
  match l with
  | [] => []
  | x :: r => sort_insert comparefn x (array_sort comparefn r)
  end.

Section Dedup.
Context {rt : Runtime}.

(** The key [`${p.id}:${p.ts}`] *)
Definition dedup_key (p : Point) : string :=
  id p +:+ ":" +:+ NumberToString (ts p).

(** The loop of dedup over [points], with its set [seen] and its array [out] *)
Fixpoint dedup_loop (points : list Point) (seen : gset string) (out : list Point)
  : list Point :=
  match points with
  | [] => out
  | p :: rest =>
      let k := dedup_key p in
      if bool_decide (k ∈ seen) then dedup_loop rest seen out
      else dedup_loop rest ({[k]} ∪ seen) (out ++ [p])
  end.

Definition dedup (points : list Point) : list Point :=
  array_sort (fun a b => sub (ts a) (ts b)) (dedup_loop points ∅ []).

End Dedup.

(** ** Source Fetcher *)

(** The state of a settled promise *)
Inductive settled (A : Type) : Type :=
| fulfilled (v : A)
| rejected.
Arguments fulfilled {A} v.
Arguments rejected {A}.

Definition is_rejected {A} (r : settled A) : bool :=
  match r with rejected => true | fulfilled _ => false end.

(** What the server reads from outside.  Each Date.now() of a
    normalizeTuple call is named by the bucket and the position of the
    record it normalizes; each enrichment request by the position of the
    point in the array given to enrich and by its URL. *)
Record World : Type := {
  (** [axios.get(u, ..).then(r => r.data)], settled *)
  http_get : string -> settled value;
  (** Date.now() inside normalizeTuple *)
  clock : nat -> nat -> number;
  (** the data of the wind service's response *)
  wind_get : nat -> string -> settled value;
  (** the data of the air-quality service's response *)
  air_get : nat -> string -> settled value;
}.

Record DebugInfo : Type := {
  files_ok : nat;
  files_failed : nat;
  raw_records : nat;
  normalized : nat;
  unique_points : nat;
}.

(** The two shapes fetchWindborne24h returns *)
Inductive FetchResult : Type :=
| WithDebug (debug : DebugInfo) (points : list Point)
| PointsOnly (points : list Point).

(** The points of a result: [result.points] of the debug shape, the result
    itself otherwise *)
Definition result_points (r : FetchResult) : list Point :=
  match r with
  | WithDebug _ pts | PointsOnly pts => pts
  end.


(** The locals [raw], [ok], [bad] and [points] of fetchWindborne24h *)
Record FetchState : Type := {
  raw : nat;
  ok : nat;
  bad : nat;
  points : list Point;
}.

Definition bucket_url (h : nat) : string :=
  "https://a.windbornesystems.com/treasure/" +:+ padStart0 2 (nat_to_string h) +:+ ".json".

Section Fetcher.
Context {rt : Runtime}.
Variable w : World.

(** [if (p) points.push(p)] *)
Definition push_point (pts : list Point) (p : option Point) : list Point :=
  match p with
  | Some q => pts ++ [q]
  | None => pts
  end.

(** The body of the loop over [results], at index [i] *)
Definition fetch_step (st : FetchState) (ir : nat * settled value) : outcome FetchState :=
  let '(i, r) := ir in
  match r with
  | rejected =>
      Returned {| raw := raw st; ok := ok st; bad := S (bad st); points := points st |}
  | fulfilled body =>
      do items <- explodeBodyToRecords body;
      do pts <-
        (if match items with first :: _ => isArray first | [] => false end
         then for_each
                (fun pts '(idx, t) =>
                   do p <- normalizeTuple (clock w i idx) t i idx;
                   Returned (push_point pts p))
                (indexed items) (points st)
         else for_each
                (fun pts o => do p <- normalizeObject o; Returned (push_point pts p))
                items (points st));
      Returned {| raw := raw st + length items; ok := S (ok st); bad := bad st;
                  points := pts |}
  end.

Definition fetchWindborne24h (debug : bool) : outcome FetchResult :=
  let hours := seq 0 24 in
  let urls := map bucket_url hours in
  let results := map (http_get w) urls in
  do st <- for_each fetch_step (indexed results)
             {| raw := 0; ok := 0; bad := 0; points := [] |};
  let deduped := dedup (points st) in
  if debug then
    Returned (WithDebug {| files_ok := ok st; files_failed := bad st;
                           raw_records := raw st; normalized := length deduped;
                           unique_points := length deduped |} deduped)
  else Returned (PointsOnly deduped).

End Fetcher.

(** ** Enrichment Stage *)

(** [{ ...p, wind: v }] *)
Definition with_wind_field (p : Point) (v : value) : Point :=
  {| id := id p; ts := ts p; iso := iso p; lat := lat p; lon := lon p; alt := alt p;
     wind := Some v; air := air p |}.

(** [{ ...p, air: v }] *)
Definition with_air_field (p : Point) (v : value) : Point :=
  {| id := id p; ts := ts p; iso := iso p; lat := lat p; lon := lon p; alt := alt p;
     wind := wind p; air := Some v |}.

(** An object literal; a property whose value is undefined is left out, as
    it is when the point is serialized. *)
Definition object_literal (fields : list (string * option value)) : value :=
  VObj (omap (fun '(k, v) => x ← v; Some (k, x)) fields).

(** [l.find(x => x.parameter === 'pm25')]: a TypeError when it meets null *)
Fixpoint find_pm25 (l : list value) : outcome (option value) :=
  match l with
  | [] => Returned None
  | x :: r =>
      do param <- member x "parameter";
      match param with
      | Some (VStr s) => if String.eqb s "pm25" then Returned (Some x) else find_pm25 r
      | _ => find_pm25 r
      end
  end.

(** [v?.find(..)]: undefined on a nullish [v], a TypeError when [v] has no
    method [find] (it is not an array) *)
Definition opt_find_pm25 (v : option value) : outcome (option value) :=
  if nullish v then Returned None
  else match v with
       | Some (VArr l) => find_pm25 l
       | _ => Thrown
       end.

(** [request] is the settled promise of axios.get: awaiting a rejected one
    raises. *)
Definition await {A} (request : settled A) : outcome A :=
  match request with
  | fulfilled v => Returned v
  | rejected => Thrown
  end.

Definition BATCH : nat := 25.

(** [l.slice(i, j)] for [0 <= i <= j] *)
Definition slice {A} (i j : nat) (l : list A) : list A := take (j - i) (drop i l).

Section Enrich.
Context {rt : Runtime}.
Variable w : World.

Definition wind_url (p : Point) : string :=
  "https://api.open-meteo.com/v1/forecast?latitude=" +:+ NumberToString (lat p)
  +:+ "&longitude=" +:+ NumberToString (lon p)
  +:+ "&current=wind_speed_10m,wind_gusts_10m,wind_direction_10m".

Definition air_url (p : Point) : string :=
  "https://api.openaq.org/v2/latest?coordinates=" +:+ NumberToString (lat p)
  +:+ "," +:+ NumberToString (lon p) +:+ "&radius=20000&limit=1&parameter=pm25".

(** withWind for the point at position [i] *)
Definition withWind (i : nat) (p : Point) : Point :=
  try_catch
    (do data <- await (wind_get w i (wind_url p));
     Returned (with_wind_field p (or_else (default VNull (opt_member (Some data) "current")) VNull)))
    (with_wind_field p VNull).

(** withAir for the point at position [i] *)
Definition withAir (i : nat) (p : Point) : Point :=
  try_catch
    (do data <- await (air_get w i (air_url p));
     do m <- opt_find_pm25
               (opt_member (opt_member (opt_member (Some data) "results") "0") "measurements");
     match m with
     | Some x =>
         if truthy x then
           do value <- member x "value";
           do unit <- member x "unit";
           do lastUpdated <- member x "lastUpdated";
           Returned (with_air_field p
                       (object_literal [("pm25", value); ("unit", unit);
                                        ("lastUpdated", lastUpdated)]))
         else Returned (with_air_field p VNull)
     | None => Returned (with_air_field p VNull)
     end)
    (with_air_field p VNull).

(** The loop of enrich from index [i]; every turn adds BATCH to [i], so
    [fuel] turns reach the end of an array of at most [fuel] points. *)
Fixpoint enrich_from (fuel : nat) (points : list Point) (i : nat) (out : list Point)
  : list Point :=
  match fuel with
  | O => out
  | S fuel' =>
      if (i <? length points)%nat then
        let batch := slice i (i + BATCH) points in
        let enriched :=
          map (fun '(j, p) => withAir (i + j) (withWind (i + j) p)) (indexed batch) in
        enrich_from fuel' points (i + BATCH) (out ++ enriched)
      else out
  end.

Definition enrich (points : list Point) : list Point :=
  enrich_from (length points) points 0 [].

End Enrich.

(** ** Cache, query interface and warm cycle *)

Module Cache.
Record entry : Type := {
  time : number;
  (** [None] is the initial [null] *)
  points : option (list Point);
}.
End Cache.

(** [let cache = { time: 0, points: null }] *)
Definition initial_cache : Cache.entry :=
  {| Cache.time := of_Z 0; Cache.points := None |}.




Section Server.
Context {rt : Runtime}.
(** [process.env.ENRICH] *)
Variable ENRICH : option string.

Definition ENABLE_ENRICH : bool :=
  match ENRICH with
  | Some s => String.eqb s "1"
  | None => false
  end.



(** One warm cycle whose two steps are [fetch], the outcome of
    [fetchWindborne24h(false)], and [enrich_step], that of [enrich] on the
    fetched points; [now] is the cycle's Date.now().  The assignment to
    [cache] happens once both have returned; the empty catch leaves the
    variable as it is. *)
Definition warm_cycle (fetch : outcome FetchResult)
    (enrich_step : list Point -> outcome (list Point)) (now : number)
    (cache : Cache.entry) : Cache.entry :=
  try_catch
    (do result <- fetch;
     let basePoints := result_points result in
     if ENABLE_ENRICH then
       do enriched <- enrich_step basePoints;
       Returned {| Cache.time := now; Cache.points := Some enriched |}
     else Returned {| Cache.time := now; Cache.points := Some basePoints |})
    cache.

(** warm *)
Definition warm (w : World) (now : number) (cache : Cache.entry) : Cache.entry :=
  warm_cycle (fetchWindborne24h w false) (fun pts => Returned (enrich w pts)) now cache.

End Server.

(** ** Health report *)

Module Health.
(** The reply of GET /api/health *)
Record reply : Type := {
  ok : bool;
  enrich_enabled : bool;
  cached : bool;
  (** [None] is null *)
  cached_age_ms : option number;
}.
End Health.

(** The handler of GET /api/health: [now] is its Date.now(), [cache] the
    module's variable when the handler runs.  [cache.points] is null or an
    array, and every array is truthy. *)
Definition api_health (ENRICH : option string) (now : number) (cache : Cache.entry)
  : Health.reply :=
  {| Health.ok := true;
     Health.enrich_enabled := ENABLE_ENRICH ENRICH;
     Health.cached := match Cache.points cache with Some _ => true | None => false end;
     Health.cached_age_ms :=
       if truthy (VNum (Cache.time cache)) then Some (sub now (Cache.time cache))
       else None |}.

(** ** Map client (src/main.jsx) *)

(** Number.isFinite(v), which converts nothing: true of a finite number
    only *)
Definition Number_isFinite (v : option value) : bool :=
  match v with
  | Some (VNum n) => isFinite n
  | _ => false
  end.

(** The number that a value tested with Number.isFinite is *)
Definition as_number (v : option value) : number :=
  match v with
  | Some (VNum n) => n
  | _ => NaN
  end.

Module Client.

(** The locals [markers] and [shown] of draw; a marker is the pair
    [[p.lat, p.lon]] it is placed at *)
Record DrawState : Type := {
  markers : list (number * number);
  shown : nat;
}.

(** One turn of the loop of draw over [points].  The reads [p.lat], [p.lon]
    and [p.ts] stand behind the test [!p], so [p] is not null there and the
    reads cannot raise. *)
Definition draw_step (hours cutoff : number) (st : DrawState) (p : value) : DrawState :=
  let plat := opt_member (Some p) "lat" in
  let plon := opt_member (Some p) "lon" in
  let pts := opt_member (Some p) "ts" in
  if negb (truthy p) || negb (Number_isFinite plat) || negb (Number_isFinite plon) then st
  else if ltb hours (of_Z 24) && Number_isFinite pts && ltb (as_number pts) cutoff then st
  else {| markers := markers st ++ [(as_number plat, as_number plon)];
          shown := S (shown st) |}.

(** draw, once the cluster layer exists: [now] is its Date.now(), [hours]
    the value of [hours] that the call reads.  draw closes over the [hours]
    of the render that created it: this is the position of the slider when
    the load is the one that follows a change of the slider, and the initial
    6 when the load is the one that the interval timer keeps from the first
    render.  The result holds the markers draw adds and the count it
    displays. *)
Definition draw (now hours : number) (points : list value) : DrawState :=
  let cutoff := sub now (mul (mul hours (of_Z 3600)) (of_Z 1000)) in
  fold_left (draw_step hours cutoff) points {| markers := []; shown := 0 |}.

End Client.

(** ** Notions the properties are stated with *)

(** What identifies a point for deduplication: its id and its timestamp *)
Definition ident (p : Point) : string * number := (id p, ts p).

(** The comparator [(a, b) => t(a) - t(b)] *)
Definition by_difference {A} (t : A -> number) (a b : A) : number := sub (t a) (t b).

(** Non-decreasing order of [t] *)
Definition ascending {A} (t : A -> number) (a b : A) : Prop := leb (t a) (t b) = true.

(** Number::toString gives different numbers different texts, *)
Definition NumberToString_injective (rt : Runtime) : Prop :=
  forall a b : number, NumberToString a = NumberToString b -> a = b.

(** and no text of a number holds a colon. *)
Definition NumberToString_colon_free (rt : Runtime) : Prop :=
  forall a : number, includes_char ":" (NumberToString a) = false.

(** The first occurrences of a sequence of points: the points, in the
    order of the input, that share id and timestamp with no point before
    them in the input *)
Definition first_occurrences (points : list Point) : list Point :=
  mjoin (imap (fun i p => if bool_decide (ident p ∈ ident <$> take i points)
                          then [] else [p]) points).

(** A primitive value, or undefined: what unary plus and String convert
    without calling a method of the value *)
Definition primitive (v : option value) : bool :=
  match v with
  | Some (VArr _) | Some (VObj _) => false
  | _ => true
  end.


Definition is_mapping (v : value) : bool :=
  match v with VObj _ => true | _ => false end.

(** A string with more than one non-blank line *)
Definition multi_line (v : value) : bool :=
  match v with
  | VStr s => (1 <? length (nonblank_lines (split_lines s)))%nat
  | _ => false
  end.

(** What explodeBodyToRecords dispatches on: the decoded body, or the body
    itself when decoding fails or gives null *)
Definition decoded_form {rt : Runtime} (body : value) : value :=
  or_else (safeJSON body) body.

(** A JSON text that denotes neither an array nor an object is one token
    with white space around it, so it has one non-blank line. *)
Definition JSON_scalar_on_one_line (rt : Runtime) : Prop :=
  forall (s : string) (v : value),
    JSON_parse s = Some v -> isArray v = false -> is_mapping v = false ->
    (length (nonblank_lines (split_lines s)) <= 1)%nat.

(** The results of normalizing each element, in order, the rejected ones
    ([null]) left out; the first exception ends it. *)
Fixpoint collect {A} (f : A -> outcome (option Point)) (l : list A)
  : outcome (list Point) :=
  match l with
  | [] => Returned []
  | a :: r =>
      do p <- f a;
      do ps <- collect f r;
      Returned (match p with Some q => q :: ps | None => ps end)
  end.

(** The records Body Explode extracts from a body *)
Definition records_of {rt : Runtime} (body : value) : list value :=
  try_catch (explodeBodyToRecords body) [].

(** The normalized points that the body retrieved for bucket [i]
    contributes: every record by the tuple path when the first record is a
    sequence, every record by the object path otherwise. *)
Definition body_points {rt : Runtime} (w : World) (i : nat) (body : value)
  : outcome (list Point) :=
  match records_of body with
  | (first :: _) as items =>
      if isArray first
      then collect (fun it => normalizeTuple (clock w i (fst it)) (snd it) i (fst it))
             (indexed items)
      else collect normalizeObject items
  | [] => Returned []
  end.

(** The bodies of the fulfilled retrievals, each with the index of its
    bucket, counted from [i] *)
Fixpoint fulfilled_from {A} (i : nat) (results : list (settled A)) : list (nat * A) :=
  match results with
  | [] => []
  | fulfilled b :: r => (i, b) :: fulfilled_from (S i) r
  | rejected :: r => fulfilled_from (S i) r
  end.

(** The points of all the given bodies, in the order of the buckets *)
Fixpoint gather {rt : Runtime} (w : World) (bodies : list (nat * value))
  : outcome (list Point) :=
  match bodies with
  | [] => Returned []
  | (i, b) :: r =>
      do ps <- body_points w i b;
      do rest <- gather w r;
      Returned (ps ++ rest)
  end.

Definition count_rejected {A} (results : list (settled A)) : nat :=
  length (List.filter is_rejected results).

Definition raw_total {rt : Runtime} (bodies : list (nat * value)) : nat :=
  list_sum (map (fun b => length (records_of (snd b))) bodies).

(** The 24 settled retrievals of a fetch, bucket 0 first *)
Definition settled_buckets (w : World) : list (settled value) :=
  map (http_get w) (map bucket_url (seq 0 24)).

(** A body in the tuple form of the feed: its first record, if it has one,
    is a sequence *)
Definition tuple_form {rt : Runtime} (body : value) : bool :=
  match records_of body with
  | first :: _ => isArray first
  | [] => true
  end.


(** What the wind lookup yields for a point: the [current] object of the
    response, and null when there is none or the request failed *)
Definition wind_reading (response : settled value) : value :=
  match response with
  | fulfilled data => or_else (default VNull (opt_member (Some data) "current")) VNull
  | rejected => VNull
  end.

(** What the air-quality lookup yields for a point: the value, unit and
    time of the PM2.5 measurement of the first result, and null when the
    request failed, the response has no such measurement, or it is not of
    the expected shape *)
Definition air_reading (response : settled value) : value :=
  match response with
  | fulfilled data =>
      let ms := opt_member (opt_member (opt_member (Some data) "results") "0")
                  "measurements" in
      match opt_find_pm25 ms with
      | Returned (Some (VObj m)) =>
          object_literal [("pm25", get_prop m "value"); ("unit", get_prop m "unit");
                          ("lastUpdated", get_prop m "lastUpdated")]
      | _ => VNull
      end
  | rejected => VNull
  end.



(** A value that is neither null, nor an array, nor an object *)
Definition is_scalar (v : value) : bool :=
  match v with
  | VBool _ | VNum _ | VStr _ => true
  | VNull | VArr _ | VObj _ => false
  end.

(** A flat mapping as flatten builds it: no key twice, no key [__proto__],
    and under every key a scalar that is not null *)
Definition flat_mapping (flat : props) : Prop :=
  NoDup (keys flat)
  /\ ("__proto__" ∉ keys flat)
  /\ Forall (fun kv => is_scalar (snd kv) = true) flat.

(** A point as the two normalizers emit it: a timestamp a Date can hold,
    with its ISO text; a finite latitude in [-90, 90] and a finite longitude
    in [-180, 180]; a finite altitude or none; no wind and no air field. *)
Definition well_formed {rt : Runtime} (p : Point) : Prop :=
  time_value (ts p) = true
  /\ iso p = Date_toISOString (ts p)
  /\ isFinite (lat p) = true /\ leb (abs (lat p)) (of_Z 90) = true
  /\ isFinite (lon p) = true /\ leb (abs (lon p)) (of_Z 180) = true
  /\ (forall a, alt p = Some a -> isFinite a = true)
  /\ wind p = None /\ air p = None.

(** The coordinates that latLonFromGeo reads from the text [s] of a pair
    [a,b]: the numbers of the first two parts, latitude first when the
    first is at most 90 in magnitude and longitude first otherwise; nothing
    when there is no comma or a part is no finite number. *)
Definition pair_of_text {rt : Runtime} (s : string) : option (number * number) :=
  let nums := map (fun p => StringToNumber (trim p)) (split_char "," s) in
  let a := nth 0 nums NaN in
  let b := nth 1 nums NaN in
  if includes_char "," s && (isFinite a && isFinite b) then
    if leb (abs a) (of_Z 90) then Some (a, b) else Some (b, a)
  else None.

(** The elements of an array that are not null, in order *)
Definition not_null_elems (l : list value) : list value :=
  List.filter (fun r => negb (nullish (Some r))) l.

(** An object that has a property [__key] *)
Definition keyed (r : value) : Prop :=
  exists ps, r = VObj ps /\ is_Some (get_prop ps "__key").

(** Whether some key equals some candidate up to letter case *)
Definition some_key_matches (ks keys : list string) : bool :=
  existsb (fun k => existsb (fun key => String.eqb (toLowerCase key) (toLowerCase k)) keys) ks.
(** The id normalizeTuple gives the tuple at position [idx] of the body of
    bucket [hour] *)
Definition tuple_id (hour idx : nat) : string :=
  padStart0 2 (nat_to_string hour) +:+ "-" +:+ nat_to_string idx.
(** Where the client places a report, if it has finite coordinates *)
Definition located (p : value) : option (number * number) :=
  if truthy p && Number_isFinite (opt_member (Some p) "lat")
     && Number_isFinite (opt_member (Some p) "lon")
  then Some (as_number (opt_member (Some p) "lat"), as_number (opt_member (Some p) "lon"))
  else None.

(** A report with a finite timestamp before [cutoff] *)
Definition older_than (cutoff : number) (p : value) : bool :=
  Number_isFinite (opt_member (Some p) "ts")
  && ltb (as_number (opt_member (Some p) "ts")) cutoff.

(** The start of the window of [hours] hours that ends at [now] *)
Definition window_start (now hours : number) : number :=
  sub now (mul (mul hours (of_Z 3600)) (of_Z 1000)).

(** A number as JSON carries it: a number that is not finite becomes null *)
Definition json_number (n : number) : value :=
  if isFinite n then VNum n else VNull.

(** A point as the reply of /api/data carries it to the client *)
Definition point_json (p : Point) : value :=
  object_literal
    [("id", Some (VStr (id p))); ("ts", Some (json_number (ts p)));
     ("iso", Some (VStr (iso p))); ("lat", Some (json_number (lat p)));
     ("lon", Some (json_number (lon p)));
     ("alt", Some (match alt p with Some a => json_number a | None => VNull end));
     ("wind", wind p); ("air", air p)].

(** What the loop of draw does with a report: the place of its marker, or
    nothing when the report has no finite coordinates or, with [hours]
    below 24, is older than the window *)
Definition drawn (hours cutoff : number) (p : value) : option (number * number) :=
  match located p with
  | Some m => if ltb hours (of_Z 24) && older_than cutoff p then None else Some m
  | None => None
  end.

(** ** A runtime and a world for closed examples

    The theorems below hold for every [Runtime]; closed examples need one.
    This one converts what the examples use: decimal integers in both
    directions (other finite numbers are printed as a fraction, where the
    engine prints a decimal expansion), the three literal names of JSON, and
    the ISO text of a time value; it recognises no date text. *)

Definition Z_text (z : Z) : string := NilEmpty.string_of_int (Z.to_int z).

Definition sample_NumberToString (a : number) : string :=
  match a with
  | NaN => "NaN"
  | PosInf => "Infinity"
  | NegInf => "-Infinity"
  | Fin q =>
      if (Qden q =? 1)%positive then Z_text (Qnum q)
      else Z_text (Qnum q) +:+ "/" +:+ Z_text (Zpos (Qden q))
  end.

Definition sample_StringToNumber (s : string) : number :=
  match NilZero.int_of_string (trim s) with
  | Some d => of_Z (Z.of_int d)
  | None => if String.eqb (trim s) EmptyString then of_Z 0 else NaN
  end.

Definition sample_JSON_parse (s : string) : option value :=
  if String.eqb s "null" then Some VNull
  else if String.eqb s "true" then Some (VBool true)
  else if String.eqb s "false" then Some (VBool false)
  else None.

(** [z] in decimal, zero-padded to [n] digits *)
Definition digits (n : nat) (z : Z) : string :=
  padStart0 n (Z_text z).

(** The ISO 8601 text of a time value of [t] milliseconds, by the civil
    calendar from the day number. *)
Definition iso_text (t : Z) : string :=
  let day := (t / 86400000)%Z in
  let ms := (t mod 86400000)%Z in
  let z := (day + 719468)%Z in
  let era := (z / 146097)%Z in
  let doe := (z - era * 146097)%Z in
  let yoe := ((doe - doe / 1460 + doe / 36524 - doe / 146096) / 365)%Z in
  let doy := (doe - (365 * yoe + yoe / 4 - yoe / 100))%Z in
  let mp := ((5 * doy + 2) / 153)%Z in
  let d := (doy - (153 * mp + 2) / 5 + 1)%Z in
  let m := (if mp <? 10 then mp + 3 else mp - 9)%Z in
  let y := (yoe + era * 400 + (if m <=? 2 then 1 else 0))%Z in
  let year :=
    if ((0 <=? y) && (y <=? 9999))%Z then digits 4 y
    else if (y <? 0)%Z then "-" +:+ digits 6 (- y)
    else "+" +:+ digits 6 y in
  year +:+ "-" +:+ digits 2 m +:+ "-" +:+ digits 2 d
  +:+ "T" +:+ digits 2 (ms / 3600000) +:+ ":" +:+ digits 2 (ms / 60000 mod 60)
  +:+ ":" +:+ digits 2 (ms / 1000 mod 60) +:+ "." +:+ digits 3 (ms mod 1000) +:+ "Z".

(** The integral part of a finite number, towards zero *)
Definition truncate (q : Qc) : Z := Z.quot (Qnum q) (Zpos (Qden q)).

Definition sample_Date_toISOString (t : number) : string :=
  match t with
  | Fin q => iso_text (truncate q)
  | _ => EmptyString
  end.

Definition sample_runtime : Runtime := {|
  StringToNumber := sample_StringToNumber;
  NumberToString := sample_NumberToString;
  Date_parse := fun _ => NaN;
  Date_toISOString := sample_Date_toISOString;
  JSON_parse := sample_JSON_parse;
|}.

(** [s] consists of characters that satisfy [P] *)
Fixpoint all_chars (P : ascii -> bool) (s : string) : bool :=
  match s with
  | EmptyString => true
  | String c r => P c && all_chars P r
  end.

(** A digit, a minus sign or a slash: the characters of the text that the
    sample runtime prints for a finite number *)
Definition fraction_char (c : ascii) : bool :=
  between 48 57 (code c) || (code c =? 45)%nat || (code c =? 47)%nat.

(** A point for closed examples: id, timestamp (ms), latitude, longitude *)
Definition point_at (i : string) (t la lo : Z) : Point :=
  {| id := i; ts := of_Z t; iso := iso_text t; lat := of_Z la; lon := of_Z lo;
     alt := None; wind := None; air := None |}.

(** Four reports, the third repeating the id and timestamp of the first *)
Definition sample_points : list Point :=
  [point_at "a" 5000 10 20; point_at "b" 3000 11 21;
   point_at "a" 5000 12 22; point_at "c" 3000 13 23].

(** A report with an id and a time and no coordinates at all:
    [{id: "b1", ts: 1700000000}] *)
Definition report_without_coordinates : value :=
  VObj [("id", VStr "b1"); ("ts", VNum (of_Z 1700000000))].

(** A report whose only coordinates are a GeoJSON geometry:
    [{id: "b1", ts: 1700000000, geometry: {coordinates: [10, 50]}}] *)
Definition report_with_geometry : value :=
  VObj [("id", VStr "b1"); ("ts", VNum (of_Z 1700000000));
        ("geometry", VObj [("coordinates", VArr [VNum (of_Z 10); VNum (of_Z 50)])])].

(** A world for closed examples.  The retrievals of the buckets 0..4 fail;
    bucket [h >= 5] answers with the one tuple [[h, 2h]].  The clock stands
    at 2023-11-14T22:13:20Z.  The wind service fails for the point at
    position 1 and the air-quality service for the point at position 0;
    elsewhere they answer with one reading. *)
Definition sample_world : World := {|
  http_get := fun url =>
    match List.find (fun h => String.eqb url (bucket_url h)) (seq 0 24) with
    | Some h =>
        if (h <? 5)%nat then rejected
        else fulfilled (VArr [VArr [VNum (of_nat h); VNum (of_nat (2 * h))]])
    | None => rejected
    end;
  clock := fun _ _ => of_Z 1700000000000;
  wind_get := fun i _ =>
    if (i =? 1)%nat then rejected
    else fulfilled (VObj [("current", VObj [("wind_speed_10m", VNum (of_Z 12))])]);
  air_get := fun i _ =>
    if (i =? 0)%nat then rejected
    else fulfilled
           (VObj [("results",
                   VArr [VObj [("measurements",
                                VArr [VObj [("parameter", VStr "pm25");
                                            ("value", VNum (of_Z 7));
                                            ("unit", VStr "ug/m3")]])]])]);
|}.

(** A world in which bucket 0 answers with one report whose timestamp,
    1e16 ms, lies beyond the range of a Date, and every other retrieval
    fails *)
Definition world_with_distant_time : World := {|
  http_get := fun url =>
    if String.eqb url (bucket_url 0)
    then fulfilled (VArr [VObj [("id", VStr "b1"); ("ts", VNum (of_Z 10000000000000000));
                                ("lat", VNum (of_Z 1)); ("lon", VNum (of_Z 2))]])
    else rejected;
  clock := fun _ _ => of_Z 1700000000000;
  wind_get := fun _ _ => rejected;
  air_get := fun _ _ => rejected;
|}.

(** A cache entry written at 2023-11-14T22:13:20Z *)
Definition sample_entry : Cache.entry :=
  {| Cache.time := of_Z 1700000000000; Cache.points := Some sample_points |}.


(** ** Induction on values *)

Section ValueInduction.
Variable P : value -> Prop.
Hypothesis HNull : P VNull.
Hypothesis HBool : forall b, P (VBool b).
Hypothesis HNum : forall n, P (VNum n).
Hypothesis HStr : forall s, P (VStr s).
Hypothesis HArr : forall l, Forall P l -> P (VArr l).
Hypothesis HObj : forall o, Forall (fun kv => P (snd kv)) o -> P (VObj o).

Fixpoint value_nested_ind (v : value) : P v :=
  match v with
  | VNull => HNull
  | VBool b => HBool b
  | VNum n => HNum n
  | VStr s => HStr s
  | VArr l =>
      HArr l
        ((fix all (l : list value) : Forall P l :=
            match l with
            | [] => @List.Forall_nil _ P
            | x :: r => @List.Forall_cons _ P x r (value_nested_ind x) (all r)
            end) l)
  | VObj o =>
      HObj o
        ((fix all (o : props) : Forall (fun kv => P (snd kv)) o :=
            match o with
            | [] => @List.Forall_nil _ _
            | (k, x) :: r => @List.Forall_cons _ _ (k, x) r (value_nested_ind x) (all r)
            end) o)
  end.

End ValueInduction.

(** * Properties *)

(** ** Record Flattener *)

Lemma non_null_app (a b : props) : non_null (a ++ b) = non_null a ++ non_null b.
Proof. unfold non_null. apply List.filter_app. Qed.

Lemma record_all_app (a b out : props) :
  record_all (a ++ b) out = record_all b (record_all a out).
Proof. unfold record_all. apply fold_left_app. Qed.

(** flatten writes the non-null scalar leaves, in the order of the walk. *)
Lemma flatten_record_all (v : value) :
  forall prefix out,
    flatten v prefix out = record_all (non_null (scalar_leaves v prefix)) out.
Proof.
  induction v as [| b | n | s | l IH | o IH] using value_nested_ind;
    intros prefix out; try reflexivity.
  - (* arrays *)
    simpl.
    enough (G : forall i acc,
               forEach_indexed
                 (fun out v i => flatten v (path prefix (nat_to_string i)) out) l i
                 (record_all (non_null acc) out)
               = record_all
                   (non_null
                      (forEach_indexed
                         (fun acc x i => acc ++ scalar_leaves x (path prefix (nat_to_string i)))
                         l i acc)) out)
      by exact (G 0%nat []).
    induction IH as [|x r Hx _ IHr]; intros i acc; simpl; [done|].
    rewrite Hx, <- record_all_app, <- non_null_app. apply IHr.
  - (* objects *)
    simpl.
    enough (G : forall acc,
               fold_left (fun out '(k, v) => flatten v (path prefix k) out) o
                 (record_all (non_null acc) out)
               = record_all
                   (non_null
                      (fold_left (fun acc '(k, x) => acc ++ scalar_leaves x (path prefix k))
                         o acc)) out)
      by exact (G []).
    induction IH as [|[k x] r Hx _ IHr]; intros acc; simpl; [done|].
    simpl in Hx. rewrite Hx, <- record_all_app, <- non_null_app. apply IHr.
Qed.

Lemma get_define_prop_eq (o : props) (k : string) (v : value) :
  get_prop (define_prop o k v) k = Some v.
Proof.
  induction o as [|[k' v'] r IH]; simpl.
  - by rewrite String.eqb_refl.
  - destruct (String.eqb k' k) eqn:E; simpl; by rewrite E.
Qed.

Lemma get_define_prop_ne (o : props) (k k' : string) (v : value) :
  k <> k' -> get_prop (define_prop o k v) k' = get_prop o k'.
Proof.
  intros Hne. induction o as [|[k0 v0] r IH]; simpl.
  - destruct (String.eqb_spec k k'); [done|done].
  - destruct (String.eqb_spec k0 k) as [->|Hk]; simpl.
    + destruct (String.eqb_spec k k'); [done|done].
    + destruct (String.eqb_spec k0 k'); [done|apply IH].
Qed.

Lemma get_set_prop_eq (o : props) (k : string) (v : value) :
  k <> "__proto__" -> get_prop (set_prop o k v) k = Some v.
Proof.
  intros Hk. unfold set_prop.
  destruct (String.eqb_spec k "__proto__"); [done|apply get_define_prop_eq].
Qed.

Lemma get_set_prop_ne (o : props) (k k' : string) (v : value) :
  k <> k' -> get_prop (set_prop o k v) k' = get_prop o k'.
Proof.
  intros Hne. unfold set_prop.
  destruct (String.eqb k "__proto__"); [done|by apply get_define_prop_ne].
Qed.

Lemma get_record_all_other (ls out : props) (p : string) :
  p ∉ keys ls -> get_prop (record_all ls out) p = get_prop out p.
Proof.
  revert out. induction ls as [|[p' x] r IH]; intros out Hp; [done|].
  unfold keys in *. simpl in *. apply not_elem_of_cons in Hp as [Hne Hr].
  change (get_prop (record_all r (set_prop out p' x)) p = get_prop out p).
  rewrite IH by done. by apply get_set_prop_ne.
Qed.

(** The value kept at a path that some leaf was written to is the value of
    a leaf with that path. *)
Lemma get_record_all_some (ls out : props) (p : string) :
  p <> "__proto__" -> p ∈ keys ls ->
  exists y, get_prop (record_all ls out) p = Some y /\ (p, y) ∈ ls.
Proof.
  intros Hproto. revert out. induction ls as [|[p' x] r IH]; intros out Hp.
  - by apply elem_of_nil in Hp.
  - change (exists y, get_prop (record_all r (set_prop out p' x)) p = Some y
                      /\ (p, y) ∈ (p', x) :: r).
    destruct (decide (p ∈ keys r)) as [Hin|Hout].
    + destruct (IH (set_prop out p' x) Hin) as (y & Hy & Hel).
      exists y. split; [done|by apply elem_of_cons; right].
    + unfold keys in Hp. simpl in Hp. apply elem_of_cons in Hp as [->|Hp]; [|done].
      exists x. split; [|by apply elem_of_cons; left].
      rewrite get_record_all_other by done. by apply get_set_prop_eq.
Qed.

Lemma elem_of_non_null (ls : props) (p : string) (x : value) :
  (p, x) ∈ non_null ls <-> (p, x) ∈ ls /\ x <> VNull.
Proof.
  unfold non_null. rewrite !list_elem_of_In, List.filter_In.
  split; intros [H1 H2]; split; try done.
  - intros ->. done.
  - by destruct x.
Qed.

(** C3, where it fails: the walk returns at a null before it writes, so the
    null-valued field [a] of the record [{a: null}] is a scalar leaf with
    the path [a] and yet the flat mapping has no key [a]; a null root leaves
    the mapping empty. *)
Lemma flatten_skips_null_leaf :
  ("a", VNull) ∈ scalar_leaves (VObj [("a", VNull)]) EmptyString
  /\ get_prop (flatten (VObj [("a", VNull)]) EmptyString []) "a" = None
  /\ flatten VNull EmptyString [] = [].
Proof.
  split; [|split]; [|reflexivity|reflexivity].
  simpl. apply list_elem_of_here.
Qed.

(** C3, amended: for every input value, flatten writes exactly the non-null
    scalar leaves, in the order of the walk, each at its accumulated
    dotted/indexed path.  Hence every non-null scalar leaf whose path is not
    the reserved name [__proto__] has its path as a key of the output, and
    the value kept there is that of a non-null leaf with this path (the
    leaf itself when no other leaf shares its path); a non-null root scalar
    is recorded under the empty-prefix key; a null is skipped. *)
Theorem flatten_records_non_null_leaves (v : value) (prefix : string) (out : props) :
  flatten v prefix out = record_all (non_null (scalar_leaves v prefix)) out
  /\ (forall p x,
        (p, x) ∈ scalar_leaves v prefix -> x <> VNull -> p <> "__proto__" ->
        exists y,
          get_prop (flatten v prefix out) p = Some y
          /\ y <> VNull /\ (p, y) ∈ scalar_leaves v prefix
          /\ ((forall z, (p, z) ∈ scalar_leaves v prefix -> z = x) -> y = x))
  /\ (isArray v = false -> typeof_object v = false ->
      flatten v EmptyString [] = [(EmptyString, v)])
  /\ flatten VNull prefix out = out.
Proof.
  split; [apply flatten_record_all|split; [|split; [|reflexivity]]].
  - intros p x Hin Hx Hp. rewrite flatten_record_all.
    destruct (get_record_all_some (non_null (scalar_leaves v prefix)) out p Hp)
      as (y & Hy & Hel).
    + apply list_elem_of_fmap. exists (p, x). split; [done|].
      by apply elem_of_non_null.
    + apply elem_of_non_null in Hel as [Hel Hnn].
      exists y. repeat split; try done. intros Huniq. by apply Huniq.
  - by destruct v.
Qed.

(** A null-valued field and a scalar field side by side: only the scalar
    one is recorded, under its own path. *)
Lemma flatten_records_non_null_leaves_witness :
  get_prop
    (flatten (VObj [("a", VNull); ("b", VObj [("c", VStr "x")])]) EmptyString []) "b.c"
  = Some (VStr "x").
Proof.
  destruct (flatten_records_non_null_leaves
              (VObj [("a", VNull); ("b", VObj [("c", VStr "x")])]) EmptyString [])
    as (_ & H & _).
  destruct (H "b.c" (VStr "x")) as (y & Hy & _ & _ & Huniq).
  - simpl. apply list_elem_of_further, list_elem_of_here.
  - discriminate.
  - discriminate.
  - rewrite Hy. f_equal. apply Huniq. intros z Hz. simpl in Hz.
    apply elem_of_cons in Hz as [Hz|Hz]; [discriminate|].
    apply elem_of_cons in Hz as [Hz|Hz]; [by inversion Hz|].
    by apply elem_of_nil in Hz.
Defined.

(** ** Numbers *)

Lemma Qc_leb_le (a b : Qc) : Qc_leb a b = true <-> (a <= b)%Qc.
Proof. unfold Qc_leb, Qcle. apply Qle_bool_iff. Qed.

Lemma Qc_ltb_lt (a b : Qc) : Qc_ltb a b = true <-> (a < b)%Qc.
Proof.
  unfold Qc_ltb. rewrite negb_true_iff, <- not_true_iff_false, Qle_bool_iff.
  split; [apply Qnot_le_lt|apply Qlt_not_le].
Qed.

Lemma Qc_ltb_leb (a b : Qc) : Qc_ltb a b = negb (Qc_leb b a).
Proof. reflexivity. Qed.

(** On finite numbers [a > b] is the negation of [a <= b]. *)
Lemma gtb_not_leb (a b : number) :
  isFinite a = true -> isFinite b = true -> gtb a b = negb (leb a b).
Proof. by destruct a, b. Qed.

Lemma leb_trans (a b c : number) :
  leb a b = true -> leb b c = true -> leb a c = true.
Proof.
  destruct a as [| | |x], b as [| | |y], c as [| | |z]; try done.
  change (Qc_leb x y = true -> Qc_leb y z = true -> Qc_leb x z = true).
  rewrite !Qc_leb_le. apply Qcle_trans.
Qed.

(** The sign test of the comparator [a - b]: positive exactly when [b < a]. *)
Lemma sub_positive (x y : Qc) :
  gtb (sub (Fin x) (Fin y)) (of_Z 0) = Qc_ltb y x.
Proof.
  change (Qc_ltb (Q2Qc (inject_Z 0)) (x - y)%Qc = Qc_ltb y x).
  apply eq_true_iff_eq. rewrite !Qc_ltb_lt.
  rewrite (Qclt_minus_iff y x). unfold Qcminus.
  by replace (Q2Qc (inject_Z 0)) with 0%Qc by (by apply Qc_is_canon).
Qed.

(** A positive difference never comes from equal numbers. *)
Lemma sub_positive_ne (a b : number) :
  gtb (sub a b) (of_Z 0) = true -> a <> b.
Proof.
  intros H ->. destruct b as [| | |y]; [by vm_compute in H..|].
  rewrite sub_positive in H. apply Qc_ltb_lt in H.
  by apply Qclt_not_eq in H.
Qed.

(** ** Array.prototype.sort with a difference comparator *)

Section SortByNumber.
Context {A : Type}.
Variable t : A -> number.

Lemma ascending_trans : Transitive (ascending t).
Proof. intros a b c. apply leb_trans. Qed.

Lemma sort_insert_perm (cmp : A -> A -> number) (x : A) (l : list A) :
  sort_insert cmp x l ≡ₚ x :: l.
Proof.
  induction l as [|y r IH]; simpl; [reflexivity|].
  destruct (gtb (cmp x y) (of_Z 0)); [|reflexivity].
  rewrite IH. apply Permutation_swap.
Qed.

Lemma array_sort_perm (cmp : A -> A -> number) (l : list A) :
  array_sort cmp l ≡ₚ l.
Proof.
  induction l as [|x r IH]; simpl; [reflexivity|].
  by rewrite sort_insert_perm, IH.
Qed.

Lemma sort_insert_sorted (x : A) (l : list A) :
  isFinite (t x) = true -> Forall (fun y => isFinite (t y) = true) l ->
  Sorted (ascending t) l -> Sorted (ascending t) (sort_insert (by_difference t) x l).
Proof.
  intros Hx Hl Hs. induction l as [|y r IH]; simpl.
  - by repeat constructor.
  - apply Forall_cons in Hl as [Hy Hr]. apply Sorted_inv in Hs as [Hs Hhd].
    unfold by_difference at 1.
    destruct (t x) as [| | |qx] eqn:Ex, (t y) as [| | |qy] eqn:Ey; try done.
    rewrite sub_positive.
    destruct (Qc_ltb qy qx) eqn:Hlt.
    + constructor; [by apply IH|].
      destruct r as [|z r']; simpl.
      * constructor. unfold ascending. rewrite Ex, Ey. simpl.
        apply Qc_leb_le, Qclt_le_weak. by apply Qc_ltb_lt.
      * destruct (gtb (by_difference t x z) (of_Z 0)).
        -- constructor. by apply HdRel_inv in Hhd.
        -- constructor. unfold ascending. rewrite Ex, Ey. simpl.
           apply Qc_leb_le, Qclt_le_weak. by apply Qc_ltb_lt.
    + constructor; [by constructor|].
      constructor. unfold ascending. rewrite Ex, Ey. simpl.
      rewrite Qc_ltb_leb in Hlt. by apply negb_false_iff in Hlt.
Qed.

Lemma array_sort_sorted (l : list A) :
  Forall (fun y => isFinite (t y) = true) l ->
  StronglySorted (ascending t) (array_sort (by_difference t) l).
Proof.
  intros Hl. apply Sorted_StronglySorted; [apply ascending_trans|].
  induction l as [|x r IH]; simpl; [constructor|].
  apply Forall_cons in Hl as [Hx Hr].
  apply sort_insert_sorted; [done| |by apply IH].
  by rewrite array_sort_perm.
Qed.

(** Stability: the elements with one and the same key keep their order. *)
Lemma sort_insert_stable (x : A) (l : list A) (t0 : number) :
  filter (fun a => t a = t0) (sort_insert (by_difference t) x l)
  = filter (fun a => t a = t0) (x :: l).
Proof.
  induction l as [|y r IH]; simpl; [done|].
  destruct (gtb (by_difference t x y) (of_Z 0)) eqn:Hgt; [|done].
  apply sub_positive_ne in Hgt.
  rewrite (filter_cons _ y), IH, !filter_cons.
  destruct (decide (t x = t0)) as [<-|]; [|done].
  destruct (decide (t y = t x)) as [E|]; [by destruct Hgt|done].
Qed.

Lemma array_sort_stable (l : list A) (t0 : number) :
  filter (fun a => t a = t0) (array_sort (by_difference t) l)
  = filter (fun a => t a = t0) l.
Proof.
  induction l as [|x r IH]; simpl; [done|].
  by rewrite sort_insert_stable, !filter_cons, IH.
Qed.

End SortByNumber.

(** ** Deduplicator/Sorter *)

Lemma append_nil_l (s : string) : EmptyString +:+ s = s.
Proof. reflexivity. Qed.

Lemma append_cons_l (c : ascii) (s s' : string) :
  String c s +:+ s' = String c (s +:+ s').
Proof. reflexivity. Qed.

Lemma includes_char_append_r (c : ascii) (a b : string) :
  includes_char c (a +:+ String c b) = true.
Proof.
  induction a as [|e a IH];
    repeat (rewrite append_nil_l || rewrite append_cons_l); simpl.
  - by rewrite Ascii.eqb_refl.
  - rewrite IH. apply orb_true_r.
Qed.

(** Two texts [a c s] whose parts [s] after the separator [c] do not hold
    it are cut at the same place. *)
Lemma separator_inj (c : ascii) (i1 i2 s1 s2 : string) :
  includes_char c s1 = false -> includes_char c s2 = false ->
  i1 +:+ String c s1 = i2 +:+ String c s2 -> i1 = i2 /\ s1 = s2.
Proof.
  intros H1 H2. revert i2.
  induction i1 as [|e i1 IH]; intros [|d i2] E;
    repeat (rewrite append_nil_l in E || rewrite append_cons_l in E).
  - by injection E.
  - injection E as <- ->. by rewrite includes_char_append_r in H1.
  - injection E as -> <-. by rewrite includes_char_append_r in H2.
  - injection E as -> E. destruct (IH i2 E) as [-> ->]. done.
Qed.

Section DedupFacts.
Context {rt : Runtime}.
Hypothesis Hinj : NumberToString_injective rt.
Hypothesis Hcolon : NumberToString_colon_free rt.

(** The text key separates exactly the points that differ in id or in
    timestamp. *)
Lemma dedup_key_ident (p : Point) (i : string) (t : number) :
  dedup_key p = i +:+ ":" +:+ NumberToString t <-> ident p = (i, t).
Proof.
  unfold dedup_key, ident. split.
  - intros E. apply (separator_inj ":") in E as [-> E]; [|apply Hcolon..].
    by rewrite (Hinj _ _ E).
  - by intros [= -> ->].
Qed.

Lemma dedup_loop_out (points : list Point) (seen : gset string) (out : list Point) :
  dedup_loop points seen out = out ++ dedup_loop points seen [].
Proof.
  revert seen out. induction points as [|p rest IH]; intros seen out; simpl.
  - by rewrite app_nil_r.
  - case_bool_decide; [apply IH|].
    rewrite (IH _ (out ++ [p])), (IH _ [p]). by rewrite <- app_assoc.
Qed.

(** The loop keeps a subsequence of its input, *)
Lemma dedup_loop_sublist (points : list Point) (seen : gset string) :
  dedup_loop points seen [] `sublist_of` points.
Proof.
  revert seen. induction points as [|p rest IH]; intros seen; simpl; [done|].
  case_bool_decide.
  - by apply sublist_cons.
  - rewrite dedup_loop_out. simpl. by apply sublist_skip.
Qed.

(** and of the points with one key, the first, unless the key was seen. *)
Lemma dedup_loop_first (points : list Point) (seen : gset string) (k : string) :
  filter (fun p => dedup_key p = k) (dedup_loop points seen [])
  = if decide (k ∈ seen) then []
    else take 1 (filter (fun p => dedup_key p = k) points).
Proof.
  revert seen. induction points as [|p rest IH]; intros seen; simpl.
  - by destruct (decide (k ∈ seen)).
  - rewrite (filter_cons _ p). case_bool_decide as Hseen.
    + rewrite IH. destruct (decide (k ∈ seen)) as [|Hk]; [done|].
      rewrite decide_False; [done|]. intros E. by rewrite E in Hseen.
    + rewrite dedup_loop_out, filter_app, IH, filter_cons, filter_nil.
      destruct (decide (dedup_key p = k)) as [<-|Hne].
      * rewrite decide_True by set_solver. by rewrite decide_False by done.
      * simpl. destruct (decide (k ∈ seen)) as [Hk|Hk].
        -- by rewrite decide_True by set_solver.
        -- rewrite decide_False; [done|].
           rewrite elem_of_union, elem_of_singleton. by intros [->|].
Qed.

Lemma dedup_loop_first_ident (points : list Point) (k : string * number) :
  filter (fun p => ident p = k) (dedup_loop points ∅ [])
  = take 1 (filter (fun p => ident p = k) points).
Proof.
  destruct k as [i t].
  rewrite !(list_filter_iff (fun p => ident p = (i, t))
              (fun p => dedup_key p = i +:+ ":" +:+ NumberToString t))
    by (intros p; symmetry; apply dedup_key_ident).
  rewrite dedup_loop_first. by rewrite decide_False by set_solver.
Qed.

(** The points with which [later] goes on, after [earlier]: those that
    share id and timestamp with no point before them. *)
Lemma dedup_loop_from (earlier later : list Point) (seen : gset string) :
  (forall p, dedup_key p ∈ seen <-> ident p ∈ ident <$> earlier) ->
  dedup_loop later seen []
  = mjoin (imap (fun i p => if bool_decide (ident p ∈ ident <$> (earlier ++ take i later))
                            then [] else [p]) later).
Proof.
  revert earlier seen. induction later as [|p rest IH]; intros earlier seen Hseen; [done|].
  cbn [dedup_loop imap mjoin list_join]. rewrite take_0, app_nil_r.
  assert (Hrest : forall seen',
            (forall q, dedup_key q ∈ seen' <-> ident q ∈ ident <$> (earlier ++ [p])) ->
            dedup_loop rest seen' []
            = mjoin (imap ((fun i q => if bool_decide (ident q ∈ ident <$> (earlier ++ take i (p :: rest)))
                                       then [] else [q]) ∘ S) rest)).
  { intros seen' Hseen'. rewrite (IH (earlier ++ [p]) seen' Hseen').
    f_equal. apply imap_ext. intros i q _. cbn [compose take].
    by rewrite <- app_assoc. }
  case_bool_decide as Hin; case_bool_decide as Hin'.
  - apply Hrest. intros q. rewrite Hseen, fmap_app, elem_of_app.
    split; [by left|]. intros [Hq|Hq]; [done|].
    apply list_elem_of_singleton in Hq. by rewrite Hq.
  - by destruct Hin'; apply Hseen.
  - by destruct Hin; apply Hseen.
  - rewrite dedup_loop_out. f_equal. apply Hrest. intros q.
    rewrite elem_of_union, elem_of_singleton, Hseen, fmap_app, elem_of_app.
    cbn [fmap list_fmap]. rewrite list_elem_of_singleton.
    split; intros [Hq|Hq].
    + right. symmetry. destruct (ident q) as [i t] eqn:Eq. apply dedup_key_ident.
      rewrite <- Hq. unfold dedup_key. by injection Eq as -> ->.
    + by left.
    + by right.
    + left. unfold dedup_key. by injection Hq as -> ->.
Qed.

(** The loop of dedup keeps the first occurrences. *)
Lemma dedup_loop_first_occurrences (points : list Point) :
  dedup_loop points ∅ [] = first_occurrences points.
Proof.
  unfold first_occurrences. apply (dedup_loop_from []).
  intros p. rewrite elem_of_empty. cbn. by rewrite elem_of_nil.
Qed.

End DedupFacts.

(** A list that holds at most one element per key has no two elements
    with the same key. *)
Lemma NoDup_fmap_at_most_one {A K} `{EqDecision K} (f : A -> K) (l : list A) :
  (forall k, length (filter (fun a => f a = k) l) <= 1) -> NoDup (f <$> l).
Proof.
  induction l as [|x r IH]; intros H; [constructor|].
  rewrite fmap_cons. apply NoDup_cons. split.
  - intros Hin. apply list_elem_of_fmap in Hin as (y & Hy & Hel).
    specialize (H (f x)). rewrite filter_cons, decide_True in H by done.
    assert (y ∈ filter (fun a => f a = f x) r) as Hyin
      by (by apply list_elem_of_filter).
    destruct (filter (fun a => f a = f x) r); [by apply elem_of_nil in Hyin|].
    simpl in H. lia.
  - apply IH. intros k. specialize (H k). rewrite filter_cons in H.
    destruct (decide (f x = k)); simpl in H; lia.
Qed.

(** A permutation of at most one element is the same list. *)
Lemma Permutation_take_1 {A} (l k : list A) : l ≡ₚ take 1 k -> l = take 1 k.
Proof.
  destruct k as [|x k]; simpl.
  - apply Permutation_nil_r.
  - rewrite take_0. apply Permutation_singleton_r.
Qed.

Section DedupOccurrences.
Context {rt : Runtime}.
Hypothesis Hinj : NumberToString_injective rt.
Hypothesis Hcolon : NumberToString_colon_free rt.



End DedupOccurrences.

(** C4: for every sequence of points, dedup returns a sequence in which no
    two points share both id and timestamp; for each (id, timestamp) pair
    the output holds exactly the first point of the input with this pair;
    the output is a rearrangement of the first occurrences of the input
    (the points, at their positions, that no earlier point shares id and
    timestamp with), in which the points with one and the same timestamp
    stand in the order the first occurrences have in the input; and, the
    timestamps being finite as those of points are, the output is in
    non-decreasing order of timestamp.  The runtime's Number::toString is
    assumed to separate numbers and to print no colon, as it does. *)
Theorem dedup_first_occurrence_sorted {rt : Runtime} (points : list Point) :
  NumberToString_injective rt -> NumberToString_colon_free rt ->
  NoDup (ident <$> dedup points)
  /\ (forall k, filter (fun p => ident p = k) (dedup points)
                = take 1 (filter (fun p => ident p = k) points))
  /\ (Forall (fun p => isFinite (ts p) = true) points ->
      StronglySorted (ascending ts) (dedup points))
  /\ first_occurrences points `sublist_of` points
  /\ (forall k, filter (fun p => ident p = k) (first_occurrences points)
                = take 1 (filter (fun p => ident p = k) points))
  /\ dedup points ≡ₚ first_occurrences points
  /\ (forall t0, filter (fun p => ts p = t0) (dedup points)
                 = filter (fun p => ts p = t0) (first_occurrences points))
  /\ dedup points = array_sort (by_difference ts) (first_occurrences points).
Proof.
  intros Hinj Hcolon.
  rewrite <- (dedup_loop_first_occurrences Hinj Hcolon points).
  set (kept := dedup_loop points ∅ []).
  assert (Hsub : kept `sublist_of` points) by apply dedup_loop_sublist.
  assert (Hfirst : forall k, filter (fun p => ident p = k) kept
                             = take 1 (filter (fun p => ident p = k) points))
    by (intros k; by apply dedup_loop_first_ident).
  assert (Hperm : dedup points ≡ₚ kept) by apply array_sort_perm.
  assert (Hone : forall k, filter (fun p => ident p = k) (dedup points)
                           = take 1 (filter (fun p => ident p = k) points)).
  { intros k. apply Permutation_take_1. by rewrite Hperm, Hfirst. }
  split; [|split; [done|split]].
  - apply NoDup_fmap_at_most_one. intros k. rewrite Hone, length_take. lia.
  - intros Hfinite. apply (array_sort_sorted ts). rewrite Forall_forall in *.
    intros p Hp. apply Hfinite. by eapply elem_of_sublist.
  - repeat split; try done.
    intros t0. apply (array_sort_stable ts).
Qed.

(** ** The sample runtime prints numbers as the deduplication key needs *)

Lemma all_chars_append (P : ascii -> bool) (a b : string) :
  all_chars P (a +:+ b) = all_chars P a && all_chars P b.
Proof.
  induction a as [|c a IH];
    repeat (rewrite append_nil_l || rewrite append_cons_l); simpl; [done|].
  by rewrite IH, andb_assoc.
Qed.

Lemma all_chars_excludes (P : ascii -> bool) (c : ascii) (s : string) :
  all_chars P s = true -> P c = false -> includes_char c s = false.
Proof.
  intros Hs Hc. induction s as [|d s IH]; simpl in *; [done|].
  apply andb_true_iff in Hs as [Hd Hs]. rewrite (IH Hs), orb_false_r.
  destruct (Ascii.eqb_spec d c) as [->|]; [congruence|done].
Qed.

Lemma uint_text_chars (d : Decimal.uint) :
  all_chars fraction_char (NilEmpty.string_of_uint d) = true.
Proof. induction d; simpl; by rewrite ?IHd. Qed.

Lemma Z_text_chars (z : Z) : all_chars fraction_char (Z_text z) = true.
Proof.
  unfold Z_text. destruct (Z.to_int z); simpl; by rewrite uint_text_chars.
Qed.

Lemma Z_text_no_slash (z : Z) : includes_char "/" (Z_text z) = false.
Proof.
  unfold Z_text.
  assert (forall d, includes_char "/" (NilEmpty.string_of_uint d) = false) as Hd
    by (induction d; simpl; by rewrite ?IHd).
  destruct (Z.to_int z); simpl; by rewrite Hd.
Qed.

Lemma Z_text_inj (a b : Z) : Z_text a = Z_text b -> a = b.
Proof.
  unfold Z_text. intros E. apply DecimalZ.to_int_inj.
  apply (f_equal NilEmpty.int_of_string) in E.
  rewrite !NilEmpty.isi in E. by injection E.
Qed.

Lemma sample_text_chars (q : Qc) :
  all_chars fraction_char (sample_NumberToString (Fin q)) = true.
Proof.
  unfold sample_NumberToString. destruct (Qden q =? 1)%positive.
  - apply Z_text_chars.
  - by rewrite !all_chars_append, !Z_text_chars.
Qed.

Lemma Qc_num_den_inj (p q : Qc) : Qnum p = Qnum q -> Qden p = Qden q -> p = q.
Proof.
  intros Hn Hd. apply Qc_is_canon. unfold Qeq. by rewrite Hn, Hd.
Qed.

Lemma sample_text_finite (q : Qc) (s : string) :
  includes_char "N" s || includes_char "I" s = true ->
  sample_NumberToString (Fin q) <> s.
Proof.
  intros Hs <-.
  rewrite !(all_chars_excludes _ _ _ (sample_text_chars q)) in Hs; done.
Qed.

Lemma sample_NumberToString_inj : NumberToString_injective sample_runtime.
Proof.
  intros a b E. change (sample_NumberToString a = sample_NumberToString b) in E.
  destruct a as [| | |p], b as [| | |q]; try done;
    try (by apply sample_text_finite in E);
    try (symmetry in E; by apply sample_text_finite in E).
  f_equal. unfold sample_NumberToString in E.
  destruct (Pos.eqb_spec (Qden p) 1) as [Hp|Hp], (Pos.eqb_spec (Qden q) 1) as [Hq|Hq];
    repeat (rewrite append_cons_l in E || rewrite append_nil_l in E).
  - apply Qc_num_den_inj; [by apply Z_text_inj|congruence].
  - pose proof (Z_text_no_slash (Qnum p)) as H. rewrite E in H.
    by rewrite includes_char_append_r in H.
  - pose proof (Z_text_no_slash (Qnum q)) as H. rewrite <- E in H.
    by rewrite includes_char_append_r in H.
  - apply (separator_inj "/") in E as [En Ed]; [|apply Z_text_no_slash..].
    apply Qc_num_den_inj; [by apply Z_text_inj|].
    apply Z_text_inj in Ed. by injection Ed.
Qed.

Lemma sample_NumberToString_colon_free : NumberToString_colon_free sample_runtime.
Proof.
  intros [| | |q]; try done.
  by apply (all_chars_excludes _ _ _ (sample_text_chars q)).
Qed.

(** dedup on four reports: the repeated (a, 5000) is dropped in favour of
    its first occurrence, and the two reports of timestamp 3000 keep their
    order. *)
Example dedup_sample :
  dedup (rt := sample_runtime) sample_points
  = [point_at "b" 3000 11 21; point_at "c" 3000 13 23; point_at "a" 5000 10 20].
Proof. vm_compute. reflexivity. Qed.

(** Of the reports [a; b; a] that all carry one timestamp, the first [a]
    and [b] are the first occurrences, and dedup returns them in this
    order. *)
Lemma dedup_first_occurrence_sorted_witness :
  NoDup (ident <$> dedup (rt := sample_runtime) sample_points)
  /\ (forall k, filter (fun p => ident p = k) (dedup (rt := sample_runtime) sample_points)
                = take 1 (filter (fun p => ident p = k) sample_points))
  /\ StronglySorted (ascending ts) (dedup (rt := sample_runtime) sample_points)
  /\ filter (fun p => ts p = of_Z 3000) (dedup (rt := sample_runtime) sample_points)
     = [point_at "b" 3000 11 21; point_at "c" 3000 13 23]
  /\ filter (fun p => ts p = of_Z 7)
       (dedup (rt := sample_runtime)
          [point_at "a" 7 1 1; point_at "b" 7 2 2; point_at "a" 7 1 1])
     = [point_at "a" 7 1 1; point_at "b" 7 2 2].
Proof.
  destruct (dedup_first_occurrence_sorted (rt := sample_runtime) sample_points)
    as (H1 & H2 & H3 & _ & _ & _ & H7 & _).
  - apply sample_NumberToString_inj.
  - apply sample_NumberToString_colon_free.
  - split; [exact H1|]. split; [exact H2|]. split; [apply H3; repeat constructor|].
    split; [by rewrite H7|].
    destruct (dedup_first_occurrence_sorted (rt := sample_runtime)
                [point_at "a" 7 1 1; point_at "b" 7 2 2; point_at "a" 7 1 1])
      as (_ & _ & _ & _ & _ & _ & H7' & _).
    + apply sample_NumberToString_inj.
    + apply sample_NumberToString_colon_free.
    + by rewrite H7'.
Defined.

(** ** Conversions *)

(** A primitive value is converted without an exception. *)
Lemma ToNumber_primitive {rt : Runtime} (v : option value) :
  primitive v = true -> ToNumber v = Returned (number_of v).
Proof. by destruct v as [[| | | | |]|]. Qed.

Lemma ToString_primitive {rt : Runtime} (v : value) :
  primitive (Some v) = true -> ToString v = Returned (text_of v).
Proof. by destruct v. Qed.

(** ** Record Normalizer: tuples *)

Lemma abs_finite (a : number) : isFinite (abs a) = isFinite a.
Proof. by destruct a. Qed.

Lemma of_Z_mul (a b : Z) : mul (of_Z a) (of_Z b) = of_Z (a * b).
Proof.
  unfold mul, of_Z. f_equal. apply Qc_is_canon.
  unfold Qcmult, Q2Qc. simpl. rewrite !Qred_correct. by rewrite inject_Z_mult.
Qed.

(** [hour * 3600 * 1000] is [hour * 3600000]. *)
Lemma hour_ms (hour : nat) :
  mul (mul (of_nat hour) (of_Z 3600)) (of_Z 1000) = of_Z (Z.of_nat hour * 3600000).
Proof. unfold of_nat. rewrite !of_Z_mul. f_equal. lia. Qed.

Lemma padStart0_length (n : nat) (s : string) :
  String.length (padStart0 n s) = Nat.max n (String.length s).
Proof.
  unfold padStart0.
  assert (forall a b, String.length (a +:+ b) = (String.length a + String.length b)%nat) as Happ.
  { intros a b. induction a as [|c a IH];
      repeat (rewrite append_nil_l || rewrite append_cons_l); simpl; [done|by rewrite IH]. }
  assert (forall c k, String.length (repeat_char c k) = k) as Hrep
    by (intros c k; induction k; simpl; congruence).
  rewrite Happ, Hrep. lia.
Qed.

(** The hours below 100 print with at most two digits. *)
Lemma hour_text_length (hour : nat) :
  (hour < 100)%nat -> (String.length (nat_to_string hour) <= 2)%nat.
Proof.
  intros H.
  assert (Forall (fun h => String.length (nat_to_string h) <= 2)%nat (seq 0 100)) as Hall
    by (vm_compute; repeat constructor).
  rewrite Forall_forall in Hall. apply Hall, elem_of_seq. lia.
Qed.

(** What normalizeTuple emits: the elements of the tuple, as unary plus
    converts them, with the synthesized id and timestamp. *)
Lemma normalizeTuple_emits {rt : Runtime} (now : number) (rec : value) (hour idx : nat)
    (p : Point) :
  normalizeTuple now rec hour idx = Returned (Some p) ->
  exists r a b c,
    rec = VArr r /\ (2 <= length r)%nat
    /\ ToNumber (r !! 0%nat) = Returned a /\ ToNumber (r !! 1%nat) = Returned b
    /\ ToNumber (r !! 2%nat) = Returned c
    /\ isFinite a = true /\ leb (abs a) (of_Z 90) = true
    /\ isFinite b = true /\ leb (abs b) (of_Z 180) = true
    /\ time_value (sub now (of_Z (Z.of_nat hour * 3600000))) = true
    /\ p = {| id := padStart0 2 (nat_to_string hour) +:+ "-" +:+ nat_to_string idx;
              ts := sub now (of_Z (Z.of_nat hour * 3600000));
              iso := Date_toISOString (sub now (of_Z (Z.of_nat hour * 3600000)));
              lat := a; lon := b; alt := if isFinite c then Some c else None;
              wind := None; air := None |}.
Proof.
  unfold normalizeTuple. destruct rec as [| | | |r|]; try done.
  rewrite hour_ms.
  destruct (Nat.ltb_spec (length r) 2) as [Hlen|Hlen]; [done|].
  destruct (ToNumber (r !! 0%nat)) as [a|] eqn:Ea; [|done].
  destruct (ToNumber (r !! 1%nat)) as [b|] eqn:Eb; [|done]. cbn [bind].
  destruct (isFinite a) eqn:Ha; [|done]. destruct (isFinite b) eqn:Hb; [|done].
  cbn [negb orb]. rewrite !gtb_not_leb by (by rewrite ?abs_finite).
  destruct (leb (abs a) (of_Z 90)) eqn:Hla; [|done].
  destruct (leb (abs b) (of_Z 180)) eqn:Hlo; [|done]. cbn [negb orb].
  destruct (ToNumber (r !! 2%nat)) as [c|] eqn:Ec; [|done]. cbn [bind].
  unfold toISOString. destruct (time_value _) eqn:Ht; [|done]. cbn [bind].
  intros [= <-]. by exists r, a, b, c.
Qed.

(** C5, where the code departs from it.  The two tests of normalizeTuple
    on its first two elements, and the one that decides the altitude, are
    made on what unary plus converts the elements to, and unary plus turns
    null into 0: the tuple [[null, null]], whose elements are no numbers, is
    not rejected but emitted as a point at latitude 0, longitude 0, and the
    tuple [[10, 20, null]] is given the altitude 0 instead of none.  And the
    conversion itself can fail: on the tuple [[{"toString": 1}, 2]], whose
    first element is no number, normalizeTuple raises the TypeError of the
    conversion instead of returning null.  (Bucket 3, position 0, on
    2023-11-14T22:13:20Z.) *)
Theorem normalizeTuple_null_and_object_elements {rt : Runtime} :
  normalizeTuple (of_Z 1700000000000) (VArr [VNull; VNull]) 3 0
  = Returned
      (Some {| id := "03-0"; ts := of_Z 1699989200000;
               iso := Date_toISOString (of_Z 1699989200000);
               lat := of_Z 0; lon := of_Z 0; alt := None;
               wind := None; air := None |})
  /\ normalizeTuple (of_Z 1700000000000)
       (VArr [VNum (of_Z 10); VNum (of_Z 20); VNull]) 3 0
     = Returned
         (Some {| id := "03-0"; ts := of_Z 1699989200000;
                  iso := Date_toISOString (of_Z 1699989200000);
                  lat := of_Z 10; lon := of_Z 20; alt := Some (of_Z 0);
                  wind := None; air := None |})
  /\ normalizeTuple (of_Z 1700000000000)
       (VArr [VObj [("toString", VNum (of_Z 1))]; VNum (of_Z 2)]) 3 0
     = Thrown.
Proof. repeat split; vm_compute; reflexivity. Qed.

(** ** Record Normalizer: objects *)

(** The cases of a normalizer that emits a point: every conversion and
    every step before the point has returned, and no test has rejected the
    record. *)
Ltac emitted_cases :=
  repeat match goal with
         | |- bind ?m _ = Returned _ -> _ =>
             let x := fresh "x" in
             let E := fresh "E" in
             destruct m as [x|] eqn:E; [cbn [bind]|discriminate]
         | |- (if ?c then Returned None else _) = Returned (Some _) -> _ =>
             destruct c eqn:?; [discriminate|]
         end.

(** Every point normalizeObject emits has a finite timestamp, a finite
    latitude within [-90, 90] and a finite longitude within [-180, 180]. *)
Lemma normalizeObject_in_bounds {rt : Runtime} (rec : value) (p : Point) :
  normalizeObject rec = Returned (Some p) ->
  isFinite (ts p) = true
  /\ isFinite (lat p) = true /\ leb (abs (lat p)) (of_Z 90) = true
  /\ isFinite (lon p) = true /\ leb (abs (lon p)) (of_Z 180) = true.
Proof.
  unfold normalizeObject. cbv zeta. emitted_cases.
  intros [= <-]. cbn [ts lat lon].
  repeat match goal with
         | H : _ || _ = false |- _ => apply orb_false_iff in H as [? ?]
         | H : negb _ = false |- _ => apply negb_false_iff in H
         end.
  rewrite !gtb_not_leb in * by (by rewrite ?abs_finite).
  repeat match goal with
         | H : negb _ = false |- _ => apply negb_false_iff in H
         end.
  done.
Qed.

(** C1, where the code departs from it: in the report
    [{id: "b1", ts: 1700000000}] no latitude or longitude key resolves and
    the geometry resolver yields nothing, while id and timestamp resolve;
    findByKeys returns null for both coordinates, unary plus turns null into
    0, the test for a missing coordinate ([!Number.isFinite]) passes, and
    normalizeObject emits a point at latitude 0, longitude 0 (and altitude 0)
    instead of rejecting the record. *)
Theorem normalizeObject_without_coordinates {rt : Runtime} :
  findByKeys (flatten report_without_coordinates EmptyString []) KEY_lat = VNull
  /\ findByKeys (flatten report_without_coordinates EmptyString []) KEY_lon = VNull
  /\ latLonFromGeo (flatten report_without_coordinates EmptyString []) = Returned None
  /\ normalizeObject report_without_coordinates
     = Returned
         (Some {| id := "b1"; ts := of_Z 1700000000000;
                  iso := Date_toISOString (of_Z 1700000000000);
                  lat := of_Z 0; lon := of_Z 0; alt := Some (of_Z 0);
                  wind := None; air := None |}).
Proof. repeat split; vm_compute; reflexivity. Qed.

(** C2, where the code departs from it: flatten walks into arrays, so the
    report [{id: "b1", ts: 1700000000, geometry: {coordinates: [10, 50]}}]
    becomes a mapping with the keys [geometry.coordinates.0] and
    [geometry.coordinates.1] and without [geometry.coordinates]; the
    geometry resolver, which would read the pair as latitude 50, longitude
    10 from a mapping that held it under [geometry.coordinates], finds
    nothing in the flattened one; and it is not even asked, since the absent
    latitude and longitude have already become 0.  normalizeObject emits
    latitude 0, longitude 0. *)
Theorem normalizeObject_geometry_only {rt : Runtime} :
  flatten report_with_geometry EmptyString []
  = [("id", VStr "b1"); ("ts", VNum (of_Z 1700000000));
     ("geometry.coordinates.0", VNum (of_Z 10));
     ("geometry.coordinates.1", VNum (of_Z 50))]
  /\ latLonFromGeo (flatten report_with_geometry EmptyString []) = Returned None
  /\ latLonFromGeo [("geometry.coordinates", VArr [VNum (of_Z 10); VNum (of_Z 50)])]
     = Returned (Some (of_Z 50, of_Z 10))
  /\ normalizeObject report_with_geometry
     = Returned
         (Some {| id := "b1"; ts := of_Z 1700000000000;
                  iso := Date_toISOString (of_Z 1700000000000);
                  lat := of_Z 0; lon := of_Z 0; alt := Some (of_Z 0);
                  wind := None; air := None |}).
Proof. repeat split; vm_compute; reflexivity. Qed.

(** ** Body Explode *)

Lemma for_each_returns {A St} (body : St -> A -> outcome St) (l : list A) (s : St) :
  (forall s a, exists s', body s a = Returned s') ->
  exists s', for_each body l s = Returned s'.
Proof.
  intros Hbody. revert s. induction l as [|a r IH]; intros s; simpl; [by eexists|].
  destruct (Hbody s a) as [s' ->]. simpl. apply IH.
Qed.

(** The search for a wrapper key reads properties of an object, which
    cannot fail, and a key it finds holds an array. *)
Lemma find_array_key_object (o : props) (ks : list string) :
  exists found,
    find_array_key (VObj o) ks = Returned found
    /\ forall k, found = Some k -> exists l, get_prop o k = Some (VArr l).
Proof.
  induction ks as [|k rest (found & Hfound & Harr)]; simpl.
  - by exists None.
  - destruct (get_prop o k) as [[| | | |l|]|] eqn:Hk; simpl; eauto.
    exists (Some k). split; [done|]. intros k' [= <-]. eauto.
Qed.

Section ExplodeFacts.
Context {rt : Runtime}.

Lemma explode_entry_returns (out : list value) (kv : string * value) :
  exists out',
    (let '(k, v) := kv in
     if isArray v then
       do items <- forEach_elems (Some v);
       Returned
         (fold_left
            (fun out item => push out (keyed_spread k (or_else (safeJSON item) item)))
            items out)
     else if truthy v && typeof_object v then Returned (push out (keyed_spread k v))
     else Returned out) = Returned out'.
Proof.
  destruct kv as [k v]. destruct v; simpl; repeat case_match; by eexists.
Qed.

(** explodeBodyToRecords raises nothing: each call that would be a
    TypeError on a value of another shape stands behind the test for the
    shape it needs. *)
Lemma explode_returns (body : value) :
  exists records, explodeBodyToRecords body = Returned records.
Proof.
  unfold explodeBodyToRecords.
  destruct (or_else (safeJSON body) body) as [| b | n | s | l | o] eqn:Hparsed;
    cbn [isArray truthy typeof_object andb]; rewrite ?andb_false_r.
  1-4: destruct body; simpl; repeat case_match; by eexists.
  - by eexists.
  - destruct (find_array_key_object o WRAP_KEYS) as (found & -> & Harr). simpl.
    destruct found as [k|].
    + destruct (Harr k eq_refl) as [l ->]. simpl. by eexists.
    + apply for_each_returns. intros out kv. apply explode_entry_returns.
Qed.

(** C7: explodeBodyToRecords is total, it returns a sequence of records
    for every input and never raises; and an input whose decoded form is
    neither a sequence, nor a mapping, nor a string of several non-blank
    lines gives the empty sequence.  For the second part JSON.parse is
    assumed to accept a text as a scalar only when the text has a single
    non-blank line, as the JSON grammar has it. *)
Theorem explode_total (body : value) :
  (exists records, explodeBodyToRecords body = Returned records)
  /\ (JSON_scalar_on_one_line rt ->
      isArray (decoded_form body) = false ->
      is_mapping (decoded_form body) = false ->
      multi_line (decoded_form body) = false ->
      explodeBodyToRecords body = Returned []).
Proof.
  split; [apply explode_returns|].
  intros Hjson Harr Hmap Hlines. unfold decoded_form in *.
  unfold explodeBodyToRecords.
  assert (truthy (or_else (safeJSON body) body)
          && typeof_object (or_else (safeJSON body) body) = false) as ->
    by (destruct (or_else (safeJSON body) body); try done; apply andb_false_r).
  rewrite Harr.
  destruct body as [| b | n | s | l | o]; try done. simpl.
  assert (length (nonblank_lines (split_lines s)) <= 1)%nat as Hone.
  { simpl in Harr, Hmap, Hlines.
    destruct (JSON_parse s) as [v|] eqn:Hv.
    - destruct v as [| b | n | s' | l | o]; by apply (Hjson s _ Hv).
    - simpl in Hlines. by apply Nat.ltb_ge in Hlines. }
  by rewrite (proj2 (Nat.ltb_ge _ _) Hone).
Qed.

End ExplodeFacts.

Lemma sample_JSON_scalar_on_one_line : JSON_scalar_on_one_line sample_runtime.
Proof.
  intros s v Hv _ _. simpl in Hv. unfold sample_JSON_parse in Hv.
  destruct (String.eqb_spec s "null") as [->|_]; [vm_compute; lia|].
  destruct (String.eqb_spec s "true") as [->|_]; [vm_compute; lia|].
  destruct (String.eqb_spec s "false") as [->|_]; [vm_compute; lia|done].
Qed.

(** A body that is one line of text and no JSON gives no record. *)
Lemma explode_total_witness :
  explodeBodyToRecords (rt := sample_runtime) (VStr "503 Service Unavailable")
  = Returned [].
Proof.
  apply (explode_total (rt := sample_runtime) (VStr "503 Service Unavailable")).
  - apply sample_JSON_scalar_on_one_line.
  - reflexivity.
  - reflexivity.
  - vm_compute. reflexivity.
Defined.

(** ** Source Fetcher *)

Section FetcherFacts.
Context {rt : Runtime}.
Variable w : World.

(** Pushing the accepted results one by one onto the shared array adds the
    collected points to it. *)
Lemma for_each_collect {A} (f : A -> outcome (option Point))
    (body : list Point -> A -> outcome (list Point)) (l : list A) (acc : list Point) :
  (forall acc a, body acc a = do p <- f a; Returned (push_point acc p)) ->
  for_each body l acc = do ps <- collect f l; Returned (acc ++ ps).
Proof.
  intros Hbody. revert acc. induction l as [|a r IH]; intros acc; simpl.
  - by rewrite app_nil_r.
  - rewrite Hbody. destruct (f a) as [p|]; simpl; [|done].
    rewrite IH. destruct (collect f r) as [ps|]; simpl; [|done].
    destruct p as [q|]; simpl; [|done]. by rewrite <- app_assoc.
Qed.

Lemma fetch_step_fulfilled (st : FetchState) (i : nat) (body : value) :
  fetch_step w st (i, fulfilled body)
  = do ps <- body_points w i body;
    Returned {| raw := raw st + length (records_of body); ok := S (ok st);
                bad := bad st; points := points st ++ ps |}.
Proof.
  unfold fetch_step, body_points, records_of.
  destruct (explode_returns body) as [items ->].
  destruct items as [|first rest]; cbn [try_catch bind length].
  - cbn [for_each bind]. by rewrite app_nil_r.
  - destruct (isArray first).
    + rewrite (for_each_collect
                 (fun it => normalizeTuple (clock w i (fst it)) (snd it) i (fst it)))
        by (by intros acc [idx t]).
      by destruct (collect _ (indexed (first :: rest))).
    + rewrite (for_each_collect normalizeObject) by done.
      by destruct (collect normalizeObject (first :: rest)).
Qed.

(** The loop over the settled retrievals skips the rejected ones, counting
    them, and gathers the points of the fulfilled ones. *)
Lemma fetch_loop (results : list (settled value)) (i : nat) (st : FetchState) :
  for_each (fetch_step w) (indexed_from i results) st
  = do ps <- gather w (fulfilled_from i results);
    Returned {| raw := raw st + raw_total (fulfilled_from i results);
                ok := ok st + length (fulfilled_from i results);
                bad := bad st + count_rejected results;
                points := points st ++ ps |}.
Proof.
  revert i st. induction results as [|[body|] r IH]; intros i st.
  - destruct st. simpl. unfold raw_total, count_rejected. simpl.
    by rewrite !Nat.add_0_r, app_nil_r.
  - change (indexed_from i (fulfilled body :: r))
      with ((i, fulfilled body) :: indexed_from (S i) r).
    change (for_each (fetch_step w) ((i, fulfilled body) :: indexed_from (S i) r) st)
      with (do st' <- fetch_step w st (i, fulfilled body);
            for_each (fetch_step w) (indexed_from (S i) r) st').
    rewrite fetch_step_fulfilled. simpl.
    destruct (body_points w i body) as [ps|]; simpl; [|done].
    rewrite IH. simpl.
    destruct (gather w (fulfilled_from (S i) r)) as [rest|]; simpl; [|done].
    unfold raw_total, count_rejected. simpl.
    f_equal. f_equal; [lia|lia|by rewrite app_assoc].
  - simpl. rewrite IH. simpl.
    destruct (gather w (fulfilled_from (S i) r)) as [rest|]; simpl; [|done].
    unfold count_rejected. simpl. f_equal. f_equal. lia.
Qed.

Lemma fulfilled_or_rejected {A} (results : list (settled A)) (i : nat) :
  (length (fulfilled_from i results) + count_rejected results = length results)%nat.
Proof.
  revert i. induction results as [|[b|] r IH]; intros i; unfold count_rejected in *;
    simpl; [done|..]; specialize (IH (S i)); lia.
Qed.


(** The fetch as the gathering of the fulfilled bodies' points. *)
Lemma fetch_gather (debug : bool) :
  fetchWindborne24h w debug
  = (do pts <- gather w (fulfilled_from 0 (settled_buckets w));
     Returned
       (if debug then
          WithDebug
            {| files_ok := length (fulfilled_from 0 (settled_buckets w));
               files_failed := count_rejected (settled_buckets w);
               raw_records := raw_total (fulfilled_from 0 (settled_buckets w));
               normalized := length (dedup pts);
               unique_points := length (dedup pts) |}
            (dedup pts)
        else PointsOnly (dedup pts))).
Proof.
  unfold fetchWindborne24h, indexed.
  change (map (http_get w) (map bucket_url (seq 0 24))) with (settled_buckets w).
  rewrite fetch_loop.
  destruct (gather w (fulfilled_from 0 (settled_buckets w))) as [pts|]; [|done].
  cbn [bind raw ok bad points]. destruct debug; reflexivity.
Qed.

Lemma settled_buckets_length : length (settled_buckets w) = 24%nat.
Proof. unfold settled_buckets. rewrite !length_map. apply length_seq. Qed.

Lemma fulfilled_from_elem {A} (results : list (settled A)) (k i : nat) (b : A) :
  (i, b) ∈ fulfilled_from k results
  <-> exists j, results !! j = Some (fulfilled b) /\ i = (k + j)%nat.
Proof.
  revert k. induction results as [|[b0|] r IH]; intros k; simpl.
  - split; [by intros ?%elem_of_nil|]. by intros (j & ? & _).
  - rewrite elem_of_cons, IH. split.
    + intros [[= -> ->]|(j & Hj & ->)].
      * exists 0%nat. split; [done|lia].
      * exists (S j). split; [done|lia].
    + intros ([|j] & Hj & ->).
      * left. injection Hj as ->. f_equal. lia.
      * right. exists j. split; [done|lia].
  - rewrite IH. split.
    + intros (j & Hj & ->). exists (S j). split; [done|lia].
    + intros ([|j] & Hj & ->); [done|]. exists j. split; [done|lia].
Qed.

Lemma settled_buckets_lookup (j : nat) :
  settled_buckets w !! j
  = if (j <? 24)%nat then Some (http_get w (bucket_url j)) else None.
Proof.
  unfold settled_buckets.
  assert (Hmap : forall {X Y} (f : X -> Y) (l : list X) (n : nat),
             map f l !! n = f <$> (l !! n)).
  { intros X Y f l. induction l as [|a r IH]; intros [|n]; simpl; done. }
  rewrite !Hmap. destruct (Nat.ltb_spec j 24) as [Hlt|Hge].
  - by rewrite lookup_seq_lt.
  - by rewrite lookup_seq_ge.
Qed.

(** The fulfilled retrievals of a fetch, by bucket *)
Lemma fulfilled_bucket (i : nat) (b : value) :
  (i, b) ∈ fulfilled_from 0 (settled_buckets w)
  <-> (i < 24)%nat /\ http_get w (bucket_url i) = fulfilled b.
Proof.
  rewrite fulfilled_from_elem. split.
  - intros (j & Hj & ->). rewrite settled_buckets_lookup in Hj. simpl.
    destruct (Nat.ltb_spec j 24); [|done]. split; [done|congruence].
  - intros [Hi Hb]. exists i. split; [|done]. rewrite settled_buckets_lookup.
    rewrite (proj2 (Nat.ltb_lt i 24)) by done. by rewrite Hb.
Qed.



Lemma indexed_from_positions {A} (l : list A) (i : nat) :
  Forall (fun it => (i <= fst it)%nat) (indexed_from i l).
Proof.
  revert i. induction l as [|a r IH]; intros i; simpl; constructor; [done|].
  eapply Forall_impl; [apply (IH (S i))|]. intros it Hit. simpl in *. lia.
Qed.






End FetcherFacts.



(** ** Enrichment Stage *)

Lemma find_pm25_object (l : list value) (x : value) :
  find_pm25 l = Returned (Some x) -> exists m, x = VObj m.
Proof.
  induction l as [|y r IH]; simpl; [done|].
  destruct y as [| b | n | s | a | m]; simpl; try done; try apply IH.
  destruct (get_prop m "parameter") as [[| | |s| |]|]; try apply IH.
  destruct (String.eqb s "pm25"); [|apply IH]. intros [= <-]. eauto.
Qed.

Section EnrichFacts.
Context {rt : Runtime}.
Variable w : World.

Lemma withWind_spec (i : nat) (p : Point) :
  withWind w i p = with_wind_field p (wind_reading (wind_get w i (wind_url p))).
Proof. unfold withWind, wind_reading. by destruct (wind_get w i (wind_url p)). Qed.

Lemma withAir_spec (i : nat) (p : Point) :
  withAir w i p = with_air_field p (air_reading (air_get w i (air_url p))).
Proof.
  unfold withAir, air_reading. destruct (air_get w i (air_url p)) as [data|]; [|done].
  cbn [await bind].
  destruct (opt_find_pm25 _) as [[x|]|] eqn:Hfind; [|done..].
  assert (exists m, x = VObj m) as [m ->].
  { unfold opt_find_pm25 in Hfind.
    destruct (nullish _); [done|].
    destruct (opt_member _ "measurements") as [[| | | |l|]|]; try done.
    by apply find_pm25_object in Hfind. }
  done.
Qed.

(** The batches of enrich cover the array from [i] on, each point enriched
    under its own position. *)
Lemma enrich_from_spec (fuel : nat) (points : list Point) (i : nat) (out : list Point) :
  (length points - i <= fuel * BATCH)%nat ->
  enrich_from w fuel points i out
  = out ++ imap (fun j p => withAir w (i + j) (withWind w (i + j) p)) (drop i points).
Proof.
  revert i out. induction fuel as [|fuel IH]; intros i out Hfuel; simpl.
  - rewrite drop_ge by lia. by rewrite app_nil_r.
  - destruct (Nat.ltb_spec i (length points)) as [Hlt|Hge].
    + rewrite IH by (unfold BATCH in *; lia).
      rewrite <- app_assoc. f_equal.
      unfold slice. replace (i + BATCH - i)%nat with BATCH by lia.
      assert (forall (l : list Point) k,
                 map (fun '(j, p) => withAir w (i + j) (withWind w (i + j) p))
                   (indexed_from k l)
                 = imap (fun j p => withAir w (i + (k + j)) (withWind w (i + (k + j)) p)) l)
        as Himap.
      { induction l as [|p r IHr]; intros k; simpl; [done|].
        rewrite Nat.add_0_r. f_equal. rewrite IHr. apply imap_ext.
        intros j q _. unfold compose.
        by replace (S k + j)%nat with (k + S j)%nat by lia. }
      unfold indexed. rewrite Himap. symmetry.
      rewrite <- (take_drop BATCH (drop i points)) at 1.
      rewrite imap_app. f_equal.
      rewrite drop_drop. apply imap_ext. intros j q Hq. simpl.
      apply lookup_lt_Some in Hq. rewrite length_drop in Hq.
      rewrite length_take, length_drop.
      by replace (i + (BATCH `min` (length points - i) + j))%nat
        with (i + BATCH + j)%nat by (unfold BATCH in *; lia).
    + rewrite drop_ge by lia. by rewrite app_nil_r.
Qed.

Lemma enrich_imap (points : list Point) :
  enrich w points = imap (fun j p => withAir w j (withWind w j p)) points.
Proof.
  unfold enrich. rewrite enrich_from_spec by (unfold BATCH; lia).
  by rewrite drop_0.
Qed.

End EnrichFacts.

(** C8: for every sequence of points and every assignment of outcomes to
    the wind and air lookups of each point, enrich returns a sequence of the
    same length in the same order; the point at position [i] has the id,
    timestamp, ISO time, latitude, longitude and altitude of the input point
    at [i], its wind is the result of that point's wind lookup, null when
    the lookup failed, and its air likewise.  The output at a position
    depends on the lookups of that position only, so a failure for one point
    alters no other point.  Every output point is a record built anew
    ([{...p, wind}], [{...p, air}]); nothing is written to an input
    point. *)
Theorem enrich_pointwise {rt : Runtime} (w : World) (points : list Point) :
  length (enrich w points) = length points
  /\ (forall i p,
        points !! i = Some p ->
        enrich w points !! i
        = Some {| id := id p; ts := ts p; iso := iso p;
                  lat := lat p; lon := lon p; alt := alt p;
                  wind := Some (wind_reading (wind_get w i (wind_url p)));
                  air := Some (air_reading (air_get w i (air_url p))) |})
  /\ (forall i p,
        points !! i = Some p ->
        (wind_get w i (wind_url p) = rejected ->
         exists q, enrich w points !! i = Some q /\ wind q = Some VNull)
        /\ (air_get w i (air_url p) = rejected ->
            exists q, enrich w points !! i = Some q /\ air q = Some VNull))
  /\ (forall w' i,
        (forall url, wind_get w' i url = wind_get w i url) ->
        (forall url, air_get w' i url = air_get w i url) ->
        enrich w' points !! i = enrich w points !! i).
Proof.
  assert (Hat : forall w0 i p,
             points !! i = Some p ->
             enrich w0 points !! i
             = Some {| id := id p; ts := ts p; iso := iso p;
                       lat := lat p; lon := lon p; alt := alt p;
                       wind := Some (wind_reading (wind_get w0 i (wind_url p)));
                       air := Some (air_reading (air_get w0 i (air_url p))) |}).
  { intros w0 i p Hp. rewrite enrich_imap, list_lookup_imap, Hp. simpl.
    by rewrite withAir_spec, withWind_spec. }
  split; [|split; [|split]].
  - rewrite enrich_imap. apply length_imap.
  - apply Hat.
  - intros i p Hp. split; intros Hfail; eexists; (split; [by apply Hat|]);
      simpl; by rewrite Hfail.
  - intros w' i Hwind Hair. destruct (points !! i) as [p|] eqn:Hp.
    + by rewrite !(Hat _ i p Hp), Hwind, Hair.
    + rewrite !enrich_imap, !list_lookup_imap, Hp. done.
Qed.

(** Three points in the sample world: the wind lookup fails for the second
    one only, which keeps its fields, gets a null wind and the air reading. *)
Lemma enrich_pointwise_witness :
  enrich (rt := sample_runtime) sample_world (take 3 sample_points) !! 1%nat
  = Some {| id := "b"; ts := of_Z 3000; iso := "1970-01-01T00:00:03.000Z";
            lat := of_Z 11; lon := of_Z 21; alt := None;
            wind := Some VNull;
            air := Some (VObj [("pm25", VNum (of_Z 7)); ("unit", VStr "ug/m3")]) |}.
Proof.
  destruct (enrich_pointwise (rt := sample_runtime) sample_world (take 3 sample_points))
    as (_ & H & _).
  rewrite (H 1%nat (point_at "b" 3000 11 21) eq_refl).
  vm_compute. reflexivity.
Defined.

(** ** Cache *)

(** C9: a warm cycle is atomic with respect to the cache.  If the fetch
    raises, or the enrichment raises, the cycle leaves the stored entry as
    it was, time and points; if both return, the entry is replaced as a
    whole by the cycle's time and points.  So the entry after a cycle is
    either the old one or one that owes nothing to the old one: never a
    mixture.  [warm] is the cycle of fetchWindborne24h and enrich. *)
Theorem warm_cycle_atomic {rt : Runtime} (ENRICH : option string)
    (fetch : outcome FetchResult) (enrich_step : list Point -> outcome (list Point))
    (now : number) (cache : Cache.entry) :
  (fetch = Thrown -> warm_cycle ENRICH fetch enrich_step now cache = cache)
  /\ (forall r,
        fetch = Returned r -> ENABLE_ENRICH ENRICH = true ->
        enrich_step (result_points r) = Thrown ->
        warm_cycle ENRICH fetch enrich_step now cache = cache)
  /\ (forall r pts,
        fetch = Returned r -> ENABLE_ENRICH ENRICH = true ->
        enrich_step (result_points r) = Returned pts ->
        warm_cycle ENRICH fetch enrich_step now cache
        = {| Cache.time := now; Cache.points := Some pts |})
  /\ (forall r,
        fetch = Returned r -> ENABLE_ENRICH ENRICH = false ->
        warm_cycle ENRICH fetch enrich_step now cache
        = {| Cache.time := now; Cache.points := Some (result_points r) |})
  /\ (warm_cycle ENRICH fetch enrich_step now cache = cache
      \/ forall cache',
           warm_cycle ENRICH fetch enrich_step now cache'
           = warm_cycle ENRICH fetch enrich_step now cache)
  /\ (forall w,
        warm ENRICH w now cache
        = warm_cycle ENRICH (fetchWindborne24h w false)
            (fun pts => Returned (enrich w pts)) now cache).
Proof.
  unfold warm_cycle. repeat split.
  - by intros ->.
  - intros r -> -> Henrich. simpl. by rewrite Henrich.
  - intros r pts -> -> Henrich. simpl. by rewrite Henrich.
  - by intros r -> ->.
  - destruct fetch as [r|]; simpl; [|by left].
    destruct (ENABLE_ENRICH ENRICH); [|by right].
    destruct (enrich_step (result_points r)); simpl; [by right|by left].
Qed.

(** A cycle whose fetch raises (toISOString refuses the timestamp of a
    report) leaves the entry of five minutes before as it is. *)
Lemma warm_cycle_atomic_witness :
  warm (rt := sample_runtime) (Some "1") world_with_distant_time (of_Z 1700000300000)
    sample_entry
  = sample_entry.
Proof.
  destruct (warm_cycle_atomic (rt := sample_runtime) (Some "1")
              (fetchWindborne24h (rt := sample_runtime) world_with_distant_time false)
              (fun pts => Returned (enrich (rt := sample_runtime) world_with_distant_time pts))
              (of_Z 1700000300000) sample_entry) as (H & _ & _ & _ & _ & Hwarm).
  rewrite Hwarm. apply H. vm_compute. reflexivity.
Defined.

(** ** Query interface *)



(** ** Worked examples *)

(** Aliases in any letter case resolve: [{ID, Time, Latitude, LNG,
    Elevation}]. *)
Example normalizeObject_aliases :
  normalizeObject (rt := sample_runtime)
    (VObj [("ID", VStr "b7"); ("Time", VNum (of_Z 1700000000));
           ("Latitude", VNum (of_Z 10)); ("LNG", VNum (of_Z 20));
           ("Elevation", VNum (of_Z 1500))])
  = Returned
      (Some {| id := "b7"; ts := of_Z 1700000000000; iso := "2023-11-14T22:13:20.000Z";
               lat := of_Z 10; lon := of_Z 20; alt := Some (of_Z 1500);
               wind := None; air := None |}).
Proof. vm_compute. reflexivity. Qed.

(** A record of a map-of-arrays body takes the key as its id, and a
    latitude that is no number sends the resolver to the pair string. *)
Example normalizeObject_pair_string :
  normalizeObject (rt := sample_runtime)
    (VObj [("__key", VStr "fleetA"); ("position", VStr "10, 20");
           ("lat", VStr "n/a"); ("t", VNum (of_Z 1700000000))])
  = Returned
      (Some {| id := "fleetA"; ts := of_Z 1700000000000;
               iso := "2023-11-14T22:13:20.000Z";
               lat := of_Z 10; lon := of_Z 20; alt := Some (of_Z 0);
               wind := None; air := None |}).
Proof. vm_compute. reflexivity. Qed.

(** The body [[[10.5, -20.3, 1500], [200, 0]]] of bucket 3: the second
    tuple is dropped. *)
Example body_points_tuples :
  id <$> try_catch
           (body_points (rt := sample_runtime) sample_world 3
              (VArr [VArr [VNum (Fin (Q2Qc (105 # 10))); VNum (Fin (Q2Qc (-203 # 10)));
                           VNum (of_Z 1500)];
                     VArr [VNum (of_Z 200); VNum (of_Z 0)]])) []
  = ["03-0"].
Proof. vm_compute. reflexivity. Qed.

(** A wrapped array, and a map of arrays whose records get their key. *)
Example explode_shapes :
  explodeBodyToRecords (rt := sample_runtime)
    (VObj [("data", VArr [VObj [("id", VStr "x")]; VNull])])
  = Returned [VObj [("id", VStr "x")]]
  /\ explodeBodyToRecords (rt := sample_runtime)
       (VObj [("fleetA", VArr [VObj [("lat", VNum (of_Z 1))]]); ("meta", VNum (of_Z 3))])
     = Returned [VObj [("__key", VStr "fleetA"); ("lat", VNum (of_Z 1))]].
Proof. split; vm_compute; reflexivity. Qed.

(** The keys the time pattern accepts and refuses. *)
Example time_key_test_cases :
  map time_key_test
    ["meta.time"; "a.TS.b"; "date-time"; "timestamp"; "mytime"; "timestamps"; "x_timestamp"]
  = [true; true; true; true; false; false; false].
Proof. reflexivity. Qed.

(** Lines end at a line feed with or without a carriage return before it. *)
Example split_lines_cases :
  split_lines ("a" +:+ String CR (String LF "b") +:+ String LF "c") = ["a"; "b"; "c"]
  /\ trim (String (ascii_of_nat 9) " a b  ") = "a b".
Proof. split; reflexivity. Qed.

(** * Further properties *)

(** ** Flattened records and the field resolver *)

Lemma define_prop_keys (o : props) (k : string) (v : value) :
  keys (define_prop o k v) = if bool_decide (k ∈ keys o) then keys o else keys o ++ [k].
Proof.
  unfold keys. induction o as [|[k' v'] r IH]; simpl; [done|].
  destruct (String.eqb_spec k' k) as [->|Hne]; simpl.
  - by rewrite bool_decide_eq_true_2 by apply list_elem_of_here.
  - rewrite IH. case_bool_decide as Hin.
    + by rewrite bool_decide_eq_true_2 by (by apply list_elem_of_further).
    + rewrite bool_decide_eq_false_2; [done|].
      intros [E|?]%elem_of_cons; [by destruct Hne|done].
Qed.

Lemma define_prop_Forall (P : string * value -> Prop) (o : props) (k : string) (v : value) :
  (forall k', P (k', v)) -> Forall P o -> Forall P (define_prop o k v).
Proof.
  intros Hv. induction 1 as [|[k' v'] r Hx Hr IH]; simpl.
  - by repeat constructor.
  - destruct (String.eqb k' k); constructor; done.
Qed.

Lemma set_prop_flat_mapping (o : props) (k : string) (v : value) :
  is_scalar v = true -> flat_mapping o -> flat_mapping (set_prop o k v).
Proof.
  intros Hv (Hnd & Hproto & Hall). unfold set_prop.
  destruct (String.eqb_spec k "__proto__") as [->|Hk]; [done|].
  split; [|split].
  - rewrite define_prop_keys. case_bool_decide as Hin; [done|].
    apply NoDup_app. split; [done|]. split; [|apply NoDup_singleton].
    intros x Hx ->%list_elem_of_singleton. done.
  - rewrite define_prop_keys. case_bool_decide; [done|].
    rewrite elem_of_app, list_elem_of_singleton. intros [?|?]; [done|by destruct Hk].
  - by apply define_prop_Forall.
Qed.

Lemma record_all_flat_mapping (ls out : props) :
  Forall (fun kv => is_scalar (snd kv) = true) ls ->
  flat_mapping out -> flat_mapping (record_all ls out).
Proof.
  intros Hls. revert out. induction Hls as [|[p x] r Hx _ IH]; intros out Hout; [done|].
  apply IH. by apply set_prop_flat_mapping.
Qed.

(** A leaf is a scalar or null. *)
Lemma scalar_leaves_leaf (v : value) :
  forall prefix,
    Forall (fun kv => is_scalar (snd kv) = true \/ snd kv = VNull) (scalar_leaves v prefix).
Proof.
  induction v as [| b | n | s | l IH | o IH] using value_nested_ind; intros prefix;
    try (repeat constructor; simpl; by auto).
  - simpl.
    enough (G : forall i acc,
               Forall (fun kv => is_scalar (snd kv) = true \/ snd kv = VNull) acc ->
               Forall (fun kv => is_scalar (snd kv) = true \/ snd kv = VNull)
                 (forEach_indexed
                    (fun acc x i => acc ++ scalar_leaves x (path prefix (nat_to_string i)))
                    l i acc))
      by (apply G; constructor).
    induction IH as [|x r Hx _ IHr]; intros i acc Hacc; simpl; [done|].
    apply IHr, Forall_app. split; [done|apply Hx].
  - simpl.
    enough (G : forall acc,
               Forall (fun kv => is_scalar (snd kv) = true \/ snd kv = VNull) acc ->
               Forall (fun kv => is_scalar (snd kv) = true \/ snd kv = VNull)
                 (fold_left (fun acc '(k, x) => acc ++ scalar_leaves x (path prefix k)) o acc))
      by (apply G; constructor).
    induction IH as [|[k x] r Hx _ IHr]; intros acc Hacc; simpl; [done|].
    apply IHr, Forall_app. split; [done|apply Hx].
Qed.

Lemma non_null_scalar (ls : props) :
  Forall (fun kv => is_scalar (snd kv) = true \/ snd kv = VNull) ls ->
  Forall (fun kv => is_scalar (snd kv) = true) (non_null ls).
Proof.
  intros H. apply Forall_forall. intros [p x] Hin.
  apply elem_of_non_null in Hin as [Hin Hx].
  rewrite Forall_forall in H. destruct (H _ Hin) as [?|?]; done.
Qed.

Lemma flatten_flat_mapping (v : value) (prefix : string) (out : props) :
  flat_mapping out -> flat_mapping (flatten v prefix out).
Proof.
  intros Hout. rewrite flatten_record_all.
  apply record_all_flat_mapping; [|done].
  apply non_null_scalar, scalar_leaves_leaf.
Qed.

Lemma flat_mapping_nil : flat_mapping [].
Proof. split; [constructor|split; [apply not_elem_of_nil|constructor]]. Qed.

Lemma get_prop_Some (o : props) (k : string) (v : value) :
  get_prop o k = Some v -> k ∈ keys o /\ (k, v) ∈ o.
Proof.
  unfold keys. induction o as [|[k' v'] r IH]; simpl; [done|].
  destruct (String.eqb_spec k' k) as [->|Hne].
  - intros [= ->]. split; apply list_elem_of_here.
  - intros H. destruct (IH H). split; by apply list_elem_of_further.
Qed.

Lemma get_prop_None (o : props) (k : string) :
  get_prop o k = None <-> k ∉ keys o.
Proof.
  unfold keys. induction o as [|[k' v'] r IH]; simpl.
  - split; [intros _; apply not_elem_of_nil|done].
  - rewrite not_elem_of_cons. destruct (String.eqb_spec k' k) as [->|Hne].
    + split; [done|]. by intros [? _].
    + rewrite IH. split; [by split|by intros [_ ?]].
Qed.

Lemma get_prop_is_Some (o : props) (k : string) :
  k ∈ keys o -> exists v, get_prop o k = Some v.
Proof.
  intros Hin. destruct (get_prop o k) as [v|] eqn:E; [by eexists|].
  by apply get_prop_None in E.
Qed.

Lemma toLowerCase_empty (s : string) : toLowerCase s = EmptyString -> s = EmptyString.
Proof. by destruct s. Qed.

Lemma not_nullish (v : option value) :
  nullish v = false -> exists x, v = Some x /\ x <> VNull.
Proof. destruct v as [[]|]; try done; intros _; by eexists. Qed.

(** A value findByKeys returns, other than null, is stored in the mapping
    under a key that is a candidate up to letter case. *)
Lemma findByKeys_found (flat : props) (ks : list string) :
  findByKeys flat ks <> VNull ->
  exists k key,
    k ∈ ks /\ key ∈ keys flat /\ toLowerCase key = toLowerCase k
    /\ get_prop flat key = Some (findByKeys flat ks).
Proof.
  induction ks as [|k rest IH]; simpl; [done|].
  assert (Hrest : findByKeys flat rest <> VNull ->
                  exists k0 key,
                    k0 ∈ k :: rest /\ key ∈ keys flat /\ toLowerCase key = toLowerCase k0
                    /\ get_prop flat key = Some (findByKeys flat rest)).
  { intros H. destruct (IH H) as (k0 & key & ? & ? & ? & ?).
    exists k0, key. split; [by apply list_elem_of_further|done]. }
  destruct (nullish (get_prop flat k)) eqn:Hk; simpl.
  - destruct (List.find _ (keys flat)) as [hit|] eqn:Hfind; [|done].
    apply List.find_some in Hfind as [Hin Heq].
    apply String.eqb_eq in Heq. apply list_elem_of_In in Hin.
    destruct (negb (String.eqb hit EmptyString) && negb (nullish (get_prop flat hit)))
      eqn:Hhit; [|done].
    apply andb_true_iff in Hhit as [_ Hnn]. apply negb_true_iff in Hnn.
    destruct (not_nullish _ Hnn) as (x & Hx & _). rewrite Hx. intros _.
    exists k, hit. split; [apply list_elem_of_here|done].
  - destruct (not_nullish _ Hk) as (x & Hx & _). rewrite Hx. intros _.
    exists k, k. split; [apply list_elem_of_here|].
    split; [by apply get_prop_Some in Hx as [? _]|done].
Qed.

(** When no key of the mapping equals a candidate up to letter case,
    findByKeys returns null. *)
Lemma findByKeys_unmatched (flat : props) (ks : list string) :
  (forall k key, k ∈ ks -> key ∈ keys flat -> toLowerCase key <> toLowerCase k) ->
  findByKeys flat ks = VNull.
Proof.
  induction ks as [|k rest IH]; intros Hno; simpl; [done|].
  assert (get_prop flat k = None) as ->.
  { apply get_prop_None. intros Hin. exact (Hno k k (list_elem_of_here _ _) Hin eq_refl). }
  simpl. destruct (List.find _ (keys flat)) as [hit|] eqn:Hfind.
  - apply List.find_some in Hfind as [Hin Heq].
    apply String.eqb_eq in Heq. apply list_elem_of_In in Hin.
    exfalso. exact (Hno k hit (list_elem_of_here _ _) Hin Heq).
  - apply IH. intros k0 key Hk0. apply Hno. by apply list_elem_of_further.
Qed.

Lemma findByKeys_matched (flat : props) (ks : list string) (k key : string) :
  Forall (fun kv => snd kv <> VNull) flat -> EmptyString ∉ ks ->
  k ∈ ks -> key ∈ keys flat -> toLowerCase key = toLowerCase k ->
  findByKeys flat ks <> VNull.
Proof.
  intros Hnn. rewrite Forall_forall in Hnn.
  assert (Hval : forall key0 v, get_prop flat key0 = Some v -> nullish (Some v) = false).
  { intros key0 v Hv. apply get_prop_Some in Hv as [_ Hv]. apply Hnn in Hv. by destruct v. }
  induction ks as [|k0 rest IH]; intros Hempty Hk Hkey Heq; [by apply elem_of_nil in Hk|].
  apply not_elem_of_cons in Hempty as [Hk0 Hempty]. simpl.
  destruct (get_prop flat k0) as [v|] eqn:Hv.
  - rewrite (Hval _ _ Hv). simpl. intros ->. by specialize (Hval _ _ Hv).
  - simpl. destruct (List.find _ (keys flat)) as [hit|] eqn:Hfind.
    + apply List.find_some in Hfind as [Hin Hhit].
      apply String.eqb_eq in Hhit. apply list_elem_of_In in Hin.
      destruct (String.eqb_spec hit EmptyString) as [->|_].
      { simpl in Hhit. symmetry in Hhit. apply toLowerCase_empty in Hhit. by destruct Hk0. }
      destruct (get_prop_is_Some _ _ Hin) as [v' Hv'].
      rewrite Hv', (Hval _ _ Hv'). simpl. intros ->. by specialize (Hval _ _ Hv').
    + apply elem_of_cons in Hk as [->|Hk]; [|by apply IH].
      apply list_elem_of_In in Hkey. apply (List.find_none _ _ Hfind) in Hkey.
      apply String.eqb_neq in Hkey. done.
Qed.

(** X1: the mapping flatten returns is a flat mapping: no key occurs twice,
    the key [__proto__] does not occur, and every value is a scalar that is
    not null; flatten leaves no null, no array and no object in it. *)
Theorem flatten_builds_flat_mapping (v : value) (prefix : string) :
  flat_mapping (flatten v prefix []).
Proof. apply flatten_flat_mapping, flat_mapping_nil. Qed.

Lemma flatten_fields (o : props) (k : string) :
  NoDup (keys o) ->
  Forall (fun kv => is_scalar (snd kv) = true \/ snd kv = VNull) o ->
  k <> "__proto__" ->
  forall out,
    get_prop (fold_left (fun out '(k, v) => flatten v (path EmptyString k) out) o out) k
    = if nullish (get_prop o k) then get_prop out k else get_prop o k.
Proof.
  intros Hnd Hall Hk. induction Hall as [|[k0 v0] r Hv0 _ IH]; intros out; [done|].
  unfold keys in Hnd. simpl in Hnd. apply NoDup_cons in Hnd as [Hk0 Hnd].
  cbn [fold_left]. rewrite IH by done. simpl in Hv0.
  change (path EmptyString k0) with k0. cbn [get_prop].
  destruct (String.eqb_spec k0 k) as [->|Hne].
  - assert (get_prop r k = None) as -> by (by apply get_prop_None).
    cbn [nullish].
    destruct Hv0 as [Hs| ->]; [|done].
    destruct v0; try done; simpl; by rewrite get_set_prop_eq.
  - destruct (nullish (get_prop r k)); [|done].
    destruct Hv0 as [Hs| ->]; [|done].
    destruct v0; try done; simpl; by rewrite get_set_prop_ne.
Qed.

(** X2: a record that is already flat is its own flat mapping, less its
    null fields.  For an object whose values are scalars or null, flatten
    keeps every field that is not null under its own name and drops the
    null ones (the field [__proto__] apart, which is never written). *)
Theorem flatten_flat_record (o : props) (k : string) :
  NoDup (keys o) ->
  Forall (fun kv => is_scalar (snd kv) = true \/ snd kv = VNull) o ->
  k <> "__proto__" ->
  get_prop (flatten (VObj o) EmptyString []) k
  = if nullish (get_prop o k) then None else get_prop o k.
Proof. intros Hnd Hall Hk. cbn [flatten]. by rewrite flatten_fields. Qed.

(** The record [{id: "b1", note: null, lat: 10}]: [lat] is kept, [note]
    dropped. *)
Lemma flatten_flat_record_witness :
  get_prop
    (flatten (VObj [("id", VStr "b1"); ("note", VNull); ("lat", VNum (of_Z 10))])
       EmptyString []) "lat"
  = Some (VNum (of_Z 10)).
Proof.
  rewrite flatten_flat_record; [reflexivity| | |discriminate].
  - apply (bool_decide_unpack _). vm_compute. exact I.
  - repeat (apply Forall_cons; split; [simpl; auto|]). apply Forall_nil_2.
Defined.

(** X3: findByKeys finds only what the mapping holds under a candidate in
    some letter case.  A result other than null is the value stored under
    a key that equals a candidate up to letter case; and when no key of the
    mapping equals a candidate up to letter case, the result is null. *)
Theorem findByKeys_resolves (flat : props) (ks : list string) :
  (findByKeys flat ks <> VNull ->
   exists k key,
     k ∈ ks /\ key ∈ keys flat /\ toLowerCase key = toLowerCase k
     /\ get_prop flat key = Some (findByKeys flat ks))
  /\ ((forall k key, k ∈ ks -> key ∈ keys flat -> toLowerCase key <> toLowerCase k) ->
      findByKeys flat ks = VNull).
Proof. split; [apply findByKeys_found|apply findByKeys_unmatched]. Qed.

(** A mapping with an id and no latitude under any name. *)
Lemma findByKeys_resolves_witness :
  findByKeys [("ID", VStr "b7")] KEY_lat = VNull.
Proof.
  apply (findByKeys_resolves [("ID", VStr "b7")] KEY_lat).
  intros k key Hk Hkey. apply list_elem_of_singleton in Hkey as ->.
  repeat (apply elem_of_cons in Hk as [->|Hk]; [discriminate|]).
  by apply elem_of_nil in Hk.
Defined.

Lemma flat_mapping_non_null (flat : props) :
  flat_mapping flat -> Forall (fun kv => snd kv <> VNull) flat.
Proof.
  intros (_ & _ & Hall). eapply Forall_impl; [exact Hall|].
  intros [k v] Hv. simpl in *. by destruct v.
Qed.

Lemma flat_mapping_scalar (flat : props) (k : string) (v : value) :
  flat_mapping flat -> get_prop flat k = Some v -> is_scalar v = true.
Proof.
  intros (_ & _ & Hall) Hv. apply get_prop_Some in Hv as [_ Hv].
  rewrite Forall_forall in Hall. by apply Hall in Hv.
Qed.

(** X4: on a flat mapping, such as flatten builds, findByKeys with
    candidates none of which is empty returns null exactly when no key of
    the mapping equals a candidate up to letter case; and what it returns
    otherwise is a scalar. *)
Theorem findByKeys_on_flat_mapping (flat : props) (ks : list string) :
  flat_mapping flat -> EmptyString ∉ ks ->
  (findByKeys flat ks = VNull
   <-> forall k key, k ∈ ks -> key ∈ keys flat -> toLowerCase key <> toLowerCase k)
  /\ (findByKeys flat ks = VNull \/ is_scalar (findByKeys flat ks) = true).
Proof.
  intros Hflat Hempty. split; [split|].
  - intros Hnull k key Hk Hkey Heq.
    by apply (findByKeys_matched flat ks k key (flat_mapping_non_null _ Hflat)).
  - apply findByKeys_unmatched.
  - destruct (findByKeys flat ks) as [| b | n | s | l | o] eqn:E; [by left|right; rewrite <- E..];
      (assert (findByKeys flat ks <> VNull) as Hne by (by rewrite E)).
    all: destruct (findByKeys_found flat ks Hne) as (k & key & _ & _ & _ & Hv);
      by apply (flat_mapping_scalar flat key).
Qed.

(** The flat mapping of [{Latitude: 10}] and the latitude candidates. *)
Lemma findByKeys_on_flat_mapping_witness :
  findByKeys (flatten (VObj [("Latitude", VNum (of_Z 10))]) EmptyString []) KEY_lat = VNull
  \/ is_scalar
       (findByKeys (flatten (VObj [("Latitude", VNum (of_Z 10))]) EmptyString []) KEY_lat)
     = true.
Proof.
  apply (findByKeys_on_flat_mapping
           (flatten (VObj [("Latitude", VNum (of_Z 10))]) EmptyString []) KEY_lat).
  - apply flatten_flat_mapping, flat_mapping_nil.
  - intros Hin. repeat (apply elem_of_cons in Hin as [Hin|Hin]; [discriminate|]).
    by apply elem_of_nil in Hin.
Defined.

(** ** Timestamps *)

Lemma of_Z_ltb (a b : Z) : ltb (of_Z a) (of_Z b) = (a <? b)%Z.
Proof.
  change (Qc_ltb (Q2Qc (inject_Z a)) (Q2Qc (inject_Z b)) = (a <? b)%Z).
  apply eq_true_iff_eq. rewrite Qc_ltb_lt, Z.ltb_lt. unfold Qclt, Q2Qc. cbn [this].
  rewrite !Qred_correct. by rewrite <- Zlt_Qlt.
Qed.

(** X5: seconds and milliseconds.  An integer of magnitude below 1e12 is
    read as seconds since the epoch: toMs gives its thousandfold.  (Such an
    integer and its thousandfold are below 2^53, so the product is exact.)
    From 1e9 on, the thousandfold is read as milliseconds, so toMs gives
    the same instant for the number as for its thousandfold, the same
    instant written in milliseconds.  Below 1e9 in magnitude the
    thousandfold is itself below 1e12: an instant before 2001-09-09 written
    in milliseconds, or a negative one, is read as seconds too and
    multiplied once more. *)
Theorem toMs_seconds_and_milliseconds {rt : Runtime} (z : Z) :
  (-1000000000000 < z < 1000000000000)%Z ->
  toMs (Some (VNum (of_Z z))) = Returned (of_Z (z * 1000))
  /\ ((1000000000 <= z)%Z ->
      toMs (Some (VNum (of_Z (z * 1000)))) = Returned (of_Z (z * 1000)))
  /\ ((-1000000000 < z < 1000000000)%Z ->
      toMs (Some (VNum (of_Z (z * 1000)))) = Returned (of_Z (z * 1000 * 1000))).
Proof.
  intros Hz.
  assert (Hms : forall m, toMs (Some (VNum (of_Z m)))
                          = Returned (if (m <? 1000000000000)%Z then of_Z (m * 1000) else of_Z m)).
  { intros m. unfold toMs. cbn [nullish ToNumber unconvertible number_of bind].
    change (isFinite (of_Z m)) with true. cbv iota.
    by rewrite of_Z_ltb, of_Z_mul. }
  rewrite !Hms. split; [|split].
  - by rewrite (proj2 (Z.ltb_lt z 1000000000000)) by lia.
  - intros Hlo. by rewrite (proj2 (Z.ltb_ge (z * 1000) 1000000000000)) by lia.
  - intros Hlo. by rewrite (proj2 (Z.ltb_lt (z * 1000) 1000000000000)) by lia.
Qed.

(** 2023-11-14T22:13:20Z, in seconds and in milliseconds. *)
Lemma toMs_seconds_and_milliseconds_witness :
  toMs (rt := sample_runtime) (Some (VNum (of_Z 1700000000))) = Returned (of_Z 1700000000000)
  /\ toMs (rt := sample_runtime) (Some (VNum (of_Z 1700000000000)))
     = Returned (of_Z 1700000000000).
Proof.
  destruct (toMs_seconds_and_milliseconds (rt := sample_runtime) 1700000000) as (H1 & H2 & _);
    [lia|].
  split; [exact H1|]. apply H2. lia.
Defined.

(** ** Geometry fallback *)

Section GeoFacts.
Context {rt : Runtime}.

Lemma numeric_pair_finite (v : option value) (a b : number) :
  numeric_pair v = Returned (Some (a, b)) -> isFinite a = true /\ isFinite b = true.
Proof.
  unfold numeric_pair. destruct v as [[| | | |g|]|]; try done.
  destruct (_ <=? _)%nat; [|done].
  destruct (ToNumber (g !! 0%nat)) as [x|]; [|done]. cbn [bind].
  destruct (isFinite x) eqn:Hx; [|done].
  destruct (ToNumber (g !! 1%nat)) as [y|]; [|done]. cbn [bind].
  destruct (isFinite y) eqn:Hy; [|done]. by intros [= <- <-].
Qed.

(** A flat mapping holds no array, so the two tests for a coordinate array
    fail on it. *)
Lemma numeric_pair_flat (flat : props) (k : string) :
  flat_mapping flat -> numeric_pair (get_prop flat k) = Returned None.
Proof.
  intros (_ & _ & Hall). destruct (get_prop flat k) as [v|] eqn:Hv; [|done].
  apply get_prop_Some in Hv as [_ Hv]. rewrite Forall_forall in Hall.
  apply Hall in Hv. by destruct v.
Qed.

Lemma coalesce_flat (flat : props) (a b c : string) :
  flat_mapping flat ->
  numeric_pair (coalesce (coalesce (get_prop flat a) (get_prop flat b)) (get_prop flat c))
  = Returned None.
Proof.
  intros Hflat. unfold coalesce.
  repeat match goal with |- context [if ?c then _ else _] => destruct c end;
    by apply numeric_pair_flat.
Qed.

(** What the scan of the generic candidates returns is a pair of finite
    numbers. *)
Lemma geo_scan_finite (flat : props) (cands : list string) (la lo : number) :
  geo_scan flat cands = Returned (Some (la, lo)) ->
  isFinite la = true /\ isFinite lo = true.
Proof.
  induction cands as [|c rest IH]; simpl; [done|].
  assert (Hstr : match get_prop flat c with
                 | Some (VStr s) =>
                     if includes_char "," s then
                       let nums := map (fun p => StringToNumber (trim p)) (split_char "," s) in
                       let a := nth 0 nums NaN in
                       let b := nth 1 nums NaN in
                       if isFinite a && isFinite b then
                         if leb (abs a) (of_Z 90) then Returned (Some (a, b))
                         else Returned (Some (b, a))
                       else geo_scan flat rest
                     else geo_scan flat rest
                 | _ => geo_scan flat rest
                 end = Returned (Some (la, lo)) -> isFinite la = true /\ isFinite lo = true).
  { destruct (get_prop flat c) as [[| | |s| |]|]; try exact IH.
    destruct (includes_char "," s); [|exact IH]. cbv zeta.
    destruct (_ && _) eqn:H; [|exact IH].
    apply andb_true_iff in H as [? ?].
    destruct (leb _ _); by intros [= <- <-]. }
  destruct (numeric_pair (get_prop flat c)) as [[[a b]|]|] eqn:Hp; cbn [bind];
    [|exact Hstr|done].
  apply numeric_pair_finite in Hp as [? ?].
  destruct (_ && _); [by intros [= <- <-]|].
  destruct (_ && _); [by intros [= <- <-]|exact Hstr].
Qed.

End GeoFacts.

Section GeoFlat.
Context {rt : Runtime}.

Lemma geo_scan_flat (flat : props) (cands : list string) :
  flat_mapping flat ->
  (forall la lo,
     geo_scan flat cands = Returned (Some (la, lo)) ->
     exists c s, c ∈ cands /\ get_prop flat c = Some (VStr s)
                 /\ pair_of_text s = Some (la, lo))
  /\ ((forall c s, c ∈ cands -> get_prop flat c = Some (VStr s) -> pair_of_text s = None) ->
      geo_scan flat cands = Returned None)
  /\ exists found, geo_scan flat cands = Returned found.
Proof.
  intros Hflat. induction cands as [|c rest (IH1 & IH2 & IH3)];
    [split; [done|split; [done|by eexists]]|].
  assert (Hrest : forall la lo,
             geo_scan flat rest = Returned (Some (la, lo)) ->
             exists c0 s, c0 ∈ c :: rest /\ get_prop flat c0 = Some (VStr s)
                          /\ pair_of_text s = Some (la, lo)).
  { intros la lo H. destruct (IH1 la lo H) as (c0 & s & ? & ? & ?).
    exists c0, s. split; [by apply list_elem_of_further|done]. }
  cbn [geo_scan]. cbv zeta. rewrite (numeric_pair_flat flat c Hflat). cbn [bind].
  destruct (get_prop flat c) as [[| | |s| |]|] eqn:Hc;
    try (split; [exact Hrest|split; [|exact IH3]];
         intros Hnone; apply IH2; intros c0 s0 Hc0; apply Hnone;
         by apply list_elem_of_further).
  pose proof (eq_refl (pair_of_text s)) as Hp. unfold pair_of_text at 2 in Hp.
  cbv zeta in Hp.
  destruct (includes_char "," s); simpl in Hp.
  - destruct (_ && _) eqn:Hfin.
    + split; [|split].
      * intros la lo Hres. exists c, s. split; [apply list_elem_of_here|].
        split; [done|]. rewrite Hp. revert Hres. destruct (leb _ _); by intros [= -> ->].
      * intros Hnone. specialize (Hnone c s (list_elem_of_here _ _) Hc).
        rewrite Hnone in Hp. by destruct (leb _ _).
      * destruct (leb _ _); by eexists.
    + split; [exact Hrest|split; [|exact IH3]].
      intros Hnone; apply IH2; intros c0 s0 Hc0; apply Hnone;
        by apply list_elem_of_further.
  - split; [exact Hrest|split; [|exact IH3]].
    intros Hnone; apply IH2; intros c0 s0 Hc0; apply Hnone;
      by apply list_elem_of_further.
Qed.

Lemma latLonFromGeo_flat (flat : props) :
  flat_mapping flat -> latLonFromGeo flat = geo_scan flat GEO_CANDS.
Proof. intros Hflat. unfold latLonFromGeo. cbv zeta. by rewrite coalesce_flat. Qed.

End GeoFlat.

(** X6: on a flat mapping, such as flatten builds, latLonFromGeo reads
    coordinates from nothing but a pair text: a result is the pair that the
    text under one of the seven candidate keys stands for, and when no
    candidate key holds a text that stands for a pair the result is null.
    The three GeoJSON keys and every coordinate array are without effect
    there, since a flat mapping holds no array; and nothing is raised
    there, since only texts are converted. *)
Theorem latLonFromGeo_on_flat_mapping {rt : Runtime} (flat : props) :
  flat_mapping flat ->
  (forall la lo,
     latLonFromGeo flat = Returned (Some (la, lo)) ->
     exists c s, c ∈ GEO_CANDS /\ get_prop flat c = Some (VStr s)
                 /\ pair_of_text s = Some (la, lo))
  /\ ((forall c s, c ∈ GEO_CANDS -> get_prop flat c = Some (VStr s) -> pair_of_text s = None) ->
      latLonFromGeo flat = Returned None)
  /\ exists found, latLonFromGeo flat = Returned found.
Proof.
  intros Hflat. rewrite latLonFromGeo_flat by done. by apply geo_scan_flat.
Qed.

(** A record with a coordinate array and no pair text. *)
Lemma latLonFromGeo_on_flat_mapping_witness :
  latLonFromGeo (rt := sample_runtime)
    (flatten (VObj [("id", VStr "b1"); ("coordinates", VArr [VNum (of_Z 10); VNum (of_Z 50)])])
       EmptyString [])
  = Returned None.
Proof.
  apply (latLonFromGeo_on_flat_mapping (rt := sample_runtime)).
  - apply flatten_flat_mapping, flat_mapping_nil.
  - intros c s Hc.
    repeat (apply elem_of_cons in Hc as [->|Hc]; [discriminate|]).
    by apply elem_of_nil in Hc.
Defined.

(** X7: the coordinates latLonFromGeo returns are finite numbers, whatever
    mapping it is given. *)
Theorem latLonFromGeo_finite {rt : Runtime} (flat : props) (la lo : number) :
  latLonFromGeo flat = Returned (Some (la, lo)) ->
  isFinite la = true /\ isFinite lo = true.
Proof.
  unfold latLonFromGeo. cbv zeta.
  destruct (numeric_pair _) as [[[x y]|]|] eqn:Hp; cbn [bind];
    [|apply geo_scan_finite|done].
  apply numeric_pair_finite in Hp as [? ?]. by intros [= <- <-].
Qed.

(** A mapping that holds the GeoJSON pair [[10, 50]]. *)
Lemma latLonFromGeo_finite_witness :
  isFinite (of_Z 50) = true /\ isFinite (of_Z 10) = true.
Proof.
  apply (latLonFromGeo_finite (rt := sample_runtime)
           [("geometry.coordinates", VArr [VNum (of_Z 10); VNum (of_Z 50)])]).
  reflexivity.
Defined.

(** ** Record Normalizer: what it emits, rejects and raises *)

Lemma toISOString_returned {rt : Runtime} (t : number) (s : string) :
  toISOString t = Returned s -> time_value t = true /\ s = Date_toISOString t.
Proof. unfold toISOString. destruct (time_value t); [by intros [= <-]|done]. Qed.

(** toMs gives a finite number only for a value that is not nullish. *)
Lemma toMs_finite {rt : Runtime} (v : option value) (t : number) :
  toMs v = Returned t -> isFinite t = true -> exists x, v = Some x /\ x <> VNull.
Proof.
  unfold toMs. destruct (nullish v) eqn:Hv; [by intros [= <-]|].
  intros _ _. by apply not_nullish.
Qed.

(** What findByKeys finds in a flat mapping is a primitive value. *)
Lemma findByKeys_primitive (flat : props) (ks : list string) :
  flat_mapping flat -> primitive (Some (findByKeys flat ks)) = true.
Proof.
  intros Hflat. destruct (findByKeys flat ks) as [| b | n | s | l | o] eqn:E; try done;
    (assert (findByKeys flat ks <> VNull) as Hne by (by rewrite E));
    destruct (findByKeys_found flat ks Hne) as (k & key & _ & _ & _ & Hv);
    rewrite E in Hv; by apply (flat_mapping_scalar flat key) in Hv.
Qed.

(** The timestamp normalizeObject settles on, when finite, is toMs of a
    value that the flat mapping holds. *)
Lemma resolved_time {rt : Runtime} (flat : props) (t0 t : number) :
  toMs (Some (findByKeys flat KEY_time)) = Returned t0 ->
  (if negb (isFinite t0)
   then toMs (get_prop flat (default "undefined" (List.find time_key_test (keys flat))))
   else Returned t0) = Returned t ->
  isFinite t = true ->
  exists key x, get_prop flat key = Some x /\ toMs (Some x) = Returned t.
Proof.
  intros H0 H1 Hfin. destruct (isFinite t0) eqn:Hf0; cbn [negb] in H1.
  - injection H1 as <-. destruct (toMs_finite _ _ H0 Hf0) as (x & [= <-] & Hx).
    destruct (findByKeys_found flat KEY_time Hx) as (k & key & _ & _ & _ & Hv).
    by exists key, (findByKeys flat KEY_time).
  - destruct (toMs_finite _ _ H1 Hfin) as (x & Hx & _).
    eexists _, x. split; [exact Hx|]. by rewrite <- Hx.
Qed.

(** What normalizeObject has established when it emits a point. *)
Lemma normalizeObject_inv {rt : Runtime} (rec : value) (p : Point) :
  normalizeObject rec = Returned (Some p) ->
  truthy rec = true /\ typeof_object rec = true
  /\ (exists idv,
        coalesce (Some (findByKeys (flatten rec EmptyString []) KEY_id))
          (get_prop (flatten rec EmptyString []) "__key") = Some idv
        /\ idv <> VNull /\ ToString idv = Returned (id p))
  /\ (exists key x,
        get_prop (flatten rec EmptyString []) key = Some x
        /\ toMs (Some x) = Returned (ts p))
  /\ well_formed p.
Proof.
  unfold normalizeObject. cbv zeta.
  set (flat := flatten rec EmptyString []).
  set (idv := coalesce (Some (findByKeys flat KEY_id)) (get_prop flat "__key")).
  destruct (negb (truthy rec) || negb (typeof_object rec)) eqn:Hrec; [discriminate|].
  destruct (nullish idv) eqn:Hid; [discriminate|].
  destruct (toMs (Some (findByKeys flat KEY_time))) as [t0|] eqn:Ht0; [|discriminate].
  cbn [bind].
  destruct (if negb (isFinite t0) then _ else _) as [tsv|] eqn:Ht1; [|discriminate].
  cbn [bind].
  destruct (negb (isFinite tsv)) eqn:Hts; [discriminate|].
  destruct (ToNumber (Some (findByKeys flat KEY_lat))) as [la0|]; [|discriminate].
  destruct (ToNumber (Some (findByKeys flat KEY_lon))) as [lo0|]; [|discriminate].
  cbn [bind].
  destruct (if negb (isFinite la0) || negb (isFinite lo0) then _ else _) as [geo|];
    [|discriminate].
  cbn [bind].
  set (la := match geo with Some (glat, _) => glat | None => la0 end).
  set (lo := match geo with Some (_, glon) => glon | None => lo0 end).
  destruct (negb (isFinite la) || negb (isFinite lo)) eqn:Hfin; [discriminate|].
  destruct (gtb (abs la) (of_Z 90) || gtb (abs lo) (of_Z 180)) eqn:Hbnd; [discriminate|].
  destruct (ToNumber (Some (findByKeys flat KEY_alt))) as [al|]; [|discriminate].
  cbn [bind].
  destruct (ToString (default VNull idv)) as [text|] eqn:Htext; [|discriminate].
  cbn [bind].
  destruct (toISOString tsv) as [isov|] eqn:Hiso; [|discriminate].
  cbn [bind]. intros [= <-].
  apply orb_false_iff in Hrec as [Hr1 Hr2], Hfin as [Hf1 Hf2], Hbnd as [Hb1 Hb2].
  apply negb_false_iff in Hr1, Hr2, Hf1, Hf2, Hts.
  rewrite gtb_not_leb in Hb1, Hb2 by (by rewrite ?abs_finite).
  apply negb_false_iff in Hb1, Hb2.
  apply toISOString_returned in Hiso as [Htime ->].
  destruct (not_nullish _ Hid) as (x & Hx & Hxn).
  split; [done|split; [done|split; [|split]]].
  - exists x. cbn [id]. rewrite Hx in Htext. by rewrite Hx.
  - cbn [ts]. by apply (resolved_time flat t0 tsv).
  - unfold well_formed. cbn [ts iso lat lon alt wind air].
    repeat split; try done.
    intros a. destruct (negb (isFinite al)) eqn:Hal; [done|].
    intros [= <-]. by apply negb_false_iff in Hal.
Qed.

(** X8: every point normalizeObject emits is well formed (a timestamp a
    Date can hold with its ISO text, a finite latitude in [-90, 90], a
    finite longitude in [-180, 180], a finite altitude or none, no wind and
    no air field); its id is the text of a scalar that the flattened record
    holds under [__key] or under a key that is an id candidate up to letter
    case; and its timestamp is toMs of a value the flattened record holds. *)
Theorem normalizeObject_emits_valid {rt : Runtime} (rec : value) (p : Point) :
  normalizeObject rec = Returned (Some p) ->
  well_formed p
  /\ (exists key v,
        get_prop (flatten rec EmptyString []) key = Some v
        /\ is_scalar v = true /\ ToString v = Returned (id p)
        /\ (key = "__key"
            \/ exists k, k ∈ KEY_id /\ toLowerCase key = toLowerCase k))
  /\ (exists key x,
        get_prop (flatten rec EmptyString []) key = Some x
        /\ toMs (Some x) = Returned (ts p)).
Proof.
  intros H. apply normalizeObject_inv in H as (_ & _ & (idv & Hid & Hnn & Htext) & Hts & Hwf).
  split; [done|split; [|done]].
  pose proof (flatten_flat_mapping rec EmptyString [] flat_mapping_nil) as Hflat.
  pose proof (findByKeys_found (flatten rec EmptyString []) KEY_id) as Hfound.
  set (flat := flatten rec EmptyString []) in *.
  set (fb := findByKeys flat KEY_id) in *.
  unfold coalesce in Hid. destruct (nullish (Some fb)) eqn:Hfb.
  - exists "__key", idv. split; [done|].
    split; [by apply (flat_mapping_scalar flat "__key")|]. split; [done|by left].
  - assert (fb = idv) as Hfbv by congruence. rewrite Hfbv in Hfound.
    destruct (Hfound Hnn) as (k & key & Hk & _ & Heq & Hv).
    exists key, idv. split; [done|].
    split; [by apply (flat_mapping_scalar flat key)|].
    split; [done|right; by exists k].
Qed.

(** The report [{ID: "b7", Time: 1700000000, Latitude: 10, LNG: 20}]. *)
Lemma normalizeObject_emits_valid_witness :
  well_formed (rt := sample_runtime)
    {| id := "b7"; ts := of_Z 1700000000000; iso := "2023-11-14T22:13:20.000Z";
       lat := of_Z 10; lon := of_Z 20; alt := Some (of_Z 0); wind := None; air := None |}.
Proof.
  apply (normalizeObject_emits_valid (rt := sample_runtime)
           (VObj [("ID", VStr "b7"); ("Time", VNum (of_Z 1700000000));
                  ("Latitude", VNum (of_Z 10)); ("LNG", VNum (of_Z 20))])).
  vm_compute. reflexivity.
Defined.

Lemma find_all_false {A} (f : A -> bool) (l : list A) :
  (forall x, x ∈ l -> f x = false) -> List.find f l = None.
Proof.
  induction l as [|a r IH]; intros H; simpl; [done|].
  rewrite (H a) by apply list_elem_of_here. apply IH. intros x Hx. apply H.
  by apply list_elem_of_further.
Qed.

(** X10: normalizeObject rejects a record without an id and a record
    without a time.  It returns null when no key of the flattened record
    equals an id candidate up to letter case and there is no key [__key];
    and it returns null when no key equals a time candidate up to letter
    case, no key holds one of the words time, timestamp, ts, datetime as a
    whole word, and there is no key [undefined] (the key that the lookup
    [flat[guess]] reads when no key was guessed). *)
Theorem normalizeObject_requires_id_and_time {rt : Runtime} (rec : value) :
  ((forall k key,
      k ∈ KEY_id -> key ∈ keys (flatten rec EmptyString []) ->
      toLowerCase key <> toLowerCase k) ->
   "__key" ∉ keys (flatten rec EmptyString []) ->
   normalizeObject rec = Returned None)
  /\ ((forall k key,
         k ∈ KEY_time -> key ∈ keys (flatten rec EmptyString []) ->
         toLowerCase key <> toLowerCase k) ->
      (forall key, key ∈ keys (flatten rec EmptyString []) -> time_key_test key = false) ->
      "undefined" ∉ keys (flatten rec EmptyString []) ->
      normalizeObject rec = Returned None).
Proof.
  unfold normalizeObject. cbv zeta.
  set (flat := flatten rec EmptyString []).
  split.
  - intros Hid Hkey.
    destruct (negb (truthy rec) || negb (typeof_object rec)); [done|].
    rewrite (findByKeys_unmatched flat KEY_id Hid).
    by rewrite (proj2 (get_prop_None flat "__key") Hkey).
  - intros Htime Hguess Hundef.
    destruct (negb (truthy rec) || negb (typeof_object rec)); [done|].
    destruct (nullish _); [done|].
    rewrite (findByKeys_unmatched flat KEY_time Htime).
    rewrite (find_all_false time_key_test (keys flat) Hguess).
    change (default "undefined" (@None string)) with "undefined".
    by rewrite (proj2 (get_prop_None flat "undefined") Hundef).
Qed.

(** A report with coordinates and a time and no id: [{ts, lat, lon}]. *)
Lemma normalizeObject_requires_id_and_time_witness :
  normalizeObject (rt := sample_runtime)
    (VObj [("ts", VNum (of_Z 1700000000)); ("lat", VNum (of_Z 10)); ("lon", VNum (of_Z 20))])
  = Returned None.
Proof.
  apply (proj1 (normalizeObject_requires_id_and_time (rt := sample_runtime) _)).
  - intros k key Hk Hkey.
    change (key ∈ ["ts"; "lat"; "lon"]) in Hkey.
    repeat (apply elem_of_cons in Hkey as [->|Hkey];
            [repeat (apply elem_of_cons in Hk as [->|Hk]; [discriminate|]);
             by apply elem_of_nil in Hk|]).
    by apply elem_of_nil in Hkey.
  - intros Hkey. change ("__key" ∈ ["ts"; "lat"; "lon"]) in Hkey.
    repeat (apply elem_of_cons in Hkey as [Hkey|Hkey]; [discriminate|]).
    by apply elem_of_nil in Hkey.
Defined.

(** The candidates are tried in their order: the first one that the
    mapping holds a value for, when no key matches an earlier one, decides. *)
Lemma findByKeys_first_match (flat : props) (pre post : list string) (k : string) (v : value) :
  (forall k' key, k' ∈ pre -> key ∈ keys flat -> toLowerCase key <> toLowerCase k') ->
  get_prop flat k = Some v -> v <> VNull ->
  findByKeys flat (pre ++ k :: post) = v.
Proof.
  intros Hpre Hk Hv. induction pre as [|k0 pre IH]; simpl.
  - rewrite Hk. by destruct v.
  - assert (get_prop flat k0 = None) as ->.
    { apply get_prop_None. intros Hin.
      exact (Hpre k0 k0 (list_elem_of_here _ _) Hin eq_refl). }
    simpl. destruct (List.find _ (keys flat)) as [hit|] eqn:Hfind.
    + apply List.find_some in Hfind as [Hin Heq].
      apply String.eqb_eq in Heq. apply list_elem_of_In in Hin.
      exfalso. exact (Hpre k0 hit (list_elem_of_here _ _) Hin Heq).
    + apply IH. intros k' key Hk'. apply Hpre. by apply list_elem_of_further.
Qed.

(** The keys of the flat mapping of a flat record are keys of the record. *)
Lemma flatten_flat_keys (o : props) (key : string) :
  NoDup (keys o) ->
  Forall (fun kv => is_scalar (snd kv) = true \/ snd kv = VNull) o ->
  key ∈ keys (flatten (VObj o) EmptyString []) -> key ∈ keys o.
Proof.
  intros Hnd Hall Hkey.
  pose proof (flatten_flat_mapping (VObj o) EmptyString [] flat_mapping_nil)
    as (_ & Hproto & _).
  destruct (get_prop_is_Some _ _ Hkey) as [v Hv]. revert Hv. cbn [flatten].
  rewrite flatten_fields; [|done|done|by intros ->].
  destruct (nullish (get_prop o key)); [done|]. intros Hv.
  by apply get_prop_Some in Hv as [? _].
Qed.

Lemma flatten_flat_field (o : props) (k : string) (v : value) :
  NoDup (keys o) ->
  Forall (fun kv => is_scalar (snd kv) = true \/ snd kv = VNull) o ->
  k <> "__proto__" -> get_prop o k = Some v -> v <> VNull ->
  get_prop (flatten (VObj o) EmptyString []) k = Some v.
Proof.
  intros Hnd Hall Hk Hv Hnn. cbn [flatten]. rewrite flatten_fields by done.
  rewrite Hv. by destruct v.
Qed.

Lemma no_key_matches (ks keys : list string) :
  some_key_matches ks keys = false ->
  forall k key, k ∈ ks -> key ∈ keys -> toLowerCase key <> toLowerCase k.
Proof.
  intros H k key Hk Hkey Heq. apply not_true_iff_false in H. apply H.
  apply existsb_exists. exists k. split; [by apply list_elem_of_In|].
  apply existsb_exists. exists key. split; [by apply list_elem_of_In|].
  by apply String.eqb_eq.
Qed.

(** A finite number is read as seconds below 1e12 and as milliseconds from
    there on. *)
Lemma toMs_number {rt : Runtime} (n : number) :
  isFinite n = true ->
  toMs (Some (VNum n))
  = Returned (if ltb n (of_Z 1000000000000) then mul n (of_Z 1000) else n).
Proof.
  intros Hn. unfold toMs. cbn [nullish ToNumber unconvertible number_of bind].
  by rewrite Hn.
Qed.

(** A number beyond the largest time value is neither below 1e12 nor a time
    value. *)
Lemma beyond_MAX_TIME (n : number) :
  isFinite n = true -> gtb n MAX_TIME = true ->
  ltb n (of_Z 1000000000000) = false /\ time_value n = false.
Proof.
  destruct n as [| | |q]; try done. intros _ Hgt.
  change (Qc_ltb (Q2Qc (inject_Z 8640000000000000)) q = true) in Hgt.
  apply Qc_ltb_lt in Hgt.
  assert (Hbig : (Q2Qc (inject_Z 1000000000000) < q)%Qc)
    by (eapply Qclt_trans; [|exact Hgt]; reflexivity).
  assert (Hpos : (Q2Qc 0 < q)%Qc)
    by (eapply Qclt_trans; [|exact Hgt]; reflexivity).
  split.
  - change (Qc_ltb q (Q2Qc (inject_Z 1000000000000)) = false).
    apply not_true_iff_false. rewrite Qc_ltb_lt. intros H.
    exact (Qclt_not_le _ _ Hbig (Qclt_le_weak _ _ H)).
  - unfold time_value, abs, Qc_abs. cbn [isFinite andb].
    assert (Qc_ltb q (Q2Qc 0) = false) as ->.
    { apply not_true_iff_false. rewrite Qc_ltb_lt. intros H.
      exact (Qclt_not_le _ _ Hpos (Qclt_le_weak _ _ H)). }
    change (Qc_leb q (Q2Qc (inject_Z 8640000000000000)) = false).
    apply not_true_iff_false. rewrite Qc_leb_le. by apply Qclt_not_le.
Qed.

(** A flat report with a text under [id], finite in-bounds numbers under
    [lat] and [lon] and a finite number under the first time candidate that
    any of its keys matches: normalizeObject resolves these fields and
    reaches the conversion of the timestamp to its ISO text. *)
Lemma normalizeObject_flat_report {rt : Runtime} (o : props) (s : string)
    (tk : string) (pre post : list string) (n a b : number) :
  NoDup (keys o) ->
  Forall (fun kv => is_scalar (snd kv) = true \/ snd kv = VNull) o ->
  get_prop o "id" = Some (VStr s) ->
  KEY_time = pre ++ tk :: post ->
  (forall k' key, k' ∈ pre -> key ∈ keys o -> toLowerCase key <> toLowerCase k') ->
  get_prop o tk = Some (VNum n) -> isFinite n = true ->
  get_prop o "lat" = Some (VNum a) -> isFinite a = true -> leb (abs a) (of_Z 90) = true ->
  get_prop o "lon" = Some (VNum b) -> isFinite b = true -> leb (abs b) (of_Z 180) = true ->
  exists al,
    normalizeObject (VObj o)
    = (do text <- toISOString (if ltb n (of_Z 1000000000000) then mul n (of_Z 1000) else n);
       Returned
         (Some {| id := s;
                  ts := if ltb n (of_Z 1000000000000) then mul n (of_Z 1000) else n;
                  iso := text; lat := a; lon := b;
                  alt := if negb (isFinite al) then None else Some al;
                  wind := None; air := None |}))
    /\ (forall h, get_prop o "alt" = Some (VNum h) -> al = h)
    /\ ((forall k' key, k' ∈ KEY_alt -> key ∈ keys o -> toLowerCase key <> toLowerCase k') ->
        al = of_Z 0).
Proof.
  intros Hnd Hall Hid Htimes Hpre Htk Hn Hlat Ha Hab Hlon Hb Hbb.
  assert (Hfield : forall k v, k <> "__proto__" -> get_prop o k = Some v -> v <> VNull ->
                     get_prop (flatten (VObj o) EmptyString []) k = Some v)
    by (intros k v; by apply flatten_flat_field).
  assert (Hkeys : forall key, key ∈ keys (flatten (VObj o) EmptyString []) -> key ∈ keys o)
    by (intros key; by apply flatten_flat_keys).
  assert (tk <> "__proto__") as Htkp.
  { intros ->. assert ("__proto__" ∈ KEY_time) as Hin
      by (rewrite Htimes; apply elem_of_app; right; apply list_elem_of_here).
    repeat (apply elem_of_cons in Hin as [Hin|Hin]; [discriminate|]).
    by apply elem_of_nil in Hin. }
  pose proof (flatten_flat_mapping (VObj o) EmptyString [] flat_mapping_nil) as Hflat.
  unfold normalizeObject. cbv zeta.
  set (flat := flatten (VObj o) EmptyString []) in *.
  assert (findByKeys flat KEY_id = VStr s) as ->
    by (apply (findByKeys_first_match flat [] _ "id"); [by intros ? ? ?%elem_of_nil|by apply Hfield|done]).
  assert (findByKeys flat KEY_time = VNum n) as ->.
  { rewrite Htimes. apply findByKeys_first_match; [|by apply Hfield|done].
    intros k' key Hk' Hkey. apply Hpre; [done|by apply Hkeys]. }
  assert (findByKeys flat KEY_lat = VNum a) as ->
    by (apply (findByKeys_first_match flat [] _ "lat"); [by intros ? ? ?%elem_of_nil|by apply Hfield|done]).
  assert (findByKeys flat KEY_lon = VNum b) as ->
    by (apply (findByKeys_first_match flat [] _ "lon"); [by intros ? ? ?%elem_of_nil|by apply Hfield|done]).
  rewrite (toMs_number n Hn).
  change (ToNumber (Some (VNum a))) with (Returned a).
  change (ToNumber (Some (VNum b))) with (Returned b).
  change (ToString (default VNull (coalesce (Some (VStr s)) (get_prop flat "__key"))))
    with (Returned s).
  cbn [truthy typeof_object negb orb coalesce nullish bind].
  set (t := if ltb n (of_Z 1000000000000) then mul n (of_Z 1000) else n).
  assert (isFinite t = true) as Hfin
    by (subst t; destruct n as [| | |q]; try done; by destruct (ltb _ _)).
  repeat (first [rewrite Hfin|rewrite Ha|rewrite Hb]; cbn [negb orb bind]).
  rewrite !gtb_not_leb by (by rewrite ?abs_finite). rewrite Hab, Hbb. cbn [negb orb].
  rewrite (ToNumber_primitive (Some (findByKeys flat KEY_alt)))
    by (by apply findByKeys_primitive).
  cbn [bind]. exists (number_of (Some (findByKeys flat KEY_alt))).
  split; [reflexivity|]. split.
  - intros h Hh.
    assert (findByKeys flat KEY_alt = VNum h) as ->; [|done].
    apply (findByKeys_first_match flat [] _ "alt");
      [by intros ? ? ?%elem_of_nil|by apply Hfield|done].
  - intros Hnone. rewrite findByKeys_unmatched; [done|].
    intros k' key Hk' Hkey. apply Hnone; [done|by apply Hkeys].
Qed.

(** X11: a flat report is accepted with its own fields.  For a record
    whose values are scalars or null, with a text under [id], finite
    in-bounds numbers under [lat] and [lon], and a finite number under the
    first time candidate that any of its keys matches, normalizeObject
    emits, when the timestamp is within the range of a Date, the point with
    that id, with toMs of that number as its timestamp, and with those
    coordinates.  Its altitude is the finite number under [alt] when there
    is one; and it is 0, not null, when no key of the record matches an
    altitude candidate, since the null of a missing field converts to 0. *)
Theorem normalizeObject_accepts_flat_report {rt : Runtime} (o : props) (s : string)
    (tk : string) (pre post : list string) (n a b t : number) :
  NoDup (keys o) ->
  Forall (fun kv => is_scalar (snd kv) = true \/ snd kv = VNull) o ->
  get_prop o "id" = Some (VStr s) ->
  KEY_time = pre ++ tk :: post ->
  (forall k' key, k' ∈ pre -> key ∈ keys o -> toLowerCase key <> toLowerCase k') ->
  get_prop o tk = Some (VNum n) ->
  isFinite n = true -> toMs (Some (VNum n)) = Returned t -> time_value t = true ->
  get_prop o "lat" = Some (VNum a) -> isFinite a = true -> leb (abs a) (of_Z 90) = true ->
  get_prop o "lon" = Some (VNum b) -> isFinite b = true -> leb (abs b) (of_Z 180) = true ->
  exists p,
    normalizeObject (VObj o) = Returned (Some p)
    /\ id p = s /\ ts p = t
    /\ iso p = Date_toISOString t
    /\ lat p = a /\ lon p = b
    /\ (forall h, get_prop o "alt" = Some (VNum h) -> isFinite h = true -> alt p = Some h)
    /\ ((forall k' key, k' ∈ KEY_alt -> key ∈ keys o -> toLowerCase key <> toLowerCase k') ->
        alt p = Some (of_Z 0)).
Proof.
  intros Hnd Hall Hid Htimes Hpre Htk Hn Ht Htime Hlat Ha Hab Hlon Hb Hbb.
  destruct (normalizeObject_flat_report o s tk pre post n a b) as (al & Hrec & Halt & Hnone);
    try done.
  rewrite (toMs_number n Hn) in Ht. injection Ht as Ht. rewrite Ht in Hrec.
  unfold toISOString in Hrec. rewrite Htime in Hrec. cbn [bind] in Hrec.
  eexists. split; [exact Hrec|]. cbn [id ts iso lat lon alt].
  repeat split.
  - intros h Hh Hhf. rewrite (Halt h Hh). by rewrite Hhf.
  - intros Hno. by rewrite (Hnone Hno).
Qed.

(** The report [{id: "b7", timestamp: 1700000000, lat: 10, lon: 20}]. *)
Lemma normalizeObject_accepts_flat_report_witness :
  exists p,
    normalizeObject (rt := sample_runtime)
      (VObj [("id", VStr "b7"); ("timestamp", VNum (of_Z 1700000000));
             ("lat", VNum (of_Z 10)); ("lon", VNum (of_Z 20))])
    = Returned (Some p)
    /\ id p = "b7" /\ ts p = of_Z 1700000000000 /\ lat p = of_Z 10 /\ lon p = of_Z 20
    /\ alt p = Some (of_Z 0).
Proof.
  destruct (normalizeObject_accepts_flat_report (rt := sample_runtime)
              [("id", VStr "b7"); ("timestamp", VNum (of_Z 1700000000));
               ("lat", VNum (of_Z 10)); ("lon", VNum (of_Z 20))]
              "b7" "timestamp" ["t"; "ts"] ["time"; "datetime"; "date"; "observed"; "recordedAt"]
              (of_Z 1700000000) (of_Z 10) (of_Z 20) (of_Z 1700000000000))
    as (p & Hp & Hid & Hts & _ & Hlat & Hlon & _ & Halt).
  - apply (bool_decide_unpack _). vm_compute. exact I.
  - repeat (apply Forall_cons; split; [simpl; auto|]). apply Forall_nil_2.
  - reflexivity.
  - reflexivity.
  - by apply no_key_matches.
  - reflexivity.
  - reflexivity.
  - vm_compute. reflexivity.
  - vm_compute. reflexivity.
  - reflexivity.
  - reflexivity.
  - reflexivity.
  - reflexivity.
  - reflexivity.
  - reflexivity.
  - exists p. split; [exact Hp|]. split; [exact Hid|]. split; [exact Hts|].
    split; [exact Hlat|]. split; [exact Hlon|]. apply Halt.
    by apply no_key_matches.
Defined.

(** X9: a report dated beyond the range of a Date is not rejected: it
    makes normalizeObject raise.  For a record whose values are scalars or
    null, with a text under [id], finite in-bounds numbers under [lat] and
    [lon], and, under the first time candidate that any of its keys
    matches, a finite number above 8.64e15, toMs reads the number as
    milliseconds and leaves it as it is, and normalizeObject raises (the
    RangeError of toISOString) instead of returning null. *)
Theorem normalizeObject_raises_on_distant_time {rt : Runtime} (o : props) (s : string)
    (tk : string) (pre post : list string) (n a b : number) :
  NoDup (keys o) ->
  Forall (fun kv => is_scalar (snd kv) = true \/ snd kv = VNull) o ->
  get_prop o "id" = Some (VStr s) ->
  KEY_time = pre ++ tk :: post ->
  (forall k' key, k' ∈ pre -> key ∈ keys o -> toLowerCase key <> toLowerCase k') ->
  get_prop o tk = Some (VNum n) ->
  isFinite n = true -> gtb n MAX_TIME = true ->
  get_prop o "lat" = Some (VNum a) -> isFinite a = true -> leb (abs a) (of_Z 90) = true ->
  get_prop o "lon" = Some (VNum b) -> isFinite b = true -> leb (abs b) (of_Z 180) = true ->
  toMs (Some (VNum n)) = Returned n /\ normalizeObject (VObj o) = Thrown.
Proof.
  intros Hnd Hall Hid Htimes Hpre Htk Hn Hbeyond Hlat Ha Hab Hlon Hb Hbb.
  destruct (beyond_MAX_TIME n Hn Hbeyond) as [Hms Htime].
  destruct (normalizeObject_flat_report o s tk pre post n a b) as (al & Hrec & _);
    try done.
  rewrite (toMs_number n Hn), Hms. split; [done|].
  rewrite Hrec, Hms. unfold toISOString. by rewrite Htime.
Qed.

(** The report [{id: "b1", ts: 1e16, lat: 1, lon: 2}]. *)
Lemma normalizeObject_raises_on_distant_time_witness :
  normalizeObject (rt := sample_runtime)
    (VObj [("id", VStr "b1"); ("ts", VNum (of_Z 10000000000000000));
           ("lat", VNum (of_Z 1)); ("lon", VNum (of_Z 2))])
  = Thrown.
Proof.
  apply (proj2 (normalizeObject_raises_on_distant_time (rt := sample_runtime)
           [("id", VStr "b1"); ("ts", VNum (of_Z 10000000000000000));
            ("lat", VNum (of_Z 1)); ("lon", VNum (of_Z 2))]
           "b1" "ts" ["t"] ["timestamp"; "time"; "datetime"; "date"; "observed"; "recordedAt"]
           (of_Z 10000000000000000) (of_Z 1) (of_Z 2)
           ltac:(apply (bool_decide_unpack _); vm_compute; exact I)
           ltac:(repeat (apply Forall_cons; split; [simpl; auto|]); apply Forall_nil_2)
           eq_refl eq_refl ltac:(by apply no_key_matches)
           eq_refl eq_refl eq_refl eq_refl eq_refl eq_refl eq_refl eq_refl eq_refl)).
Defined.

(** ** Record Normalizer: tuples of numbers *)

Lemma of_Z_sub (a b : Z) : sub (of_Z a) (of_Z b) = of_Z (a - b).
Proof.
  unfold sub, of_Z. f_equal. apply Qc_is_canon.
  unfold Qcminus, Qcplus, Qcopp, Q2Qc. simpl. rewrite !Qred_correct.
  unfold Z.sub. by rewrite inject_Z_plus, inject_Z_opp.
Qed.

Lemma of_Z_leb (a b : Z) : leb (of_Z a) (of_Z b) = (a <=? b)%Z.
Proof.
  change (Qc_leb (Q2Qc (inject_Z a)) (Q2Qc (inject_Z b)) = (a <=? b)%Z).
  apply eq_true_iff_eq. rewrite Qc_leb_le, Z.leb_le. unfold Qcle, Q2Qc. cbn [this].
  rewrite !Qred_correct. by rewrite <- Zle_Qle.
Qed.

Lemma abs_of_Z (z : Z) : abs (of_Z z) = of_Z (Z.abs z).
Proof.
  unfold abs, of_Z, Qc_abs. f_equal.
  change (Qc_ltb (Q2Qc (inject_Z z)) (Q2Qc 0)) with (ltb (of_Z z) (of_Z 0)).
  rewrite of_Z_ltb. destruct (Z.ltb_spec z 0) as [Hneg|Hpos].
  - rewrite Z.abs_neq by lia. apply Qc_is_canon.
    unfold Qcopp, Q2Qc. simpl. rewrite !Qred_correct. by rewrite inject_Z_opp.
  - by rewrite Z.abs_eq.
Qed.

(** An integral number of milliseconds within 8.64e15 of the epoch is a
    time value. *)
Lemma time_value_of_Z (z : Z) :
  (Z.abs z <= 8640000000000000)%Z -> time_value (of_Z z) = true.
Proof.
  intros Hz. unfold time_value, MAX_TIME. rewrite abs_of_Z, of_Z_leb.
  by apply Z.leb_le in Hz as ->.
Qed.

(** X19: normalizeTuple on what is no tuple and on tuples of numbers.  It
    returns null for a record that is not a sequence and for a sequence of
    fewer than two elements.  For a sequence that starts with two numbers,
    followed by nothing or by a third number, it returns null unless both
    are finite with the first within [-90, 90] and the second within
    [-180, 180]; otherwise, for one of the hours 0..23 and a clock reading
    [t] from the epoch to the end of the range of a Date, it emits the
    point whose id is the hour, padded to two digits, a dash and the index,
    whose timestamp is [t - hour * 3600000], whose coordinates are the two
    numbers, and whose altitude is the third number when there is one and
    it is finite, and null otherwise. *)
Theorem normalizeTuple_on_numbers {rt : Runtime} (t : Z) (a b : number) (rest : list value)
    (hour idx : nat) :
  (forall now rec, isArray rec = false -> normalizeTuple now rec hour idx = Returned None)
  /\ (forall now r, (length r < 2)%nat -> normalizeTuple now (VArr r) hour idx = Returned None)
  /\ ((rest = [] \/ exists c rest', rest = VNum c :: rest') ->
      (isFinite a && isFinite b && leb (abs a) (of_Z 90) && leb (abs b) (of_Z 180) = false ->
       forall now, normalizeTuple now (VArr (VNum a :: VNum b :: rest)) hour idx = Returned None)
      /\ (isFinite a && isFinite b && leb (abs a) (of_Z 90) && leb (abs b) (of_Z 180) = true ->
          (0 <= t <= 8640000000000000)%Z -> (hour < 24)%nat ->
          normalizeTuple (of_Z t) (VArr (VNum a :: VNum b :: rest)) hour idx
          = Returned
              (Some {| id := tuple_id hour idx;
                       ts := of_Z (t - Z.of_nat hour * 3600000);
                       iso := Date_toISOString (of_Z (t - Z.of_nat hour * 3600000));
                       lat := a; lon := b;
                       alt := match rest with
                              | VNum c :: _ => if isFinite c then Some c else None
                              | _ => None
                              end;
                       wind := None; air := None |})))
  /\ ((hour < 24)%nat -> String.length (padStart0 2 (nat_to_string hour)) = 2%nat).
Proof.
  split; [|split; [|split]].
  - by intros now [| | | |r|].
  - intros now r Hr. unfold normalizeTuple. by rewrite (proj2 (Nat.ltb_lt (length r) 2)).
  - intros Hrest.
    assert (Hthird : ToNumber ((VNum a :: VNum b :: rest) !! 2%nat)
                     = Returned match rest with VNum c :: _ => c | _ => NaN end)
      by (by destruct Hrest as [->|(c & rest' & ->)]).
    assert (Hcases : forall now,
              normalizeTuple now (VArr (VNum a :: VNum b :: rest)) hour idx
              = if isFinite a && isFinite b && leb (abs a) (of_Z 90) && leb (abs b) (of_Z 180)
                then do text <- toISOString (sub now (of_Z (Z.of_nat hour * 3600000)));
                     Returned
                       (Some {| id := tuple_id hour idx;
                                ts := sub now (of_Z (Z.of_nat hour * 3600000));
                                iso := text; lat := a; lon := b;
                                alt := match rest with
                                       | VNum c :: _ => if isFinite c then Some c else None
                                       | _ => None
                                       end;
                                wind := None; air := None |})
                else Returned None).
    { intros now. unfold normalizeTuple. rewrite hour_ms.
      change (ToNumber ((VNum a :: VNum b :: rest) !! 0%nat)) with (Returned a).
      change (ToNumber ((VNum a :: VNum b :: rest) !! 1%nat)) with (Returned b).
      rewrite Hthird. cbn [length Nat.ltb Nat.leb bind].
      destruct (isFinite a) eqn:Ha; [|done].
      destruct (isFinite b) eqn:Hb; [|done]. cbn [negb orb andb].
      rewrite !gtb_not_leb by (by rewrite ?abs_finite).
      destruct (leb (abs a) (of_Z 90)); [|done].
      destruct (leb (abs b) (of_Z 180)); [|done]. cbn [negb orb andb].
      destruct (toISOString _); [|done]. cbn [bind]. do 3 f_equal.
      by destruct Hrest as [->|(c & rest' & ->)]. }
    split.
    + intros Hno now. by rewrite Hcases, Hno.
    + intros Hyes Ht Hhour. rewrite Hcases, Hyes, of_Z_sub.
      unfold toISOString. rewrite time_value_of_Z by lia. done.
  - intros H. rewrite padStart0_length.
    assert (hour < 100)%nat as H100 by lia.
    pose proof (hour_text_length hour H100). lia.
Qed.

(** The tuple [10.5, -20.3, 1500] of bucket 3, at position 0, on
    2023-11-14T22:13:20Z. *)
Lemma normalizeTuple_on_numbers_witness :
  normalizeTuple (rt := sample_runtime) (of_Z 1700000000000)
    (VArr [VNum (Fin (Q2Qc (105 # 10))); VNum (Fin (Q2Qc (-203 # 10))); VNum (of_Z 1500)])
    3 0
  = Returned
      (Some {| id := "03-0"; ts := of_Z 1699989200000; iso := "2023-11-14T19:13:20.000Z";
               lat := Fin (Q2Qc (105 # 10)); lon := Fin (Q2Qc (-203 # 10));
               alt := Some (of_Z 1500); wind := None; air := None |}).
Proof.
  destruct (normalizeTuple_on_numbers (rt := sample_runtime) 1700000000000
              (Fin (Q2Qc (105 # 10))) (Fin (Q2Qc (-203 # 10))) [VNum (of_Z 1500)] 3 0)
    as (_ & _ & H & _).
  destruct H as [_ H]; [right; by eexists _, _|].
  rewrite H; [|vm_compute; reflexivity|lia|lia].
  vm_compute. reflexivity.
Defined.

(** ** Body Explode: the forms of a body *)

Lemma fold_left_push (l acc : list value) :
  fold_left push l acc = acc ++ not_null_elems l.
Proof.
  revert acc. induction l as [|r l IH]; intros acc; [by rewrite app_nil_r|].
  cbn [fold_left]. rewrite IH. unfold push, not_null_elems. cbn [List.filter].
  destruct (nullish (Some r)); cbn [negb]; [done|by rewrite <- app_assoc].
Qed.

Lemma not_null_elems_non_null (l : list value) :
  Forall (fun r => r <> VNull) (not_null_elems l).
Proof.
  apply Forall_forall. intros r Hr. apply list_elem_of_In, List.filter_In in Hr as [_ Hr].
  by intros ->.
Qed.

Lemma push_Forall (P : value -> Prop) (out : list value) (r : value) :
  (r <> VNull -> P r) -> Forall P out -> Forall P (push out r).
Proof.
  intros Hr Hout. unfold push. destruct (nullish (Some r)) eqn:E; [done|].
  apply Forall_app. split; [done|]. apply Forall_singleton, Hr. by intros ->.
Qed.

(** What holds of the accumulator before a loop and is kept by every turn
    holds after the loop. *)
Lemma for_each_invariant {A St} (P : St -> Prop) (body : St -> A -> outcome St)
    (l : list A) (s s' : St) :
  (forall s a s', P s -> body s a = Returned s' -> P s') ->
  P s -> for_each body l s = Returned s' -> P s'.
Proof.
  intros Hbody. revert s. induction l as [|a r IH]; intros s Hs; simpl.
  - by intros [= <-].
  - destruct (body s a) as [s1|] eqn:H1; simpl; [|done]. apply IH. by eapply Hbody.
Qed.

Lemma find_array_key_first (o : props) (pre post : list string) (k : string) (l : list value) :
  Forall (fun k' => isArray (default VNull (get_prop o k')) = false) pre ->
  get_prop o k = Some (VArr l) ->
  find_array_key (VObj o) (pre ++ k :: post) = Returned (Some k).
Proof.
  intros Hpre Hk. induction Hpre as [|k' pre Hk' _ IH]; simpl.
  - by rewrite Hk.
  - by rewrite Hk'.
Qed.

Lemma find_array_key_none (o : props) (ks : list string) :
  Forall (fun k' => isArray (default VNull (get_prop o k')) = false) ks ->
  find_array_key (VObj o) ks = Returned None.
Proof. induction 1 as [|k' pre Hk' _ IH]; simpl; [done|by rewrite Hk']. Qed.

Lemma keyed_spread_keyed (k : string) (v : value) : keyed (keyed_spread k v).
Proof.
  unfold keyed, keyed_spread. eexists. split; [done|].
  generalize (own_entries v). intros es.
  assert (G : forall acc, is_Some (get_prop acc "__key") ->
              is_Some (get_prop (fold_left (fun o '(k', v') => define_prop o k' v') es acc)
                         "__key")).
  { induction es as [|[k' v'] es IH]; intros acc Hacc; simpl; [done|].
    apply IH. destruct (decide (k' = "__key")) as [->|Hne].
    - by rewrite get_define_prop_eq.
    - by rewrite get_define_prop_ne. }
  apply G. by eexists.
Qed.

Section ExplodeShapes.
Context {rt : Runtime}.

Lemma explode_non_null (body : value) (records : list value) :
  explodeBodyToRecords body = Returned records -> Forall (fun r => r <> VNull) records.
Proof.
  unfold explodeBodyToRecords.
  destruct (or_else (safeJSON body) body) as [| b | n | s | l | o] eqn:Hparsed;
    cbn [isArray truthy typeof_object andb]; rewrite ?andb_false_r.
  1-4: destruct body as [| | |s0| |]; cbn [typeof_string split_lines_of bind];
    try (intros [= <-]; constructor);
    (destruct (_ <? _)%nat; intros [= <-]; [|constructor]);
    (generalize (nonblank_lines (split_lines s0)); intros lines;
     enough (G : forall acc, Forall (fun r => r <> VNull) acc ->
                 Forall (fun r => r <> VNull)
                   (fold_left
                      (fun out line =>
                         let p := safeJSON (VStr line) in if truthy p then push out p else out)
                      lines acc)) by (apply G; constructor);
     induction lines as [|line lines IH]; intros acc Hacc; simpl; [done|];
     apply IH; destruct (truthy _); [by apply push_Forall|done]).
  - cbn [forEach_elems bind]. intros [= <-]. rewrite fold_left_push.
    apply not_null_elems_non_null.
  - destruct (find_array_key_object o WRAP_KEYS) as (found & -> & Harr). cbn [bind].
    destruct found as [k|].
    + destruct (Harr k eq_refl) as [l Hl]. cbn [member bind]. rewrite Hl.
      cbn [forEach_elems bind]. intros [= <-]. rewrite fold_left_push.
      apply not_null_elems_non_null.
    + cbn [Object_entries bind own_entries].
      apply for_each_invariant; [|constructor].
      intros out [k v] out' Hout.
      destruct (isArray v) eqn:Hv.
      * destruct v; try done. cbn [forEach_elems bind]. intros [= <-].
        clear Hv. revert out Hout. induction elems as [|item items IH]; intros out Hout; simpl; [done|].
        apply IH. by apply push_Forall.
      * destruct (truthy v && typeof_object v); intros [= <-]; [|done].
        by apply push_Forall.
Qed.

End ExplodeShapes.

Section ExplodeForms.
Context {rt : Runtime}.

(** X12: the two sequence forms of a body.  When the decoded body is a
    sequence, the records are its elements that are not null, in order.
    When it is a mapping, the first of the keys data, items, records,
    points, rows that holds a sequence supplies the records in the same
    way, and every other property of the mapping is ignored. *)
Theorem explode_sequence_forms (body : value) :
  (forall l,
     decoded_form body = VArr l ->
     explodeBodyToRecords body = Returned (not_null_elems l))
  /\ (forall o pre k post l,
        decoded_form body = VObj o ->
        WRAP_KEYS = pre ++ k :: post ->
        Forall (fun k' => isArray (default VNull (get_prop o k')) = false) pre ->
        get_prop o k = Some (VArr l) ->
        explodeBodyToRecords body = Returned (not_null_elems l)).
Proof.
  unfold decoded_form, explodeBodyToRecords. split.
  - intros l ->. cbn [isArray forEach_elems bind]. by rewrite fold_left_push.
  - intros o pre k post l -> -> Hpre Hk. cbn [isArray truthy typeof_object andb].
    rewrite (find_array_key_first o pre post k l Hpre Hk). cbn [bind member].
    rewrite Hk. cbn [forEach_elems bind]. by rewrite fold_left_push.
Qed.

(** X13: no record that explodeBodyToRecords yields is null; and when the
    decoded body is a mapping none of whose wrapper keys (data, items,
    records, points, rows) holds a sequence, the call returns and every
    record is an object that has a property [__key]. *)
Theorem explode_records_shape (body : value) :
  (forall records,
     explodeBodyToRecords body = Returned records ->
     Forall (fun r => r <> VNull) records)
  /\ (forall o,
        decoded_form body = VObj o ->
        Forall (fun k' => isArray (default VNull (get_prop o k')) = false) WRAP_KEYS ->
        exists records,
          explodeBodyToRecords body = Returned records /\ Forall keyed records).
Proof.
  split; [apply explode_non_null|].
  intros o Ho Hwrap. destruct (explode_returns body) as [records Hrec].
  exists records. split; [done|]. revert Hrec.
  unfold decoded_form in Ho. unfold explodeBodyToRecords. rewrite Ho.
  cbn [isArray truthy typeof_object andb].
  rewrite (find_array_key_none o WRAP_KEYS Hwrap). cbn [bind Object_entries own_entries].
  apply for_each_invariant; [|constructor].
  intros out [k v] out' Hout.
  destruct (isArray v) eqn:Hv.
  - destruct v; try done. cbn [forEach_elems bind]. intros [= <-]. clear Hv.
    revert out Hout. induction elems as [|item items IH]; intros out Hout; simpl; [done|].
    apply IH. apply push_Forall; [|done]. intros _. apply keyed_spread_keyed.
  - destruct (truthy v && typeof_object v); intros [= <-]; [|done].
    apply push_Forall; [|done]. intros _. apply keyed_spread_keyed.
Qed.

End ExplodeForms.

(** A body wrapped as [{meta: 3, items: [{id: "x"}, null]}]. *)
Lemma explode_sequence_forms_witness :
  explodeBodyToRecords (rt := sample_runtime)
    (VObj [("meta", VNum (of_Z 3)); ("items", VArr [VObj [("id", VStr "x")]; VNull])])
  = Returned [VObj [("id", VStr "x")]].
Proof.
  apply (proj2 (explode_sequence_forms (rt := sample_runtime) _)
           [("meta", VNum (of_Z 3)); ("items", VArr [VObj [("id", VStr "x")]; VNull])]
           ["data"] "items" ["records"; "points"; "rows"]
           [VObj [("id", VStr "x")]; VNull]).
  - reflexivity.
  - reflexivity.
  - repeat constructor.
  - reflexivity.
Defined.

(** A map of arrays, [{fleetA: [{lat: 1}, null], meta: 3}]: the null item
    gives a record too, which holds nothing but the key. *)
Lemma explode_records_shape_witness :
  exists records,
    explodeBodyToRecords (rt := sample_runtime)
      (VObj [("fleetA", VArr [VObj [("lat", VNum (of_Z 1))]; VNull]); ("meta", VNum (of_Z 3))])
    = Returned records
    /\ Forall keyed records.
Proof.
  apply (proj2 (explode_records_shape (rt := sample_runtime) _)
           [("fleetA", VArr [VObj [("lat", VNum (of_Z 1))]; VNull]); ("meta", VNum (of_Z 3))]).
  - reflexivity.
  - repeat constructor.
Defined.

Section ExplodeLines.
Context {rt : Runtime}.

Lemma fold_left_lines (lines : list string) (acc : list value) :
  fold_left
    (fun out line => let p := safeJSON (VStr line) in if truthy p then push out p else out)
    lines acc
  = acc ++ List.filter truthy (map (fun line => safeJSON (VStr line)) lines).
Proof.
  revert acc. induction lines as [|line lines IH]; intros acc; [by rewrite app_nil_r|].
  cbn [fold_left map List.filter]. cbv zeta. rewrite IH.
  destruct (truthy (safeJSON (VStr line))) eqn:Hp; [|done].
  unfold push. assert (nullish (Some (safeJSON (VStr line))) = false) as ->
    by (by destruct (safeJSON (VStr line))).
  by rewrite <- app_assoc.
Qed.

(** X14: the line form of a body.  A text that does not decode, as a
    whole, to a sequence or a mapping is read line by line when it has
    more than one line that is not blank: the records are the decodings of
    the trimmed non-blank lines, in order, less those that do not decode
    or decode to null, false, 0 or the empty text. *)
Theorem explode_line_form (s : string) :
  isArray (decoded_form (VStr s)) = false ->
  is_mapping (decoded_form (VStr s)) = false ->
  (1 < length (nonblank_lines (split_lines s)))%nat ->
  explodeBodyToRecords (VStr s)
  = Returned
      (List.filter truthy
         (map (fun line => safeJSON (VStr line)) (nonblank_lines (split_lines s)))).
Proof.
  unfold decoded_form, explodeBodyToRecords. intros Harr Hmap Hlines.
  rewrite Harr.
  assert (truthy (or_else (safeJSON (VStr s)) (VStr s))
          && typeof_object (or_else (safeJSON (VStr s)) (VStr s)) = false) as ->
    by (destruct (or_else (safeJSON (VStr s)) (VStr s)); try done; apply andb_false_r).
  cbn [typeof_string split_lines_of bind]. cbv zeta.
  rewrite (proj2 (Nat.ltb_lt _ _) Hlines). by rewrite fold_left_lines.
Qed.

End ExplodeLines.

(** Three lines, the second of which decodes to null. *)
Lemma explode_line_form_witness :
  explodeBodyToRecords (rt := sample_runtime)
    (VStr ("true" +:+ String LF ("null" +:+ String LF "true")))
  = Returned [VBool true; VBool true].
Proof.
  rewrite (explode_line_form (rt := sample_runtime)
             ("true" +:+ String LF ("null" +:+ String LF "true")));
    [reflexivity|reflexivity|reflexivity|vm_compute; lia].
Defined.

(** ** Deduplicator/Sorter: fixed points *)

Section SortedFixed.
Context {A : Type}.
Variable t : A -> number.

(** An element that may stand before the first of a list is put there. *)
Lemma sort_insert_head (x : A) (l : list A) :
  isFinite (t x) = true -> Forall (fun y => isFinite (t y) = true) l ->
  HdRel (ascending t) x l -> sort_insert (by_difference t) x l = x :: l.
Proof.
  intros Hx Hl Hhd. destruct l as [|y r]; [done|]. simpl.
  apply Forall_cons in Hl as [Hy _]. apply HdRel_inv in Hhd.
  unfold ascending in Hhd. unfold by_difference.
  destruct (t x) as [| | |qx], (t y) as [| | |qy]; try done.
  rewrite sub_positive, Qc_ltb_leb.
  change (Qc_leb qx qy = true) in Hhd. by rewrite Hhd.
Qed.

(** Sorting leaves a sorted array of finite keys as it is. *)
Lemma array_sort_fixed (l : list A) :
  Forall (fun y => isFinite (t y) = true) l ->
  Sorted (ascending t) l -> array_sort (by_difference t) l = l.
Proof.
  intros Hl Hs. induction l as [|x r IH]; [done|]. simpl.
  apply Forall_cons in Hl as [Hx Hr]. apply Sorted_inv in Hs as [Hs Hhd].
  rewrite IH by done. by apply sort_insert_head.
Qed.

End SortedFixed.

Section DedupFixed.
Context {rt : Runtime}.

(** The loop drops nothing from points whose keys differ from each other
    and from the keys seen. *)
Lemma dedup_loop_keeps (points : list Point) (seen : gset string) :
  NoDup (dedup_key <$> points) ->
  (forall p, p ∈ points -> dedup_key p ∉ seen) ->
  dedup_loop points seen [] = points.
Proof.
  revert seen. induction points as [|p rest IH]; intros seen Hnd Hseen; [done|].
  rewrite fmap_cons in Hnd. apply NoDup_cons in Hnd as [Hp Hnd]. simpl.
  rewrite bool_decide_eq_false_2 by (apply Hseen, list_elem_of_here).
  rewrite dedup_loop_out. simpl. f_equal. apply IH; [done|].
  intros q Hq. rewrite elem_of_union, elem_of_singleton. intros [E|Hin].
  - apply Hp. rewrite <- E. by apply list_elem_of_fmap_2.
  - by apply (Hseen q); [apply list_elem_of_further|].
Qed.

Hypothesis Hinj : NumberToString_injective rt.
Hypothesis Hcolon : NumberToString_colon_free rt.

Lemma dedup_key_inj (p q : Point) : dedup_key p = dedup_key q -> ident p = ident q.
Proof. intros E. by apply (dedup_key_ident Hinj Hcolon p (id q) (ts q)). Qed.

Lemma NoDup_dedup_key (points : list Point) :
  NoDup (ident <$> points) -> NoDup (dedup_key <$> points).
Proof.
  induction points as [|p rest IH]; [constructor|].
  rewrite !fmap_cons, !NoDup_cons. intros [Hp Hnd]. split; [|by apply IH].
  intros Hin. apply list_elem_of_fmap in Hin as (q & E & Hq).
  apply Hp. rewrite (dedup_key_inj p q E). by apply list_elem_of_fmap_2.
Qed.

(** The loop of dedup leaves no two points with the same id and
    timestamp. *)
Lemma dedup_loop_NoDup (points : list Point) :
  NoDup (ident <$> dedup_loop points ∅ []).
Proof.
  apply NoDup_fmap_at_most_one. intros k.
  rewrite (dedup_loop_first_ident Hinj Hcolon), length_take. lia.
Qed.

Lemma dedup_NoDup (points : list Point) : NoDup (ident <$> dedup points).
Proof.
  unfold dedup. rewrite array_sort_perm. apply dedup_loop_NoDup.
Qed.

Lemma dedup_distinct (points : list Point) :
  NoDup (ident <$> points) -> dedup points = array_sort (by_difference ts) points.
Proof.
  intros Hnd. unfold dedup. rewrite dedup_loop_keeps; [done|by apply NoDup_dedup_key|].
  intros p _. apply not_elem_of_empty.
Qed.

Lemma dedup_twice (points : list Point) :
  Forall (fun p => isFinite (ts p) = true) points ->
  dedup (dedup points) = dedup points.
Proof.
  intros Hfin. rewrite (dedup_distinct (dedup points)) by apply dedup_NoDup.
  assert (Forall (fun p => isFinite (ts p) = true) (dedup_loop points ∅ [])) as Hkept.
  { rewrite Forall_forall in *. intros p Hp. apply Hfin.
    eapply elem_of_sublist; [exact Hp|apply dedup_loop_sublist]. }
  apply array_sort_fixed.
  - unfold dedup. by rewrite array_sort_perm.
  - apply StronglySorted_Sorted. by apply (array_sort_sorted ts).
Qed.

End DedupFixed.

(** dedup returns points of its input, *)
Lemma dedup_Forall {rt : Runtime} (P : Point -> Prop) (points : list Point) :
  Forall P points -> Forall P (dedup points).
Proof.
  intros H. unfold dedup. rewrite array_sort_perm. rewrite Forall_forall in *.
  intros p Hp. apply H. eapply elem_of_sublist; [exact Hp|apply dedup_loop_sublist].
Qed.

(** and no more of them than it was given. *)
Lemma dedup_length {rt : Runtime} (points : list Point) :
  (length (dedup points) <= length points)%nat.
Proof.
  unfold dedup. rewrite array_sort_perm. apply sublist_length, dedup_loop_sublist.
Qed.

(** X15: dedup drops nothing from points of which no two share id and
    timestamp, it only orders them; and on points with finite timestamps
    it is idempotent, deduplicating its own output changes nothing.
    Number::toString is assumed to separate numbers and to print no colon,
    as it does. *)
Theorem dedup_idempotent {rt : Runtime} (points : list Point) :
  NumberToString_injective rt -> NumberToString_colon_free rt ->
  (NoDup (ident <$> points) -> dedup points ≡ₚ points)
  /\ (Forall (fun p => isFinite (ts p) = true) points ->
      dedup (dedup points) = dedup points).
Proof.
  intros Hinj Hcolon. split.
  - intros Hnd. rewrite (dedup_distinct Hinj Hcolon) by done. apply array_sort_perm.
  - by apply dedup_twice.
Qed.

(** The four sample reports. *)
Lemma dedup_idempotent_witness :
  dedup (rt := sample_runtime) (dedup (rt := sample_runtime) sample_points)
  = dedup (rt := sample_runtime) sample_points.
Proof.
  apply (dedup_idempotent (rt := sample_runtime) sample_points).
  - apply sample_NumberToString_inj.
  - apply sample_NumberToString_colon_free.
  - repeat constructor.
Defined.

(** ** Source Fetcher: counters, invariants, failures *)

Lemma collect_length {A} (f : A -> outcome (option Point)) (l : list A) (ps : list Point) :
  collect f l = Returned ps -> (length ps <= length l)%nat.
Proof.
  revert ps. induction l as [|a r IH]; intros ps; simpl; [by intros [= <-]|].
  destruct (f a) as [p|]; simpl; [|done].
  destruct (collect f r) as [qs|]; simpl; [|done].
  specialize (IH qs eq_refl). intros [= <-]. destruct p; simpl; lia.
Qed.

Lemma collect_Forall {A} (P : Point -> Prop) (f : A -> outcome (option Point))
    (l : list A) (ps : list Point) :
  (forall a p, a ∈ l -> f a = Returned (Some p) -> P p) ->
  collect f l = Returned ps -> Forall P ps.
Proof.
  revert ps. induction l as [|a r IH]; intros ps Hf; simpl; [by intros [= <-]|].
  destruct (f a) as [p|] eqn:Hp; simpl; [|done].
  destruct (collect f r) as [qs|]; simpl; [|done]. intros [= <-].
  assert (Forall P qs) as Hqs.
  { apply IH; [|done]. intros a0 p0 Ha0. apply Hf. by apply list_elem_of_further. }
  destruct p as [q|]; [|done]. constructor; [|done].
  apply (Hf a); [apply list_elem_of_here|done].
Qed.

Section FetchInvariants.
Context {rt : Runtime}.
Variable w : World.

Lemma normalizeTuple_well_formed (now : number) (rec : value) (hour idx : nat) (p : Point) :
  normalizeTuple now rec hour idx = Returned (Some p) -> well_formed p.
Proof.
  intros H. apply normalizeTuple_emits in H
    as (r & a & b & c & _ & _ & _ & _ & _ & Ha & Hla & Hb & Hlo & Htime & ->).
  unfold well_formed. cbn [ts iso lat lon alt wind air].
  repeat split; try done.
  intros h. destruct (isFinite c) eqn:Hc; [|done]. by intros [= <-].
Qed.

Lemma normalizeObject_well_formed (rec : value) (p : Point) :
  normalizeObject rec = Returned (Some p) -> well_formed p.
Proof. intros H. by apply normalizeObject_inv in H as (_ & _ & _ & _ & ?). Qed.

Lemma body_points_well_formed (i : nat) (body : value) (ps : list Point) :
  body_points w i body = Returned ps -> Forall well_formed ps.
Proof.
  unfold body_points. destruct (records_of body) as [|first rest]; [by intros [= <-]|].
  destruct (isArray first); apply collect_Forall.
  - intros it p _. apply normalizeTuple_well_formed.
  - intros o p _. apply normalizeObject_well_formed.
Qed.

Lemma indexed_from_length {A} (l : list A) (i : nat) :
  length (indexed_from i l) = length l.
Proof. revert i. induction l as [|a r IH]; intros i; simpl; [done|by rewrite IH]. Qed.

Lemma body_points_length (i : nat) (body : value) (ps : list Point) :
  body_points w i body = Returned ps -> (length ps <= length (records_of body))%nat.
Proof.
  unfold body_points. destruct (records_of body) as [|first rest] eqn:E; [by intros [= <-]|].
  destruct (isArray first); intros H; apply collect_length in H; [|done].
  unfold indexed in H. by rewrite indexed_from_length in H.
Qed.

Lemma gather_well_formed (bodies : list (nat * value)) (pts : list Point) :
  gather w bodies = Returned pts -> Forall well_formed pts.
Proof.
  revert pts. induction bodies as [|[i b] r IH]; intros pts; simpl; [by intros [= <-]|].
  destruct (body_points w i b) as [ps|] eqn:Hps; simpl; [|done].
  destruct (gather w r) as [rest|]; simpl; [|done]. intros [= <-].
  apply Forall_app. split; [by eapply body_points_well_formed|by apply IH].
Qed.

Lemma gather_length (bodies : list (nat * value)) (pts : list Point) :
  gather w bodies = Returned pts -> (length pts <= raw_total bodies)%nat.
Proof.
  revert pts. induction bodies as [|[i b] r IH]; intros pts; simpl; [by intros [= <-]|].
  destruct (body_points w i b) as [ps|] eqn:Hps; simpl; [|done].
  destruct (gather w r) as [rest|]; simpl; [|done]. intros [= <-].
  apply body_points_length in Hps. specialize (IH rest eq_refl).
  unfold raw_total in *. rewrite length_app. simpl. lia.
Qed.

End FetchInvariants.

Section FetchProperties.
Context {rt : Runtime}.
Variable w : World.


(** X16: the counters of a debug fetch.  A fetch in debug mode that
    returns gives the points that the fetch without debug gives, and
    counters such that [files_ok + files_failed = 24], [normalized] and
    [unique_points] are both the number of points returned (the number
    after deduplication), and that number is at most [raw_records]. *)
Theorem fetch_debug_counters (r : FetchResult) :
  fetchWindborne24h w true = Returned r ->
  exists d pts,
    r = WithDebug d pts
    /\ fetchWindborne24h w false = Returned (PointsOnly pts)
    /\ (files_ok d + files_failed d = 24)%nat
    /\ normalized d = length pts
    /\ unique_points d = length pts
    /\ (length pts <= raw_records d)%nat.
Proof.
  rewrite !fetch_gather.
  pose proof (fulfilled_or_rejected (settled_buckets w) 0) as Hcount.
  rewrite settled_buckets_length in Hcount.
  pose proof (gather_length w (fulfilled_from 0 (settled_buckets w))) as Hraw.
  revert Hcount Hraw. generalize (settled_buckets w). intros results Hcount Hraw.
  destruct (gather w (fulfilled_from 0 results)) as [pts|]; [|discriminate].
  cbn [bind]. intros Hr. injection Hr as <-. eexists _, (dedup pts).
  split; [reflexivity|]. split; [reflexivity|].
  cbn [files_ok files_failed normalized unique_points raw_records].
  split; [exact Hcount|]. split; [reflexivity|]. split; [reflexivity|].
  etrans; [apply dedup_length|]. by apply Hraw.
Qed.

(** X17: every point a fetch returns is well formed: a timestamp that a
    Date can hold with its ISO text, a finite latitude in [-90, 90], a
    finite longitude in [-180, 180], a finite altitude or none, and no
    wind or air field. *)
Theorem fetch_points_well_formed (debug : bool) (r : FetchResult) :
  fetchWindborne24h w debug = Returned r -> Forall well_formed (result_points r).
Proof.
  rewrite fetch_gather.
  pose proof (gather_well_formed w (fulfilled_from 0 (settled_buckets w))) as Hwf.
  revert Hwf. generalize (settled_buckets w). intros results Hwf.
  destruct (gather w (fulfilled_from 0 results)) as [pts|]; [|discriminate].
  cbn [bind]. intros Hr. injection Hr as <-.
  assert (Forall well_formed (dedup pts)) as H by (apply dedup_Forall; by apply Hwf).
  by destruct debug.
Qed.

(** X18: when all 24 retrievals fail, the fetch still returns: no points,
    and in debug mode the counters 0 files read, 24 failed, 0 records. *)
Theorem fetch_all_failed (debug : bool) :
  (forall h, (h < 24)%nat -> http_get w (bucket_url h) = rejected) ->
  fetchWindborne24h w debug
  = Returned
      (if debug then
         WithDebug {| files_ok := 0; files_failed := 24; raw_records := 0;
                      normalized := 0; unique_points := 0 |} []
       else PointsOnly []).
Proof.
  intros Hfail.
  assert (fulfilled_from 0 (settled_buckets w) = []) as Hnone.
  { destruct (fulfilled_from 0 (settled_buckets w)) as [|[i b] rest] eqn:E; [done|].
    assert ((i, b) ∈ fulfilled_from 0 (settled_buckets w)) as Hin
      by (rewrite E; apply list_elem_of_here).
    apply fulfilled_bucket in Hin as [Hi Hb]. by rewrite Hfail in Hb. }
  pose proof (fulfilled_or_rejected (settled_buckets w) 0) as Hcount.
  rewrite settled_buckets_length, Hnone in Hcount.
  cbn [length] in Hcount. rewrite Nat.add_0_l in Hcount.
  rewrite fetch_gather, Hnone, Hcount. by destruct debug.
Qed.

End FetchProperties.

(** The sample world, five of whose retrievals fail. *)
Lemma fetch_debug_counters_witness :
  exists d pts,
    try_catch (fetchWindborne24h (rt := sample_runtime) sample_world true) (PointsOnly [])
    = WithDebug d pts
    /\ fetchWindborne24h (rt := sample_runtime) sample_world false = Returned (PointsOnly pts)
    /\ (files_ok d + files_failed d = 24)%nat
    /\ normalized d = length pts
    /\ unique_points d = length pts
    /\ (length pts <= raw_records d)%nat.
Proof.
  apply (fetch_debug_counters (rt := sample_runtime) sample_world).
  vm_compute. reflexivity.
Defined.

Lemma fetch_points_well_formed_witness :
  Forall (well_formed (rt := sample_runtime))
    (result_points
       (try_catch (fetchWindborne24h (rt := sample_runtime) sample_world false)
          (PointsOnly []))).
Proof.
  apply (fetch_points_well_formed (rt := sample_runtime) sample_world false).
  vm_compute. reflexivity.
Defined.

(** A world in which nothing answers. *)
Lemma fetch_all_failed_witness :
  fetchWindborne24h (rt := sample_runtime)
    {| http_get := fun _ => rejected; clock := fun _ _ => of_Z 0;
       wind_get := fun _ _ => rejected; air_get := fun _ _ => rejected |} true
  = Returned
      (WithDebug {| files_ok := 0; files_failed := 24; raw_records := 0;
                    normalized := 0; unique_points := 0 |} []).
Proof.
  apply (fetch_all_failed (rt := sample_runtime)
           {| http_get := fun _ => rejected; clock := fun _ _ => of_Z 0;
              wind_get := fun _ _ => rejected; air_get := fun _ _ => rejected |} true).
  reflexivity.
Defined.

Section FetchOrder.
Context {rt : Runtime}.
Variable w : World.

(** X20: the points of a fetch are in ascending order of timestamp,
    whatever the sources answered, because every normalized point has a
    finite timestamp; and no two of them share id and timestamp, when
    Number::toString separates numbers and prints no colon, as it does. *)
Theorem fetch_points_sorted_unique (debug : bool) (r : FetchResult) :
  fetchWindborne24h w debug = Returned r ->
  StronglySorted (ascending ts) (result_points r)
  /\ (NumberToString_injective rt -> NumberToString_colon_free rt ->
      NoDup (ident <$> result_points r)).
Proof.
  rewrite fetch_gather.
  pose proof (gather_well_formed w (fulfilled_from 0 (settled_buckets w))) as Hwf.
  revert Hwf. generalize (settled_buckets w). intros results Hwf.
  destruct (gather w (fulfilled_from 0 results)) as [pts|]; [|discriminate].
  cbn [bind]. intros Hr. injection Hr as <-.
  assert (result_points (if debug then
                           WithDebug
                             {| files_ok := length (fulfilled_from 0 results);
                                files_failed := count_rejected results;
                                raw_records := raw_total (fulfilled_from 0 results);
                                normalized := length (dedup pts);
                                unique_points := length (dedup pts) |} (dedup pts)
                         else PointsOnly (dedup pts)) = dedup pts) as ->
    by (by destruct debug).
  split.
  - unfold dedup. apply (array_sort_sorted ts).
    specialize (Hwf pts eq_refl). rewrite Forall_forall in *.
    intros p Hp. destruct (Hwf p) as (Htime & _).
    + eapply elem_of_sublist; [exact Hp|apply dedup_loop_sublist].
    + unfold time_value in Htime. by apply andb_true_iff in Htime as [? _].
  - intros Hinj Hcolon. by apply dedup_NoDup.
Qed.

End FetchOrder.

Lemma fetch_points_sorted_unique_witness :
  StronglySorted (ascending ts)
    (result_points
       (try_catch (fetchWindborne24h (rt := sample_runtime) sample_world false)
          (PointsOnly []))).
Proof.
  apply (fetch_points_sorted_unique (rt := sample_runtime) sample_world false).
  vm_compute. reflexivity.
Defined.

(** ** Source Fetcher: the tuple form of the feed *)

Lemma nat_to_string_inj (a b : nat) : nat_to_string a = nat_to_string b -> a = b.
Proof.
  unfold nat_to_string. intros E. apply DecimalNat.Unsigned.to_uint_inj.
  apply (f_equal NilEmpty.uint_of_string) in E. rewrite !NilEmpty.usu in E. congruence.
Qed.

Lemma nat_to_string_no_dash (a : nat) : includes_char "-" (nat_to_string a) = false.
Proof.
  unfold nat_to_string. generalize (Nat.to_uint a). intros d.
  induction d; simpl; done.
Qed.

(** Two-digit hours are told apart by their text. *)
Lemma hour_text_inj (h1 h2 : nat) :
  (h1 < 24)%nat -> (h2 < 24)%nat ->
  padStart0 2 (nat_to_string h1) = padStart0 2 (nat_to_string h2) -> h1 = h2.
Proof.
  intros H1 H2.
  assert (Hall : Forall (fun a => Forall (fun b =>
                    padStart0 2 (nat_to_string a) = padStart0 2 (nat_to_string b) -> a = b)
                    (seq 0 24)) (seq 0 24)).
  { repeat (apply Forall_cons; split;
            [repeat (apply Forall_cons; split; [vm_compute; congruence|]); apply Forall_nil_2|]).
    apply Forall_nil_2. }
  rewrite Forall_forall in Hall. specialize (Hall h1). rewrite Forall_forall in Hall.
  apply Hall; apply elem_of_seq; lia.
Qed.

Lemma tuple_id_inj (h1 h2 a b : nat) :
  (h1 < 24)%nat -> (h2 < 24)%nat -> tuple_id h1 a = tuple_id h2 b -> h1 = h2 /\ a = b.
Proof.
  intros H1 H2 E. unfold tuple_id in E.
  apply (separator_inj "-") in E as [Eh Ea]; [|apply nat_to_string_no_dash..].
  split; [by apply hour_text_inj|by apply nat_to_string_inj].
Qed.

Section TupleIds.
Context {rt : Runtime}.
Variable w : World.

Lemma normalizeTuple_id (now : number) (rec : value) (hour idx : nat) (p : Point) :
  normalizeTuple now rec hour idx = Returned (Some p) -> id p = tuple_id hour idx.
Proof.
  intros H. by apply normalizeTuple_emits in H
    as (r & a & b & c & _ & _ & _ & _ & _ & _ & _ & _ & _ & _ & ->).
Qed.

(** The points of the tuples of one body carry the ids of their
    positions, which differ. *)
Lemma collect_tuple_ids (i k : nat) (items : list value) (ps : list Point) :
  collect (fun it => normalizeTuple (clock w i (fst it)) (snd it) i (fst it))
    (indexed_from k items) = Returned ps ->
  Forall (fun p => exists j, (k <= j)%nat /\ id p = tuple_id i j) ps.
Proof.
  revert k ps. induction items as [|item items IH]; intros k ps; simpl.
  - intros [= <-]. constructor.
  - destruct (normalizeTuple _ item i k) as [p|] eqn:Hp; simpl; [|done].
    destruct (collect _ (indexed_from (S k) items)) as [qs|] eqn:Hqs; simpl; [|done].
    intros [= <-]. apply IH in Hqs.
    assert (Forall (fun p => exists j, (k <= j)%nat /\ id p = tuple_id i j) qs) as Hqs'.
    { eapply Forall_impl; [exact Hqs|]. intros q (j & Hj & Hq). exists j. split; [lia|done]. }
    destruct p as [q|]; [|done]. constructor; [|done].
    exists k. split; [done|]. by apply normalizeTuple_id in Hp.
Qed.

Lemma collect_tuple_NoDup (i k : nat) (items : list value) (ps : list Point) :
  (i < 24)%nat ->
  collect (fun it => normalizeTuple (clock w i (fst it)) (snd it) i (fst it))
    (indexed_from k items) = Returned ps ->
  NoDup (id <$> ps).
Proof.
  intros Hi. revert k ps. induction items as [|item items IH]; intros k ps; simpl.
  - intros [= <-]. constructor.
  - destruct (normalizeTuple _ item i k) as [p|] eqn:Hp; simpl; [|done].
    destruct (collect _ (indexed_from (S k) items)) as [qs|] eqn:Hqs; simpl; [|done].
    intros [= <-]. pose proof (collect_tuple_ids _ _ _ _ Hqs) as Hids.
    apply IH in Hqs. destruct p as [q|]; [|done].
    rewrite fmap_cons. apply NoDup_cons. split; [|done].
    intros Hin. apply list_elem_of_fmap in Hin as (q' & Heq & Hq').
    rewrite Forall_forall in Hids. destruct (Hids q' Hq') as (j & Hj & Hidq').
    apply normalizeTuple_id in Hp. rewrite Hp, Hidq' in Heq.
    apply tuple_id_inj in Heq as [_ ->]; [lia|done..].
Qed.

Lemma body_points_tuple_ids (i : nat) (body : value) (ps : list Point) :
  (i < 24)%nat -> tuple_form body = true -> body_points w i body = Returned ps ->
  NoDup (id <$> ps) /\ Forall (fun p => exists j, id p = tuple_id i j) ps.
Proof.
  intros Hi. unfold tuple_form, body_points.
  destruct (records_of body) as [|first rest]; [intros _ [= <-]; split; constructor|].
  intros -> Hps. split; [by eapply (collect_tuple_NoDup i 0)|].
  apply collect_tuple_ids in Hps. eapply Forall_impl; [exact Hps|].
  intros p (j & _ & Hp). by exists j.
Qed.

(** The points gathered from bodies in tuple form carry ids that tell
    their bucket and position, so no two of them share an id. *)
Lemma gather_tuple_ids (results : list (settled value)) (k : nat) (pts : list Point) :
  (k + length results <= 24)%nat ->
  Forall (fun b => tuple_form (snd b) = true) (fulfilled_from k results) ->
  gather w (fulfilled_from k results) = Returned pts ->
  NoDup (id <$> pts)
  /\ Forall (fun p => exists i j, (k <= i < 24)%nat /\ id p = tuple_id i j) pts.
Proof.
  revert k pts. induction results as [|[body|] results IH]; intros k pts Hlen Hform; simpl.
  - intros [= <-]. split; constructor.
  - simpl in Hlen, Hform. apply Forall_cons in Hform as [Hbody Hform]. simpl in Hbody.
    destruct (body_points w k body) as [ps|] eqn:Hps; simpl; [|done].
    destruct (gather w (fulfilled_from (S k) results)) as [rest|] eqn:Hrest; simpl; [|done].
    intros [= <-].
    apply body_points_tuple_ids in Hps as [Hnd Hids]; [|lia|done].
    apply IH in Hrest as [Hnd' Hids']; [|lia|done].
    rewrite Forall_forall in Hids, Hids'. split.
    + rewrite fmap_app. apply NoDup_app. split; [done|]. split; [|done].
      intros x Hx Hx'.
      apply list_elem_of_fmap in Hx as (p & -> & Hp).
      apply list_elem_of_fmap in Hx' as (q & Heq & Hq).
      destruct (Hids p Hp) as (j & Hj). destruct (Hids' q Hq) as (i' & j' & Hi' & Hj').
      rewrite Hj, Hj' in Heq. apply tuple_id_inj in Heq as [-> _]; lia.
    + apply Forall_forall. intros p [Hp|Hp]%elem_of_app.
      * destruct (Hids p Hp) as (j & Hj). exists k, j. split; [lia|done].
      * destruct (Hids' p Hp) as (i' & j' & Hi' & Hj'). exists i', j'. split; [lia|done].
  - simpl in Hlen, Hform. intros Hg. apply IH in Hg as [Hnd Hids]; [|lia|done].
    split; [done|]. eapply Forall_impl; [exact Hids|].
    intros p (i & j & Hi & Hp). exists i, j. split; [lia|done].
Qed.

Hypothesis Hcolon : NumberToString_colon_free rt.

(** Points with different ids have different keys. *)
Lemma NoDup_id_dedup_key (pts : list Point) :
  NoDup (id <$> pts) -> NoDup (dedup_key <$> pts).
Proof.
  induction pts as [|p rest IH]; [constructor|].
  rewrite !fmap_cons, !NoDup_cons. intros [Hp Hnd]. split; [|by apply IH].
  intros Hin. apply list_elem_of_fmap in Hin as (q & E & Hq).
  apply Hp. unfold dedup_key in E.
  apply (separator_inj ":") in E as [-> _]; [|apply Hcolon..].
  by apply list_elem_of_fmap_2.
Qed.

Lemma dedup_distinct_ids (pts : list Point) :
  NoDup (id <$> pts) -> dedup pts ≡ₚ pts.
Proof.
  intros Hnd. unfold dedup. rewrite array_sort_perm.
  rewrite dedup_loop_keeps; [done|by apply NoDup_id_dedup_key|].
  intros p _. apply not_elem_of_empty.
Qed.

End TupleIds.

(** X21: in the tuple form of the feed the deduplicator drops nothing.
    When the body of every fulfilled retrieval is in tuple form, the ids
    that normalizeTuple synthesizes from bucket and position are pairwise
    different, so the points a fetch returns are all the points normalized
    from the tuples, reordered, and no two of them share an id.
    Number::toString is assumed to print no colon, as it does. *)
Theorem fetch_tuple_form_keeps_all {rt : Runtime} (w : World) (debug : bool)
    (r : FetchResult) :
  NumberToString_colon_free rt ->
  Forall (fun b => tuple_form (snd b) = true) (fulfilled_from 0 (settled_buckets w)) ->
  fetchWindborne24h w debug = Returned r ->
  NoDup (id <$> result_points r)
  /\ exists pts,
       gather w (fulfilled_from 0 (settled_buckets w)) = Returned pts
       /\ result_points r ≡ₚ pts.
Proof.
  intros Hcolon Hform. rewrite fetch_gather.
  pose proof (gather_tuple_ids w (settled_buckets w) 0) as Hids.
  rewrite settled_buckets_length in Hids.
  revert Hform Hids. generalize (settled_buckets w). intros results Hform Hids.
  destruct (gather w (fulfilled_from 0 results)) as [pts|]; [|discriminate].
  cbn [bind]. intros Hr. injection Hr as <-.
  destruct (Hids pts) as [Hnd _]; [lia|done|done|].
  pose proof (dedup_distinct_ids Hcolon pts Hnd) as Hperm.
  assert (result_points (if debug then
                           WithDebug
                             {| files_ok := length (fulfilled_from 0 results);
                                files_failed := count_rejected results;
                                raw_records := raw_total (fulfilled_from 0 results);
                                normalized := length (dedup pts);
                                unique_points := length (dedup pts) |} (dedup pts)
                         else PointsOnly (dedup pts)) = dedup pts) as ->
    by (by destruct debug).
  split; [by rewrite Hperm|]. by exists pts.
Qed.

(** The sample world, whose 19 answering buckets hold one tuple each. *)
Lemma fetch_tuple_form_keeps_all_witness :
  NoDup (id <$> result_points
                  (try_catch (fetchWindborne24h (rt := sample_runtime) sample_world false)
                     (PointsOnly []))).
Proof.
  apply (fetch_tuple_form_keeps_all (rt := sample_runtime) sample_world false).
  - apply sample_NumberToString_colon_free.
  - apply (bool_decide_unpack _). vm_compute. exact I.
  - vm_compute. reflexivity.
Defined.

(** ** Enrichment Stage: identity and order *)

Lemma StronglySorted_of_fmap {A B} (f : A -> B) (R : relation B) (l : list A) :
  StronglySorted R (f <$> l) -> StronglySorted (fun x y => R (f x) (f y)) l.
Proof.
  induction l as [|x l IH]; [constructor|].
  rewrite fmap_cons. intros [Hs Hall]%StronglySorted_inv.
  constructor; [by apply IH|]. exact (proj1 (Forall_fmap _ _ _) Hall).
Qed.

Section EnrichOrder.
Context {rt : Runtime}.
Variable w : World.

Lemma enrich_fmap {B} (g : Point -> B) (points : list Point) :
  (forall p v, g (with_wind_field p v) = g p) ->
  (forall p v, g (with_air_field p v) = g p) ->
  g <$> enrich w points = g <$> points.
Proof.
  intros Hwind Hair. rewrite enrich_imap. apply list_eq. intros i.
  rewrite !list_lookup_fmap, list_lookup_imap.
  destruct (points !! i) as [p|]; [|done]. simpl.
  by rewrite withAir_spec, withWind_spec, Hair, Hwind.
Qed.

(** X22: enrichment keeps identity and order.  The enriched points have,
    position by position, the ids and timestamps of the points given;
    hence enriching points of which no two share id and timestamp, or
    points in ascending order of timestamp, gives points that are so. *)
Theorem enrich_keeps_identity_and_order (points : list Point) :
  ident <$> enrich w points = ident <$> points
  /\ (NoDup (ident <$> points) -> NoDup (ident <$> enrich w points))
  /\ (StronglySorted (ascending ts) points ->
      StronglySorted (ascending ts) (enrich w points)).
Proof.
  assert (Hident : ident <$> enrich w points = ident <$> points)
    by (by apply enrich_fmap).
  split; [done|]. split; [by rewrite Hident|].
  intros Hs. apply (StronglySorted_of_fmap ts (fun a b => leb a b = true)).
  rewrite (enrich_fmap ts) by done.
  by apply (StronglySorted_fmap ts (ascending ts)).
Qed.

End EnrichOrder.

(** The sample reports, deduplicated and then enriched. *)
Lemma enrich_keeps_identity_and_order_witness :
  NoDup (ident <$> enrich (rt := sample_runtime) sample_world
                     (dedup (rt := sample_runtime) sample_points)).
Proof.
  apply (enrich_keeps_identity_and_order (rt := sample_runtime) sample_world).
  apply (bool_decide_unpack _). vm_compute. exact I.
Defined.

(** ** Query interface, cache and health report *)

Section ServerProperties.
Context {rt : Runtime}.
Variable ENRICH : option string.




(** X26: the health report after a warm cycle.  Initially it reports
    nothing cached and no age.  After a warm cycle whose fetch returned, at
    a time other than 0, it reports [cached: true] and the age since that
    cycle, whether or not enrichment is enabled (and so also when /api/data
    never serves the cache).  A cycle whose fetch raised changes nothing in
    the report. *)
Theorem api_health_after_warm (w : World) (now t : number) (cache : Cache.entry) :
  api_health ENRICH now initial_cache
  = {| Health.ok := true; Health.enrich_enabled := ENABLE_ENRICH ENRICH;
       Health.cached := false; Health.cached_age_ms := None |}
  /\ (forall r,
        fetchWindborne24h w false = Returned r -> truthy (VNum t) = true ->
        api_health ENRICH now (warm ENRICH w t cache)
        = {| Health.ok := true; Health.enrich_enabled := ENABLE_ENRICH ENRICH;
             Health.cached := true; Health.cached_age_ms := Some (sub now t) |})
  /\ (fetchWindborne24h w false = Thrown ->
      api_health ENRICH now (warm ENRICH w t cache) = api_health ENRICH now cache).
Proof.
  split; [reflexivity|split].
  - intros r Hr Ht. unfold warm, warm_cycle. rewrite Hr. cbn [bind].
    destruct (ENABLE_ENRICH ENRICH) eqn:E; cbn [bind try_catch]; unfold api_health;
      cbn [Cache.points Cache.time]; by rewrite Ht, ?E.
  - intros Hr. unfold warm, warm_cycle. by rewrite Hr.
Qed.

End ServerProperties.




(** The report one minute after a warm cycle with enrichment disabled. *)
Lemma api_health_after_warm_witness :
  api_health None (of_Z 1700000060000)
    (warm (rt := sample_runtime) None sample_world (of_Z 1700000000000) initial_cache)
  = {| Health.ok := true; Health.enrich_enabled := false;
       Health.cached := true; Health.cached_age_ms := Some (of_Z 60000) |}.
Proof.
  destruct (api_health_after_warm (rt := sample_runtime) None sample_world
              (of_Z 1700000060000) (of_Z 1700000000000) initial_cache) as (_ & H & _).
  rewrite (H (try_catch (fetchWindborne24h (rt := sample_runtime) sample_world false)
                (PointsOnly [])));
    [|vm_compute; reflexivity|reflexivity].
  vm_compute. reflexivity.
Defined.



(** ** Map client *)

Lemma draw_step_drawn (hours cutoff : number) (st : Client.DrawState) (p : value) :
  Client.draw_step hours cutoff st p
  = match drawn hours cutoff p with
    | Some m => {| Client.markers := Client.markers st ++ [m];
                   Client.shown := S (Client.shown st) |}
    | None => st
    end.
Proof.
  unfold Client.draw_step, drawn, located, older_than. cbv zeta.
  destruct (truthy p); [|done]. cbn [negb orb andb].
  destruct (Number_isFinite (opt_member (Some p) "lat")); [|done]. cbn [negb orb andb].
  destruct (Number_isFinite (opt_member (Some p) "lon")); [|done]. cbn [negb orb andb].
  rewrite andb_assoc. by destruct (_ && _).
Qed.

Lemma draw_loop (hours cutoff : number) (points : list value) (st : Client.DrawState) :
  fold_left (Client.draw_step hours cutoff) points st
  = {| Client.markers := Client.markers st ++ omap (drawn hours cutoff) points;
       Client.shown := Client.shown st + length (omap (drawn hours cutoff) points) |}.
Proof.
  revert st. induction points as [|p points IH]; intros st; simpl.
  - destruct st. simpl. by rewrite app_nil_r, Nat.add_0_r.
  - rewrite IH, draw_step_drawn. destruct (drawn hours cutoff p) as [m|]; simpl; [|done].
    rewrite <- app_assoc. simpl. f_equal; try done; lia.
Qed.

Lemma draw_drawn (now hours : number) (points : list value) :
  Client.draw now hours points
  = {| Client.markers := omap (drawn hours (window_start now hours)) points;
       Client.shown := length (omap (drawn hours (window_start now hours)) points) |}.
Proof. unfold Client.draw. cbv zeta. by rewrite draw_loop. Qed.

Lemma omap_sublist {A B} (f g : A -> option B) (l : list A) :
  (forall x y, f x = Some y -> g x = Some y) -> omap f l `sublist_of` omap g l.
Proof.
  intros Hfg. induction l as [|x l IH]; simpl; [done|].
  destruct (f x) as [y|] eqn:Hf.
  - rewrite (Hfg x y Hf). by apply sublist_skip.
  - destruct (g x); [by apply sublist_cons|done].
Qed.

Lemma located_finite (p : value) (m : number * number) :
  located p = Some m -> isFinite (fst m) = true /\ isFinite (snd m) = true.
Proof.
  unfold located. destruct (truthy p); [|done]. cbn [andb].
  destruct (opt_member (Some p) "lat") as [[| |a| | |]|]; try done.
  destruct (opt_member (Some p) "lon") as [[| |b| | |]|]; cbn [Number_isFinite];
    try (by rewrite andb_false_r).
  destruct (isFinite a) eqn:Ha, (isFinite b) eqn:Hb; try done.
  by intros [= <-].
Qed.

(** The window of more hours starts no later. *)
Lemma window_start_antitone (now h1 h2 t : number) :
  isFinite now = true -> isFinite h1 = true -> isFinite h2 = true ->
  leb h1 h2 = true ->
  ltb t (window_start now h2) = true -> ltb t (window_start now h1) = true.
Proof.
  destruct now as [| | |n], h1 as [| | |q1], h2 as [| | |q2]; try done. intros _ _ _.
  unfold window_start.
  change (mul (mul (Fin q1) (of_Z 3600)) (of_Z 1000))
    with (Fin (q1 * Q2Qc (inject_Z 3600) * Q2Qc (inject_Z 1000))%Qc).
  change (mul (mul (Fin q2) (of_Z 3600)) (of_Z 1000))
    with (Fin (q2 * Q2Qc (inject_Z 3600) * Q2Qc (inject_Z 1000))%Qc).
  change (leb (Fin q1) (Fin q2)) with (Qc_leb q1 q2).
  set (c1 := (q1 * Q2Qc (inject_Z 3600) * Q2Qc (inject_Z 1000))%Qc).
  set (c2 := (q2 * Q2Qc (inject_Z 3600) * Q2Qc (inject_Z 1000))%Qc).
  change (sub (Fin n) (Fin c1)) with (Fin (n - c1)%Qc).
  change (sub (Fin n) (Fin c2)) with (Fin (n - c2)%Qc).
  intros Hle%Qc_leb_le.
  assert (c1 <= c2)%Qc as Hc.
  { unfold c1, c2. apply Qcmult_le_compat_r; [apply Qcmult_le_compat_r; [done|]|]; done. }
  assert (n - c2 <= n - c1)%Qc as Hw.
  { unfold Qcminus. rewrite !(Qcplus_comm n). apply Qcplus_le_compat; [|apply Qcle_refl].
    by apply Qcopp_le_compat. }
  destruct t as [| | |x]; try done.
  change (Qc_ltb x (n - c2)%Qc = true -> Qc_ltb x (n - c1)%Qc = true).
  rewrite !Qc_ltb_lt. intros Hx. by eapply Qclt_le_trans.
Qed.

Lemma ltb_leb_trans (a b c : number) :
  leb a b = true -> ltb b c = true -> ltb a c = true.
Proof.
  destruct a as [| | |x], b as [| | |y], c as [| | |z]; try done.
  change (Qc_leb x y = true -> Qc_ltb y z = true -> Qc_ltb x z = true).
  rewrite Qc_leb_le, !Qc_ltb_lt. apply Qcle_lt_trans.
Qed.

(** X28: what a call of draw shows.  The count draw displays is the
    number of markers it adds; the markers are, in order, places of reports
    that are not null and have finite numbers as [lat] and [lon] (nothing
    is converted: a coordinate given as text is not drawn); and when the
    [hours] that the call reads is not below 24, no report is left out for
    its age: every report with finite coordinates gets its marker.  (The
    [hours] that a call reads is that of the render that created draw, not
    always the position of the slider: a periodic refresh reads the initial
    6.) *)
Theorem draw_shows_located (now hours : number) (points : list value) :
  Client.shown (Client.draw now hours points)
  = length (Client.markers (Client.draw now hours points))
  /\ Client.markers (Client.draw now hours points) `sublist_of` omap located points
  /\ Forall (fun m => isFinite (fst m) = true /\ isFinite (snd m) = true)
       (Client.markers (Client.draw now hours points))
  /\ (ltb hours (of_Z 24) = false ->
      Client.markers (Client.draw now hours points) = omap located points).
Proof.
  rewrite draw_drawn. cbn [Client.markers Client.shown].
  assert (Hsub : omap (drawn hours (window_start now hours)) points
                 `sublist_of` omap located points).
  { apply omap_sublist. intros p m. unfold drawn.
    destruct (located p) as [m'|]; [|done]. by destruct (_ && _). }
  split; [done|]. split; [done|]. split.
  - apply Forall_forall. intros m Hm.
    apply (fun H => elem_of_sublist _ _ _ H Hsub), list_elem_of_omap in Hm as (p & _ & Hp).
    by apply (located_finite p).
  - intros H24. induction points as [|p points IH]; [done|]. simpl.
    assert (drawn hours (window_start now hours) p = located p) as ->.
    { unfold drawn. rewrite H24. by destruct (located p). }
    destruct (located p); [f_equal|]; apply IH;
      (apply omap_sublist; intros q m; unfold drawn;
       destruct (located q) as [m'|]; [|done]; by destruct (_ && _)).
Qed.

(** X29: a wider window shows no less.  For a finite clock reading and
    finite slider positions [h1 <= h2], every marker drawn at [h1] is drawn
    at [h2], in the same order. *)
Theorem draw_window_monotone (now h1 h2 : number) (points : list value) :
  isFinite now = true -> isFinite h1 = true -> isFinite h2 = true ->
  leb h1 h2 = true ->
  Client.markers (Client.draw now h1 points)
  `sublist_of` Client.markers (Client.draw now h2 points).
Proof.
  intros Hnow H1 H2 Hle. rewrite !draw_drawn. cbn [Client.markers].
  apply omap_sublist. intros p m. unfold drawn.
  destruct (located p) as [m'|]; [|done].
  destruct (ltb h2 (of_Z 24)) eqn:H24; [|by destruct (_ && _)].
  rewrite (ltb_leb_trans h1 h2 (of_Z 24) Hle H24). cbn [andb].
  unfold older_than.
  destruct (Number_isFinite (opt_member (Some p) "ts")); [|done]. cbn [andb].
  destruct (ltb _ (window_start now h2)) eqn:Hold;
    [|by destruct (ltb _ (window_start now h1))].
  by rewrite (window_start_antitone now h1 h2 _ Hnow H1 H2 Hle Hold).
Qed.

(** Three reports, dated six hours, one hour and no time before the
    clock reading: the window of one hour shows the second and the third,
    that of twelve hours all three. *)
Lemma draw_window_monotone_witness :
  Client.markers
    (Client.draw (of_Z 1700000000000) (of_Z 1)
       [VObj [("ts", VNum (of_Z 1699978400000)); ("lat", VNum (of_Z 1)); ("lon", VNum (of_Z 2))];
        VObj [("ts", VNum (of_Z 1699996400000)); ("lat", VNum (of_Z 3)); ("lon", VNum (of_Z 4))];
        VObj [("lat", VNum (of_Z 5)); ("lon", VNum (of_Z 6))]])
  `sublist_of`
  Client.markers
    (Client.draw (of_Z 1700000000000) (of_Z 12)
       [VObj [("ts", VNum (of_Z 1699978400000)); ("lat", VNum (of_Z 1)); ("lon", VNum (of_Z 2))];
        VObj [("ts", VNum (of_Z 1699996400000)); ("lat", VNum (of_Z 3)); ("lon", VNum (of_Z 4))];
        VObj [("lat", VNum (of_Z 5)); ("lon", VNum (of_Z 6))]]).
Proof. apply draw_window_monotone; reflexivity. Defined.

Lemma drawn_point_json {rt : Runtime} (hours cutoff : number) (p : Point) :
  well_formed p ->
  drawn hours cutoff (point_json p)
  = if ltb hours (of_Z 24) && ltb (ts p) cutoff then None else Some (lat p, lon p).
Proof.
  intros (Htime & _ & Hlat & _ & Hlon & _).
  assert (isFinite (ts p) = true) as Hts
    by (unfold time_value in Htime; by apply andb_true_iff in Htime as [? _]).
  unfold drawn, located, older_than, point_json, object_literal, json_number.
  rewrite Hts, Hlat, Hlon. destruct (alt p) as [a|], (wind p), (air p);
    cbn; rewrite ?Hts, ?Hlat, ?Hlon; cbn; by destruct (_ && _).
Qed.

(** X30: a call of draw shows the fetched points.  Given the points of a
    fetch as the reply of /api/data carries them, draw places one marker at
    the latitude and longitude of every point, in order, leaving out, when
    the [hours] that the call reads is below 24, exactly the points dated
    before the window of that many hours; so a call that reads 24 shows as
    many markers as the fetch returned points.  (The [hours] that a call
    reads is that of the render that created draw, not always the position
    of the slider: a periodic refresh reads the initial 6.) *)
Theorem draw_shows_fetched_points {rt : Runtime} (w : World) (debug : bool) (r : FetchResult)
    (now hours : number) :
  fetchWindborne24h w debug = Returned r ->
  Client.markers (Client.draw now hours (point_json <$> result_points r))
  = (fun p => (lat p, lon p))
      <$> List.filter
            (fun p => negb (ltb hours (of_Z 24) && ltb (ts p) (window_start now hours)))
            (result_points r)
  /\ (ltb hours (of_Z 24) = false ->
      Client.shown (Client.draw now hours (point_json <$> result_points r))
      = length (result_points r)).
Proof.
  intros Hr.
  assert (Forall well_formed (result_points r)) as Hwf.
  { revert Hr. rewrite fetch_gather.
    pose proof (gather_well_formed w (fulfilled_from 0 (settled_buckets w))) as Hwf.
    revert Hwf. generalize (settled_buckets w). intros results Hwf.
    destruct (gather w (fulfilled_from 0 results)) as [pts|]; [|discriminate].
    cbn [bind]. intros Hr. injection Hr as <-.
    assert (Forall well_formed (dedup pts)) as H by (apply dedup_Forall; by apply Hwf).
    by destruct debug. }
  clear Hr.
  rewrite draw_drawn. cbn [Client.markers Client.shown].
  assert (Hmarkers : omap (drawn hours (window_start now hours))
                       (point_json <$> result_points r)
                     = (fun p => (lat p, lon p))
                         <$> List.filter
                               (fun p => negb (ltb hours (of_Z 24)
                                               && ltb (ts p) (window_start now hours)))
                               (result_points r)).
  { induction Hwf as [|p pts Hp _ IH]; [done|].
    rewrite fmap_cons. cbn [omap list_omap List.filter].
    rewrite (drawn_point_json _ _ p Hp), IH.
    by destruct (_ && _). }
  split; [done|]. intros H24. rewrite Hmarkers, H24. cbn [andb negb].
  rewrite length_fmap. f_equal. clear. induction (result_points r); simpl; congruence.
Qed.

(** The 19 points of the sample world, in a call of draw that reads 24. *)
Lemma draw_shows_fetched_points_witness :
  Client.shown
    (Client.draw (of_Z 1700000060000) (of_Z 24)
       (point_json
          <$> result_points
                (try_catch (fetchWindborne24h (rt := sample_runtime) sample_world false)
                   (PointsOnly []))))
  = 19%nat.
Proof.
  destruct (draw_shows_fetched_points (rt := sample_runtime) sample_world false
              (try_catch (fetchWindborne24h (rt := sample_runtime) sample_world false)
                 (PointsOnly []))
              (of_Z 1700000060000) (of_Z 24)) as [_ H]; [vm_compute; reflexivity|].
  rewrite (H eq_refl). vm_compute. reflexivity.
Defined.
